(** * Ingestion pipeline of the schedule backend: model and properties

    A shallow embedding of the upload pipeline
    (routes/upload: [processFileAsync]), the file processor
    (services/fileProcessor.js) and the schedule extractor
    (services/openaiService.js), followed by the properties that the
    specification states about them. *)

From Stdlib Require Import List ZArith NArith Bool Lia String Ascii.
From Equations Require Import Equations.
Import ListNotations.

Set Warnings "-register-all".

(** ** JavaScript strings

    A JavaScript string is a sequence of UTF-16 code units.  The regular
    expressions of [cleanText] and [String.prototype.trim] look at single
    code units only, so a string is modelled as the list of its units. *)

Module Js.

Definition char := N.
Definition jsstring := list char.

Definition TAB : char := 9%N.
Definition LF : char := 10%N.
Definition CR : char := 13%N.
Definition SP : char := 32%N.

(** A literal with one-byte characters, as written in the source. *)
Fixpoint js (s : string) : jsstring :=
  match s with
  | EmptyString => []
  | String a r => N_of_ascii a :: js r
  end.

Definition string_eqb (a b : jsstring) : bool :=
  if list_eq_dec N.eq_dec a b then true else false.

(** WhiteSpace and LineTerminator code points of ECMAScript, the set that
    [trim] strips: TAB, LF, VT, FF, CR, SP, NBSP, the Unicode space
    separators, LS, PS and the byte order mark. *)
Definition is_white (c : char) : bool :=
  ((9 <=? c) && (c <=? 13) || (c =? 32) || (c =? 160) || (c =? 5760)
   || (8192 <=? c) && (c <=? 8202) || (c =? 8232) || (c =? 8233)
   || (c =? 8239) || (c =? 8287) || (c =? 12288) || (c =? 65279))%N.

Fixpoint dropWhile (p : char -> bool) (s : jsstring) : jsstring :=
  match s with
  | [] => []
  | c :: r => if p c then dropWhile p r else s
  end.

Fixpoint dropWhileEnd (p : char -> bool) (s : jsstring) : jsstring :=
  match s with
  | [] => []
  | c :: r =>
      match dropWhileEnd p r with
      | [] => if p c then [] else [c]
      | r' => c :: r'
      end
  end.

(** [s.trim()] *)
Definition trim (s : jsstring) : jsstring :=
  dropWhileEnd is_white (dropWhile is_white s).

(** [s.replace(/\r\n/g, '\n')]: every CR that is followed by LF goes, left
    to right. *)
Fixpoint replace_crlf (s : jsstring) : jsstring :=
  match s with
  | [] => []
  | c :: r =>
      if (c =? CR)%N then
        match r with
        | d :: r' => if (d =? LF)%N then LF :: replace_crlf r'
                     else c :: replace_crlf r
        | [] => [c]
        end
      else c :: replace_crlf r
  end.

(** [s.replace(/c/g, d)] for a single code unit. *)
Definition replace_char (c d : char) (s : jsstring) : jsstring :=
  map (fun x => if (x =? c)%N then d else x) s.

(** What a maximal run of [k] copies of [c] becomes under
    [replace(/c{min,}/g, rep)]: the pattern is greedy, so it takes a whole
    run, and a run shorter than [min] does not match at any of its
    positions. *)
Definition flush_run (c : char) (min : nat) (rep : jsstring) (k : nat)
  : jsstring :=
  if min <=? k then rep else repeat c k.

(** The scan of [replace(/c{min,}/g, rep)], with [k] copies of [c] read
    and not yet written. *)
Fixpoint scan_runs (c : char) (min : nat) (rep : jsstring) (k : nat)
  (s : jsstring) : jsstring :=
  match s with
  | [] => flush_run c min rep k
  | x :: r =>
      if (x =? c)%N then scan_runs c min rep (S k) r
      else flush_run c min rep k ++ x :: scan_runs c min rep 0 r
  end.

(** [s.replace(/c{min,}/g, rep)], for [min >= 1]. *)
Definition replace_runs (c : char) (min : nat) (rep : jsstring)
  (s : jsstring) : jsstring :=
  scan_runs c min rep 0 s.

(** The number of copies of [c] that [s] starts with. *)
Fixpoint run_length (c : char) (s : jsstring) : nat :=
  match s with
  | [] => 0
  | x :: r => if (x =? c)%N then S (run_length c r) else 0
  end.

(** [s] has no [n] consecutive copies of [c]; with [n = 1], no [c]. *)
Fixpoint no_run (c : char) (n : nat) (s : jsstring) : bool :=
  match s with
  | [] => true
  | _ :: r => (run_length c s <? n) && no_run c n r
  end.

(** [s] neither starts nor ends with white space. *)
Definition trimmed (s : jsstring) : bool :=
  match s with
  | [] => true
  | x :: _ => negb (is_white x) && negb (is_white (last s x))
  end.

End Js.
Import Js.

(** ** JavaScript dates

    [new Date(value)] on a date-only ISO string and the date part of
    [toISOString()], after the Day Number and Time Value clauses of
    ECMAScript.  A time value is a number of milliseconds since the epoch in
    UTC; [None] stands for NaN, the time value of an invalid date. *)

Module JsDate.

Local Open Scope Z_scope.

Definition msPerDay : Z := 86400000.

Definition DaysInYear (y : Z) : Z :=
  if negb (y mod 4 =? 0) then 365
  else if negb (y mod 100 =? 0) then 366
  else if negb (y mod 400 =? 0) then 365
  else 366.

Definition DayFromYear (y : Z) : Z :=
  365 * (y - 1970) + (y - 1969) / 4 - (y - 1901) / 100 + (y - 1601) / 400.

Definition InLeapYear (y : Z) : Z :=
  if DaysInYear y =? 366 then 1 else 0.

(** The year of day number [n]: the largest [y] with
    [DayFromYear y <= n], from an estimate that is off by one at most. *)
Definition YearFromDay (n : Z) : Z :=
  let y := 1970 + 400 * n / 146097 in
  if n <? DayFromYear y then y - 1
  else if DayFromYear (y + 1) <=? n then y + 1
  else y.

(** The day within the year on which month [m] (0 to 11) starts. *)
Definition MonthStart (leap m : Z) : Z :=
  if m =? 0 then 0
  else if m =? 1 then 31
  else if m =? 2 then 59 + leap
  else if m =? 3 then 90 + leap
  else if m =? 4 then 120 + leap
  else if m =? 5 then 151 + leap
  else if m =? 6 then 181 + leap
  else if m =? 7 then 212 + leap
  else if m =? 8 then 243 + leap
  else if m =? 9 then 273 + leap
  else if m =? 10 then 304 + leap
  else 334 + leap.

Definition MonthFromDay (n : Z) : Z :=
  let y := YearFromDay n in
  let d := n - DayFromYear y in
  let leap := InLeapYear y in
  if d <? 31 then 0
  else if d <? 59 + leap then 1
  else if d <? 90 + leap then 2
  else if d <? 120 + leap then 3
  else if d <? 151 + leap then 4
  else if d <? 181 + leap then 5
  else if d <? 212 + leap then 6
  else if d <? 243 + leap then 7
  else if d <? 273 + leap then 8
  else if d <? 304 + leap then 9
  else if d <? 334 + leap then 10
  else 11.

Definition DateFromDay (n : Z) : Z :=
  let y := YearFromDay n in
  n - DayFromYear y - MonthStart (InLeapYear y) (MonthFromDay n) + 1.

(** MakeDay(year, month, date), month counted from 0: the day number of
    the first of the month, plus [date - 1]. *)
Definition MakeDay (year month date : Z) : Z :=
  let ym := year + month / 12 in
  let mn := month mod 12 in
  DayFromYear ym + MonthStart (InLeapYear ym) mn + date - 1.

Definition is_digit (c : char) : bool := ((48 <=? c) && (c <=? 57))%N.

Definition digit (c : char) : Z := Z.of_N c - 48.

Definition number (ds : jsstring) : Z :=
  fold_left (fun acc c => 10 * acc + digit c) ds 0.

(** [n] decimal digits of [v], zero padded. *)
Fixpoint pad (n : nat) (v : Z) : jsstring :=
  match n with
  | O => []
  | S k => pad k (v / 10) ++ [Z.to_N (48 + v mod 10)]
  end.

Definition HYPHEN : char := 45%N.
Definition PLUS : char := 43%N.

(** [/^\d{4}-\d{2}-\d{2}$/.test(value)] *)
Definition dateRegex (value : jsstring) : bool :=
  match value with
  | [y1; y2; y3; y4; h1; m1; m2; h2; d1; d2] =>
      is_digit y1 && is_digit y2 && is_digit y3 && is_digit y4
      && (h1 =? HYPHEN)%N && is_digit m1 && is_digit m2
      && (h2 =? HYPHEN)%N && is_digit d1 && is_digit d2
  | _ => false
  end.

(** The time value of [new Date(value)] for a string in the date-only
    form [YYYY-MM-DD], the only form that reaches the constructor in
    [validateDate].  As Node does, a month outside 1..12 or a day outside
    1..31 gives an invalid date, and a day past the end of its month runs
    over into the next month. *)
Definition Date_new (value : jsstring) : option Z :=
  match value with
  | [y1; y2; y3; y4; _; m1; m2; _; d1; d2] =>
      let year := number [y1; y2; y3; y4] in
      let month := number [m1; m2] in
      let day := number [d1; d2] in
      if (1 <=? month) && (month <=? 12) && (1 <=? day) && (day <=? 31)
      then Some (MakeDay year (month - 1) day * msPerDay)
      else None
  | _ => None
  end.

(** [date.toISOString().split('T')[0]] for a valid date with time value
    [t]: four digits of year between 0 and 9999, a sign and six digits
    otherwise. *)
Definition toISOString_date (t : Z) : jsstring :=
  let n := t / msPerDay in
  let y := YearFromDay n in
  let year :=
    if (0 <=? y) && (y <=? 9999) then pad 4 y
    else if y <? 0 then HYPHEN :: pad 6 (- y)
    else PLUS :: pad 6 y in
  year ++ [HYPHEN] ++ pad 2 (MonthFromDay n + 1)
       ++ [HYPHEN] ++ pad 2 (DateFromDay n).

(** The Gregorian calendar, to say which strings name a day. *)
Definition leap_year (y : Z) : bool :=
  (y mod 4 =? 0) && (negb (y mod 100 =? 0) || (y mod 400 =? 0)).

Definition days_in_month (y m : Z) : Z :=
  if m =? 2 then (if leap_year y then 29 else 28)
  else if (m =? 4) || (m =? 6) || (m =? 9) || (m =? 11) then 30
  else 31.

(** [value] is [YYYY-MM-DD] and that day exists. *)
Definition calendar_date (value : jsstring) : bool :=
  dateRegex value &&
  match value with
  | [y1; y2; y3; y4; _; m1; m2; _; d1; d2] =>
      let year := number [y1; y2; y3; y4] in
      let month := number [m1; m2] in
      let day := number [d1; d2] in
      (1 <=? month) && (month <=? 12) && (1 <=? day)
      && (day <=? days_in_month year month)
  | _ => false
  end.

End JsDate.
Import JsDate.

(** ** Values, errors and the outside world *)

(** The five processor families of [FileProcessor]. *)
Inductive family := excel | word | pdf | text | image.

(** What [obj[key]] yields on a plain object whose own values are strings:
    [undefined], an own string, or a member inherited from
    [Object.prototype] (a function, or the prototype itself for
    [__proto__]). *)
Inductive propval :=
| PUndefined
| PString (s : jsstring)
| PInherited (name : jsstring).

(** Values that [JSON.parse] returns.  An object is the list of its own
    properties.  The payload of a number is never inspected. *)
Inductive json :=
| JNull
| JBool (b : bool)
| JNumber (n : Z)
| JString (s : jsstring)
| JArray (items : list json)
| JObject (props : list (jsstring * json)).

(** The errors thrown, one constructor per [throw] site; the arguments are
    what the message template interpolates. *)
Inductive error :=
| Thrown (message : jsstring)
    (* an error raised by a library or by a port, with its message *)
| SyntaxError
    (* JSON.parse *)
| UnsupportedFileType (mimeType : jsstring)
    (* `Unsupported file type: ${mimeType}` *)
| NoProcessorFound (processorType : propval)
    (* `No processor found for type: ${processorType}` *)
| ProcessingFailed (f : family) (cause : error)
    (* `Excel processing failed: ${error.message}` and its four siblings *)
| NoContentReceived
    (* 'No content received from OpenAI' *)
| ResponseNotArray
    (* 'Response is not an array' *)
| ItemNotObject (index : nat)
    (* `Item ${index} is not an object` *)
| MustBeNonEmptyString (fieldName : jsstring)
    (* `${fieldName} must be a non-empty string` *)
| InvalidJSONResponse (cause : error)
    (* `Invalid JSON response from OpenAI: ${error.message}` *)
| RequestFailedAfter (attempts : nat) (cause : error).
    (* `OpenAI request failed after ${this.maxRetries} attempts: ${error.message}` *)

Definition result (A : Type) : Type := (error + A)%type.

(** A cell of a sheet row as [Array.prototype.join] sees it: a hole
    ([undefined] or [null]) or the text of the value. *)
Definition cell := option jsstring.
Definition row := list cell.
Definition sheet := (jsstring * list row)%type.
Definition workbook := list sheet.

(** The item that [parseAndValidateResponse] builds. *)
Record schedule_item := {
  assignment : jsstring;
  due_date : option jsstring;
  location : option jsstring;
  source : jsstring
}.

(** The status column of [uploaded_files]. *)
Inductive status := pending | processing | text_extracted | completed | failed.

(** The statements that the upload route sends to the database, for the
    row of one file. *)
Inductive sql :=
| InsertFile (st : status)
| UpdateExtractedText (extractedText : jsstring) (st : status)
| InsertAssignment (item : schedule_item)
| UpdateStatus (st : status)
| UpdateStatusError (st : status) (message : error).

(** What is observable of a run. *)
Inductive event :=
| EStrategy (f : family)            (* an extraction strategy is entered *)
| ERequest (attempt : nat)          (* chat.completions.create is called *)
| ESleep (ms : nat)                 (* setTimeout(resolve, ms) is awaited *)
| EQuery (q : sql) (ok : bool).     (* query(...) returned or threw *)

(** Everything the code calls and this repository does not define: the
    document libraries, the remote model, [JSON.parse] and the database.
    The remote answer may change from one attempt to the next and a query
    may throw, so both are indexed: by the attempt and by the number of
    queries the run has sent before. *)
Record world := {
  xlsx_readFile : jsstring -> result workbook;
  mammoth_extractRawText : jsstring -> result jsstring;
  pdfParse : jsstring -> result jsstring;
  fs_readFile : jsstring -> result jsstring;
  Tesseract_recognize : jsstring -> result jsstring;
  completions_create : nat -> jsstring -> result (option jsstring);
  JSON_parse : jsstring -> option json;
  query_throws : nat -> option jsstring
}.

(** ** The database rows of one file *)

Record file_row := {
  processing_status : status;
  processing_error : option error;
  extracted_text : option jsstring
}.

Record db := {
  uploaded_file : option file_row;
  assignments : list schedule_item
}.

Definition update_file (f : file_row -> file_row) (d : db) : db :=
  {| uploaded_file := option_map f (uploaded_file d);
     assignments := assignments d |}.

Definition exec (q : sql) (d : db) : db :=
  match q with
  | InsertFile st =>
      {| uploaded_file :=
           Some {| processing_status := st; processing_error := None;
                   extracted_text := None |};
         assignments := assignments d |}
  | UpdateExtractedText t st =>
      update_file (fun r => {| processing_status := st;
                               processing_error := processing_error r;
                               extracted_text := Some t |}) d
  | InsertAssignment item =>
      {| uploaded_file := uploaded_file d;
         assignments := assignments d ++ [item] |}
  | UpdateStatus st =>
      update_file (fun r => {| processing_status := st;
                               processing_error := processing_error r;
                               extracted_text := extracted_text r |}) d
  | UpdateStatusError st e =>
      update_file (fun r => {| processing_status := st;
                               processing_error := Some e;
                               extracted_text := extracted_text r |}) d
  end.

(** ** Asynchronous code as a state and exception monad

    An [async] function either returns or throws, and in between it
    changes the database and is observed.  [await] is [bind]. *)

Record state := {
  store : db;
  sent : nat;             (* queries sent so far *)
  trace : list event
}.

Definition M (A : Type) : Type := state -> state * result A.

Definition ret {A} (a : A) : M A := fun s => (s, inr a).
Definition throw {A} (e : error) : M A := fun s => (s, inl e).
Definition bind {A B} (m : M A) (k : A -> M B) : M B :=
  fun s => match m s with
           | (s', inr a) => k a s'
           | (s', inl e) => (s', inl e)
           end.
Definition try_catch {A} (m : M A) (handler : error -> M A) : M A :=
  fun s => match m s with
           | (s', inr a) => (s', inr a)
           | (s', inl e) => handler e s'
           end.
Definition lift {A} (r : result A) : M A := fun s => (s, r).
Definition emit (e : event) : M unit :=
  fun s => ({| store := store s; sent := sent s; trace := trace s ++ [e] |},
            inr tt).

Declare Scope async_scope.
Delimit Scope async_scope with async.
Notation "x <- m ;; k" := (bind m (fun x => k))
  (at level 61, m at next level, right associativity) : async_scope.
Notation "m ;;; k" := (bind m (fun _ => k))
  (at level 61, right associativity) : async_scope.
Open Scope async_scope.

(** [for (const x of xs) { await f(x) }] *)
Fixpoint for_of {A} (xs : list A) (f : A -> M unit) : M unit :=
  match xs with
  | [] => ret tt
  | x :: r => f x ;;; for_of r f
  end.

(** [xs.map((x, index) => f(x, index))] with a callback that may throw. *)
Fixpoint map_indexed {A B} (f : A -> nat -> result B) (index : nat)
  (xs : list A) : result (list B) :=
  match xs with
  | [] => inr []
  | x :: r =>
      match f x index with
      | inl e => inl e
      | inr y =>
          match map_indexed f (S index) r with
          | inl e => inl e
          | inr ys => inr (y :: ys)
          end
      end
  end.

Section Code.

Variable w : world.

(** [await query(text, params)]: the statement takes effect, or it throws
    and leaves the rows as they were. *)
Definition query (q : sql) : M unit :=
  fun s =>
    match query_throws w (sent s) with
    | Some message =>
        ({| store := store s; sent := S (sent s);
            trace := trace s ++ [EQuery q false] |}, inl (Thrown message))
    | None =>
        ({| store := exec q (store s); sent := S (sent s);
            trace := trace s ++ [EQuery q true] |}, inr tt)
    end.

(** ** services/fileProcessor.js *)

(** [this.supportedTypes], in the order of the object literal. *)
Definition supportedTypes : list (jsstring * jsstring) :=
  [ (js "application/vnd.openxmlformats-officedocument.spreadsheetml.sheet",
     js "excel");
    (js "application/vnd.ms-excel", js "excel");
    (js "application/vnd.openxmlformats-officedocument.wordprocessingml.document",
     js "word");
    (js "application/msword", js "word");
    (js "application/pdf", js "pdf");
    (js "text/plain", js "text");
    (js "text/markdown", js "text");
    (js "image/jpeg", js "image");
    (js "image/png", js "image");
    (js "image/gif", js "image") ].

(** The property names of [Object.prototype], which every object literal
    inherits. *)
Definition Object_prototype_names : list jsstring :=
  [ js "constructor"; js "__defineGetter__"; js "__defineSetter__";
    js "hasOwnProperty"; js "__lookupGetter__"; js "__lookupSetter__";
    js "isPrototypeOf"; js "propertyIsEnumerable"; js "toString";
    js "valueOf"; js "__proto__"; js "toLocaleString" ].

Fixpoint own_property (props : list (jsstring * jsstring)) (key : jsstring)
  : option jsstring :=
  match props with
  | [] => None
  | (k, v) :: r => if string_eqb k key then Some v else own_property r key
  end.

(** [obj[key]]: the own property, or else what the prototype has. *)
Definition get_property (props : list (jsstring * jsstring)) (key : jsstring)
  : propval :=
  match own_property props key with
  | Some v => PString v
  | None =>
      if existsb (string_eqb key) Object_prototype_names
      then PInherited key else PUndefined
  end.

(** [obj.hasOwnProperty(key)] *)
Definition hasOwnProperty (props : list (jsstring * jsstring))
  (key : jsstring) : bool :=
  match own_property props key with Some _ => true | None => false end.

(** ToBoolean: a string is truthy unless empty, functions and objects
    are truthy. *)
Definition truthy (v : propval) : bool :=
  match v with
  | PUndefined => false
  | PString s => negb (string_eqb s [])
  | PInherited _ => true
  end.

(** [row.join('\t')] *)
Fixpoint join (sep : jsstring) (r : row) : jsstring :=
  match r with
  | [] => []
  | [c] => match c with Some t => t | None => [] end
  | c :: rest =>
      match c with Some t => t | None => [] end ++ sep ++ join sep rest
  end.

(** [cleanText(text)], on a string.  [!text] holds of the empty string. *)
Definition cleanText (text : jsstring) : jsstring :=
  match text with
  | [] => []
  | _ =>
      trim
        (replace_runs SP 2 [SP]
           (replace_runs TAB 1 [SP]
              (replace_runs LF 3 [LF; LF]
                 (replace_char CR LF
                    (replace_crlf text)))))
  end.

(** The form of a cleaned text: no carriage return, no three line feeds
    in a row, no tab, no two spaces in a row, no white space at either
    end. *)
Definition clean (s : jsstring) : bool :=
  no_run CR 1 s && no_run LF 3 s && no_run TAB 1 s && no_run SP 2 s
  && trimmed s.

(** The form that the specification words for the normalizer: as
    [clean], except that blank lines count from three on, which is four
    line feeds in a row, and fewer are to stay. *)
Definition clean_as_specified (s : jsstring) : bool :=
  no_run CR 1 s && no_run LF 4 s && no_run TAB 1 s && no_run SP 2 s
  && trimmed s.

(** The text that the specification words for a workbook: for each sheet
    a line with its name, one line of tab-joined cells for each row that
    has cells, and a blank line. *)
Definition row_line (r : row) : jsstring :=
  match r with
  | [] => []
  | _ => join [TAB] r ++ [LF]
  end.

Definition sheet_text (sh : sheet) : jsstring :=
  js "Sheet: " ++ fst sh ++ [LF] ++ flat_map row_line (snd sh) ++ [LF].

Definition workbook_text (wb : workbook) : jsstring :=
  flat_map sheet_text wb.

(** The text that [processExcel] accumulates in [extractedText] before it
    cleans it: the two nested [forEach] loops. *)
Definition excel_rows (acc : jsstring) (rows : list row) : jsstring :=
  fold_left
    (fun extractedText r =>
       if 0 <? List.length r then extractedText ++ join [TAB] r ++ [LF]
       else extractedText)
    rows acc.

Definition excel_text (wb : workbook) : jsstring :=
  fold_left
    (fun extractedText (sh : sheet) =>
       let (sheetName, jsonData) := sh in
       excel_rows (extractedText ++ js "Sheet: " ++ sheetName ++ [LF])
                  jsonData ++ [LF])
    wb [].

(** A strategy: the library call, [cleanText] on what it yields, and the
    [catch] that wraps what it throws. *)
Definition wrap {A} (f : family) (r : result A) (k : A -> jsstring)
  : result jsstring :=
  match r with
  | inl e => inl (ProcessingFailed f e)
  | inr a => inr (k a)
  end.

Definition processExcel (filePath : jsstring) : M jsstring :=
  emit (EStrategy excel) ;;;
  lift (wrap excel (xlsx_readFile w filePath)
          (fun wb => cleanText (excel_text wb))).

Definition processWord (filePath : jsstring) : M jsstring :=
  emit (EStrategy word) ;;;
  lift (wrap word (mammoth_extractRawText w filePath) cleanText).

Definition processPDF (filePath : jsstring) : M jsstring :=
  emit (EStrategy pdf) ;;;
  lift (wrap pdf (pdfParse w filePath) cleanText).

Definition processText (filePath : jsstring) : M jsstring :=
  emit (EStrategy text) ;;;
  lift (wrap text (fs_readFile w filePath) cleanText).

Definition processImage (filePath : jsstring) : M jsstring :=
  emit (EStrategy image) ;;;
  lift (wrap image (Tesseract_recognize w filePath) cleanText).

(** [processFile(filePath, mimeType)].  The outer [catch] logs and throws
    the same error again. *)
Definition processFile (filePath mimeType : jsstring) : M jsstring :=
  let processorType := get_property supportedTypes mimeType in
  if negb (truthy processorType) then throw (UnsupportedFileType mimeType)
  else
    match processorType with
    | PString t =>
        if string_eqb t (js "excel") then processExcel filePath
        else if string_eqb t (js "word") then processWord filePath
        else if string_eqb t (js "pdf") then processPDF filePath
        else if string_eqb t (js "text") then processText filePath
        else if string_eqb t (js "image") then processImage filePath
        else throw (NoProcessorFound processorType)
    | _ => throw (NoProcessorFound processorType)
    end.

(** [isSupported(mimeType)] *)
Definition isSupported (mimeType : jsstring) : bool :=
  hasOwnProperty supportedTypes mimeType.

(** [getSupportedTypes()]: [Object.keys], in insertion order. *)
Definition getSupportedTypes : list jsstring := map fst supportedTypes.

(** ** services/openaiService.js *)

(** The fields that the constructor sets and the retry loop reads. *)
Record OpenAIService := {
  maxRetries : nat;
  retryDelay : nat        (* milliseconds *)
}.

(** [module.exports = new OpenAIService()] *)
Definition openaiService : OpenAIService :=
  {| maxRetries := 3; retryDelay := 1000 |}.

Definition QUOTE : char := 34%N.
Definition LBRACKET : char := 91%N.
Definition RBRACKET : char := 93%N.

(** The template literal of [extractScheduleData]. *)
Definition prompt_of (extractedText fileName : jsstring) : jsstring :=
  [LF]
  ++ js "You are an AI assistant that extracts academic schedule and assignment information from text content."
  ++ [LF; LF]
  ++ js "Please analyze the following text extracted from a file named "
  ++ [QUOTE] ++ fileName ++ [QUOTE]
  ++ js " and extract any assignments, due dates, class schedules, or academic events."
  ++ [LF; LF]
  ++ js "For each item found, return a JSON object with this exact structure:"
  ++ [LF] ++ js "{" ++ [LF]
  ++ js "  " ++ [QUOTE] ++ js "assignment" ++ [QUOTE] ++ js ": " ++ [QUOTE]
  ++ js "string - description of the assignment, class, or event"
  ++ [QUOTE] ++ js "," ++ [LF]
  ++ js "  " ++ [QUOTE] ++ js "due_date" ++ [QUOTE] ++ js ": " ++ [QUOTE]
  ++ js "YYYY-MM-DD format or null if no date found"
  ++ [QUOTE] ++ js "," ++ [LF]
  ++ js "  " ++ [QUOTE] ++ js "location" ++ [QUOTE] ++ js ": " ++ [QUOTE]
  ++ js "string or null if no location specified"
  ++ [QUOTE] ++ js "," ++ [LF]
  ++ js "  " ++ [QUOTE] ++ js "source" ++ [QUOTE] ++ js ": " ++ [QUOTE]
  ++ js "string - the filename where this was found"
  ++ [QUOTE] ++ [LF] ++ js "}" ++ [LF; LF]
  ++ js "Return an array of these objects. If no relevant academic information is found, return an empty array."
  ++ [LF; LF] ++ js "Rules:" ++ [LF]
  ++ js "- Only extract academic-related content (assignments, classes, exams, study sessions, etc.)"
  ++ [LF]
  ++ js "- Dates must be in YYYY-MM-DD format or null" ++ [LF]
  ++ js "- Be conservative - only extract clear, unambiguous information"
  ++ [LF]
  ++ js "- If you're unsure about a date, set it to null" ++ [LF]
  ++ js "- Include the source filename for each item" ++ [LF; LF]
  ++ js "Text content to analyze:" ++ [LF]
  ++ extractedText ++ [LF].

(** [item.name] on a parsed value: the own property of an object,
    [undefined] ([None]) when there is none; an array has no property of
    the four names that are read. *)
Fixpoint own_value (props : list (jsstring * json)) (name : jsstring)
  : option json :=
  match props with
  | [] => None
  | (k, v) :: r => if string_eqb k name then Some v else own_value r name
  end.

Definition property (item : json) (name : jsstring) : option json :=
  match item with
  | JObject props => own_value props name
  | _ => None
  end.

(** [validateString(value, fieldName)] *)
Definition validateString (value : option json) (fieldName : jsstring)
  : result jsstring :=
  match value with
  | Some (JString s) =>
      if List.length (trim s) =? 0 then inl (MustBeNonEmptyString fieldName)
      else inr (trim s)
  | _ => inl (MustBeNonEmptyString fieldName)
  end.

(** [validateOptionalString(value)] *)
Definition validateOptionalString (value : option json) : option jsstring :=
  match value with
  | Some (JString s) =>
      let trimmed := trim s in
      if 0 <? List.length trimmed then Some trimmed else None
  | _ => None
  end.

(** [validateDate(value)] *)
Definition validateDate (value : option json) : option jsstring :=
  match value with
  | Some (JString s) =>
      if negb (dateRegex s) then None
      else
        match Date_new s with
        | None => None
        | Some t =>
            if negb (string_eqb (toISOString_date t) s) then None
            else Some s
        end
  | _ => None
  end.

(** [typeof item !== 'object' || item === null] *)
Definition not_an_object (item : json) : bool :=
  match item with
  | JObject _ | JArray _ => false
  | _ => true
  end.

(** The callback of [parsed.map] in [parseAndValidateResponse]. *)
Definition validateItem (item : json) (index : nat) : result schedule_item :=
  if not_an_object item then inl (ItemNotObject index)
  else
    match validateString (property item (js "assignment")) (js "assignment")
    with
    | inl e => inl e
    | inr a =>
        let d := validateDate (property item (js "due_date")) in
        let l := validateOptionalString (property item (js "location")) in
        match validateString (property item (js "source")) (js "source") with
        | inl e => inl e
        | inr src =>
            inr {| assignment := a; due_date := d; location := l;
                   source := src |}
        end
    end.

(** The suffix of [s] that starts at the first [c], empty if there is
    none. *)
Fixpoint from_first (c : char) (s : jsstring) : jsstring :=
  match s with
  | [] => []
  | x :: r => if (x =? c)%N then s else from_first c r
  end.

(** [content.match(/\[[\s\S]*\]/)]: from the first opening bracket to the
    last closing bracket after it; [None] is [null]. *)
Definition match_array (content : jsstring) : option jsstring :=
  match rev (from_first RBRACKET (rev (from_first LBRACKET content))) with
  | [] => None
  | m => Some m
  end.

(** [jsonMatch ? jsonMatch[0] : content] *)
Definition jsonString (content : jsstring) : jsstring :=
  match match_array content with Some m => m | None => content end.

(** [parseAndValidateResponse(content)] *)
Definition parseAndValidateResponse (content : jsstring)
  : result (list schedule_item) :=
  let attempt :=
    match JSON_parse w (jsonString content) with
    | None => inl SyntaxError
    | Some parsed =>
        match parsed with
        | JArray items => map_indexed validateItem 0 items
        | _ => inl ResponseNotArray
        end
    end in
  match attempt with
  | inl e => inl (InvalidJSONResponse e)
  | inr items => inr items
  end.

Section Service.

Variable this : OpenAIService.

(** The [try] block of [makeRequestWithRetry]. *)
Definition request (prompt : jsstring) (attempt : nat)
  : M (list schedule_item) :=
  emit (ERequest attempt) ;;;
  content <- lift (completions_create w attempt prompt) ;;
  match content with
  | None | Some [] => throw NoContentReceived
  | Some c => lift (parseAndValidateResponse c)
  end.

(** [makeRequestWithRetry(prompt, attempt)] *)
Equations? makeRequestWithRetry (prompt : jsstring) (attempt : nat)
  : M (list schedule_item) by wf (maxRetries this - attempt) lt :=
  makeRequestWithRetry prompt attempt :=
    try_catch (request prompt attempt)
      (fun error =>
         match lt_dec attempt (maxRetries this) with
         | left _ =>
             let delay := retryDelay this * attempt in
             emit (ESleep delay) ;;;
             makeRequestWithRetry prompt (attempt + 1)
         | right _ => throw (RequestFailedAfter (maxRetries this) error)
         end).
Proof. lia. Qed.

(** [extractScheduleData(extractedText, fileName)]; its [catch] logs and
    throws the same error again. *)
Definition extractScheduleData (extractedText fileName : jsstring)
  : M (list schedule_item) :=
  makeRequestWithRetry (prompt_of extractedText fileName) 1.

End Service.

(** ** routes/upload *)

(** [processFileAsync(fileId, filePath, mimeType, originalName, userId)].
    The rows are those of this file, so the two identifiers are left
    out. *)
Definition processFileAsync (filePath mimeType originalName : jsstring)
  : M unit :=
  try_catch
    (extractedText <- processFile filePath mimeType ;;
     query (UpdateExtractedText extractedText text_extracted) ;;;
     scheduleData <- extractScheduleData openaiService extractedText
                       originalName ;;
     for_of scheduleData (fun item => query (InsertAssignment item)) ;;;
     query (UpdateStatus completed))
    (fun error => query (UpdateStatusError failed error)).

(** One turn of the loop over [req.files] in the POST handler: the row is
    inserted with status 'processing' and the run is started.  When the
    insert throws no run starts; the handler's [catch] takes the error. *)
Definition upload (filePath mimeType originalName : jsstring) : M unit :=
  created <- try_catch (query (InsertFile processing) ;;; ret true)
                       (fun _ => ret false) ;;
  if created then processFileAsync filePath mimeType originalName
  else ret tt.

End Code.

(** The state in which nothing has been stored, sent or observed. *)
Definition empty_db : db := {| uploaded_file := None; assignments := [] |}.

Definition start : state := {| store := empty_db; sent := 0; trace := [] |}.

(** ** What the specification asks of the normalizer *)

(** Line endings unified: a carriage return that a line feed follows
    goes and the line feed stays, any other carriage return becomes a
    line feed. *)
Fixpoint unify_line_endings (s : jsstring) : jsstring :=
  match s with
  | [] => []
  | c :: r =>
      if (c =? CR)%N then
        match r with
        | d :: _ =>
            if (d =? LF)%N then unify_line_endings r
            else LF :: unify_line_endings r
        | [] => [LF]
        end
      else c :: unify_line_endings r
  end.

(** Horizontal white space: the tab and the space. *)
Definition horizontal (c : char) : bool := ((c =? TAB) || (c =? SP))%N.

(** A text is a sequence of runs: line feeds in a row, tabs and spaces
    in a row, and the other characters one by one. *)
Inductive run :=
| LineFeeds (n : nat)
| Blanks (h : jsstring)
| Char (c : char).

(** A character put before the runs of the rest of the text: it joins
    the first run when it is of its kind. *)
Definition add_char (c : char) (rs : list run) : list run :=
  if (c =? LF)%N then
    match rs with
    | LineFeeds n :: rest => LineFeeds (S n) :: rest
    | _ => LineFeeds 1 :: rs
    end
  else if horizontal c then
    match rs with
    | Blanks h :: rest => Blanks (c :: h) :: rest
    | _ => Blanks [c] :: rs
    end
  else Char c :: rs.

Definition runs (s : jsstring) : list run := fold_right add_char [] s.

(** A run as it stands in the text. *)
Definition as_written (r : run) : jsstring :=
  match r with
  | LineFeeds n => repeat LF n
  | Blanks h => h
  | Char c => [c]
  end.

(** The runs are runs, and they are whole: a run is not empty, has
    characters of its kind only, and is not followed by a run of the same
    kind. *)
Definition well_formed (r : run) : bool :=
  match r with
  | LineFeeds n => 1 <=? n
  | Blanks h =>
      match h with [] => false | _ => forallb horizontal h end
  | Char c => negb (c =? LF)%N && negb (horizontal c)
  end.

Definition apart (r : run) (rest : list run) : bool :=
  match r, rest with
  | LineFeeds _, LineFeeds _ :: _ => false
  | Blanks _, Blanks _ :: _ => false
  | _, _ => true
  end.

Fixpoint maximal (rs : list run) : bool :=
  match rs with
  | [] => true
  | r :: rest => well_formed r && apart r rest && maximal rest
  end.

(** What a run becomes: three line feeds or more become two, one or two
    stay; tabs and spaces in a row become one space; any other character
    stays. *)
Definition collapsed (r : run) : jsstring :=
  match r with
  | LineFeeds n => if 3 <=? n then [LF; LF] else repeat LF n
  | Blanks _ => [SP]
  | Char c => [c]
  end.

(** A run after the line feeds are collapsed, and after the tabs are
    replaced: the two stages between a run as written and the run
    collapsed. *)
Definition with_lines (r : run) : jsstring :=
  match r with
  | LineFeeds _ => collapsed r
  | _ => as_written r
  end.

Definition with_tabs (r : run) : jsstring :=
  match r with
  | Blanks h => replace_runs TAB 1 [SP] h
  | _ => with_lines r
  end.

(** The normalizer, said by runs: the line endings are unified, every
    run is collapsed, and the white space at both ends goes. *)
Definition normalize (t : jsstring) : jsstring :=
  trim (flat_map collapsed (runs (unify_line_endings t))).

(** ** What the specification asks of the router *)

(** The name that the table of supported types has for a family. *)
Definition family_name (f : family) : jsstring :=
  match f with
  | excel => js "excel"
  | word => js "word"
  | pdf => js "pdf"
  | text => js "text"
  | image => js "image"
  end.

(** The errors with which [processFile] itself turns a content type
    away: the one of its guard, and the one of the [default] arm of its
    switch, which is what a type gets that names a member of
    [Object.prototype].  The two differ in the text of the message. *)
Definition refused (mimeType : jsstring) (e : error) : Prop :=
  e = UnsupportedFileType mimeType
  \/ e = NoProcessorFound (PInherited mimeType).

(** ** What the specification asks of a response *)

Definition is_object (item : json) : bool :=
  match item with JObject _ => true | _ => false end.

(** The field is a string that is not empty after trimming. *)
Definition nonempty_string (value : option json) : bool :=
  match value with
  | Some (JString s) => negb (string_eqb (trim s) [])
  | _ => false
  end.

(** An element that does not fail the response: an object whose
    description and source are non-empty strings. *)
Definition valid_element (item : json) : bool :=
  is_object item
  && nonempty_string (property item (js "assignment"))
  && nonempty_string (property item (js "source")).

Definition string_of (value : option json) : jsstring :=
  match value with Some (JString s) => s | _ => [] end.

(** The item returned for a valid element. *)
Definition item_of (item : json) : schedule_item :=
  {| assignment := trim (string_of (property item (js "assignment")));
     due_date := validateDate (property item (js "due_date"));
     location := validateOptionalString (property item (js "location"));
     source := trim (string_of (property item (js "source"))) |}.

(** The date of a returned item: [null], or a string of the form
    [YYYY-MM-DD] that comes back the same from [new Date] and
    [toISOString]. *)
Definition date_round_trips (d : option jsstring) : Prop :=
  d = None
  \/ exists s t, d = Some s /\ dateRegex s = true
                 /\ Date_new s = Some t /\ toISOString_date t = s.

(** The outcome of the [try] block of attempt [attempt]. *)
Definition outcome (w : world) (prompt : jsstring) (attempt : nat)
  : result (list schedule_item) :=
  snd (request w prompt attempt start).

(** What [n] attempts from [attempt] on leave in the trace, with the
    waits between them. *)
Fixpoint retry_trace (delay attempt n : nat) : list event :=
  match n with
  | 0 => []
  | S m =>
      ERequest attempt ::
      match m with
      | 0 => []
      | S _ => ESleep (delay * attempt) :: retry_trace delay (S attempt) m
      end
  end.

(** The number of remote calls in a trace. *)
Fixpoint requests (tr : list event) : nat :=
  match tr with
  | [] => 0
  | ERequest _ :: r => S (requests r)
  | _ :: r => requests r
  end.

(** ** Sample inputs *)

(** An element of a response, with a given [due_date]. *)
Definition sample_item (date : json) : json :=
  JObject [ (js "assignment", JString (js "X"));
            (js "due_date", date);
            (js "location", JNull);
            (js "source", JString (js "f")) ].

(** A world in which every library reads its file, the model answers with
    one item whose date is the 30th of February, and no query throws. *)
Definition sample_world : world := {|
  xlsx_readFile :=
    fun _ => inr [(js "S", [[Some (js "a"); Some (js "b")]])];
  mammoth_extractRawText := fun _ => inr (js "Essay due Friday");
  pdfParse := fun _ => inr [];
  fs_readFile := fun _ => inr (js "Math HW due 2024-03-05 in Room 12");
  Tesseract_recognize := fun _ => inr [];
  completions_create := fun _ _ => inr (Some (js "[ ... ]"));
  JSON_parse :=
    fun _ => Some (JArray [sample_item (JString (js "2024-02-30"))]);
  query_throws := fun _ => None
|}.

(** The same world with another database, another model or another
    parse. *)
Definition with_query_throws (f : nat -> option jsstring) (w : world)
  : world := {|
  xlsx_readFile := xlsx_readFile w;
  mammoth_extractRawText := mammoth_extractRawText w;
  pdfParse := pdfParse w;
  fs_readFile := fs_readFile w;
  Tesseract_recognize := Tesseract_recognize w;
  completions_create := completions_create w;
  JSON_parse := JSON_parse w;
  query_throws := f
|}.

Definition with_completions
  (f : nat -> jsstring -> result (option jsstring)) (w : world) : world := {|
  xlsx_readFile := xlsx_readFile w;
  mammoth_extractRawText := mammoth_extractRawText w;
  pdfParse := pdfParse w;
  fs_readFile := fs_readFile w;
  Tesseract_recognize := Tesseract_recognize w;
  completions_create := f;
  JSON_parse := JSON_parse w;
  query_throws := query_throws w
|}.

Definition with_JSON_parse (f : jsstring -> option json) (w : world)
  : world := {|
  xlsx_readFile := xlsx_readFile w;
  mammoth_extractRawText := mammoth_extractRawText w;
  pdfParse := pdfParse w;
  fs_readFile := fs_readFile w;
  Tesseract_recognize := Tesseract_recognize w;
  completions_create := completions_create w;
  JSON_parse := f;
  query_throws := query_throws w
|}.

(** The sample world with a database whose second query throws. *)
Definition failing_database : world :=
  with_query_throws
    (fun k => if k =? 1 then Some (js "connection terminated") else None)
    sample_world.

(** ** Reading a run *)

(** The status that an event leaves in the row, if it writes one. *)
Definition status_written (e : event) : option status :=
  match e with
  | EQuery (InsertFile st) true => Some st
  | EQuery (UpdateExtractedText _ st) true => Some st
  | EQuery (UpdateStatus st) true => Some st
  | EQuery (UpdateStatusError st _) true => Some st
  | _ => None
  end.

(** The statuses that the row goes through, in order. *)
Fixpoint status_history (tr : list event) : list status :=
  match tr with
  | [] => []
  | e :: r =>
      match status_written e with
      | Some st => st :: status_history r
      | None => status_history r
      end
  end.

(** [s] with more events observed. *)
Definition observe (s : state) (evs : list event) : state :=
  {| store := store s; sent := sent s; trace := trace s ++ evs |}.

Fixpoint last_status (h : list status) : option status :=
  match h with
  | [] => None
  | [st] => Some st
  | _ :: r => last_status r
  end.

(** The pairs of a status and the status that follows it. *)
Fixpoint transitions (h : list status) : list (status * status) :=
  match h with
  | a :: (b :: _) as r => (a, b) :: transitions r
  | _ => []
  end.

(** The first query that threw, and what the run did after it. *)
Fixpoint after_failure (tr : list event) : option (sql * list event) :=
  match tr with
  | [] => None
  | EQuery q false :: r => Some (q, r)
  | _ :: r => after_failure r
  end.

(** The events before the first query that threw. *)
Fixpoint before_failure (tr : list event) : list event :=
  match tr with
  | [] => []
  | EQuery q false :: r => []
  | e :: r => e :: before_failure r
  end.

Definition is_query (e : event) : bool :=
  match e with EQuery _ _ => true | _ => false end.

(** Events of a stage that sends no query. *)
Definition quiet (evs : list event) : bool :=
  forallb (fun e => negb (is_query e)) evs.

Definition is_insert (e : event) : bool :=
  match e with EQuery (InsertAssignment _) true => true | _ => false end.

(** The traces of the [try] block of [processFileAsync], with whether it
    ran to its end: the strategy threw; the update of the text threw; the
    extractor threw; an insert threw; the last update threw; or none
    did. *)
Inductive try_trace : list event -> bool -> Prop :=
| TryStrategy A :
    quiet A = true -> try_trace A false
| TryText A t :
    quiet A = true ->
    try_trace (A ++ [EQuery (UpdateExtractedText t text_extracted) false])
      false
| TryExtract A t C :
    quiet A = true -> quiet C = true ->
    try_trace (A ++ EQuery (UpdateExtractedText t text_extracted) true :: C)
      false
| TryInsert A t C I item :
    quiet A = true -> quiet C = true -> forallb is_insert I = true ->
    try_trace (A ++ EQuery (UpdateExtractedText t text_extracted) true
                 :: C ++ I ++ [EQuery (InsertAssignment item) false])
      false
| TryCompleted A t C I ok :
    quiet A = true -> quiet C = true -> forallb is_insert I = true ->
    try_trace (A ++ EQuery (UpdateExtractedText t text_extracted) true
                 :: C ++ I ++ [EQuery (UpdateStatus completed) ok])
      ok.

(** The traces of one upload: the insert threw; the [try] block ran to
    its end; or it threw and the [catch] block sent its update. *)
Inductive run_trace : list event -> Prop :=
| RunNoRow :
    run_trace [EQuery (InsertFile processing) false]
| RunDone main :
    try_trace main true ->
    run_trace (EQuery (InsertFile processing) true :: main)
| RunFailed main e ok :
    try_trace main false ->
    run_trace (EQuery (InsertFile processing) true
                 :: main ++ [EQuery (UpdateStatusError failed e) ok]).

(** The order of the states of a file; [failed] stands outside it. *)
Definition rank (st : status) : nat :=
  match st with
  | pending => 0
  | processing => 1
  | text_extracted => 2
  | completed => 3
  | failed => 4
  end.

Definition terminal (st : status) : bool :=
  match st with completed | failed => true | _ => false end.

(** ** Further readings of the code *)

(** The characters of a text that are not white space, in order. *)
Definition visible (s : jsstring) : jsstring :=
  filter (fun c => negb (is_white c)) s.

(** The milliseconds that a trace waits. *)
Fixpoint waited (tr : list event) : nat :=
  match tr with
  | [] => 0
  | ESleep ms :: r => ms + waited r
  | _ :: r => waited r
  end.

(** The number of times a trace enters a strategy. *)
Fixpoint strategies (tr : list event) : nat :=
  match tr with
  | [] => 0
  | EStrategy _ :: r => S (strategies r)
  | _ :: r => strategies r
  end.

(** The row as the insert of the upload route leaves it, and as the
    update of [processFileAsync] that stores the text leaves it. *)
Definition row_inserted : file_row :=
  {| processing_status := processing; processing_error := None;
     extracted_text := None |}.

Definition row_with_text (t : jsstring) : file_row :=
  {| processing_status := text_extracted; processing_error := None;
     extracted_text := Some t |}.

(** The row after the update of the [catch] block, when it returned. *)
Definition mark_failed (written : bool) (e : error) (r : file_row)
  : file_row :=
  if written
  then {| processing_status := failed; processing_error := Some e;
          extracted_text := extracted_text r |}
  else r.

Definition insert_event (item : schedule_item) : event :=
  EQuery (InsertAssignment item) true.

(** The ends of an upload, by the stage that threw.  [A] and [text] are
    what the strategy leaves in the trace and returns; [C t] and
    [answer t] are what the extractor leaves and returns for the text
    [t]. *)
Inductive upload_end (A : list event) (text : result jsstring)
  (C : jsstring -> list event)
  (answer : jsstring -> result (list schedule_item))
  : db -> list event -> Prop :=
| EndNoRow d tr :
    d = empty_db ->
    tr = [EQuery (InsertFile processing) false] ->
    upload_end A text C answer d tr
| EndStrategy e written d tr :
    text = inl e ->
    d = {| uploaded_file := Some (mark_failed written e row_inserted);
           assignments := [] |} ->
    tr = EQuery (InsertFile processing) true
           :: A ++ [EQuery (UpdateStatusError failed e) written] ->
    upload_end A text C answer d tr
| EndText t message written d tr :
    text = inr t ->
    d = {| uploaded_file :=
             Some (mark_failed written (Thrown message) row_inserted);
           assignments := [] |} ->
    tr = EQuery (InsertFile processing) true
           :: A ++ [EQuery (UpdateExtractedText t text_extracted) false;
                    EQuery (UpdateStatusError failed (Thrown message))
                      written] ->
    upload_end A text C answer d tr
| EndExtract t e written d tr :
    text = inr t -> answer t = inl e ->
    d = {| uploaded_file := Some (mark_failed written e (row_with_text t));
           assignments := [] |} ->
    tr = EQuery (InsertFile processing) true
           :: A ++ EQuery (UpdateExtractedText t text_extracted) true
           :: C t ++ [EQuery (UpdateStatusError failed e) written] ->
    upload_end A text C answer d tr
| EndInsert t items k item message written d tr :
    text = inr t -> answer t = inr items ->
    nth_error items k = Some item ->
    d = {| uploaded_file :=
             Some (mark_failed written (Thrown message) (row_with_text t));
           assignments := firstn k items |} ->
    tr = EQuery (InsertFile processing) true
           :: A ++ EQuery (UpdateExtractedText t text_extracted) true
           :: C t ++ map insert_event (firstn k items)
           ++ [EQuery (InsertAssignment item) false;
               EQuery (UpdateStatusError failed (Thrown message)) written] ->
    upload_end A text C answer d tr
| EndCompleted t items message written d tr :
    text = inr t -> answer t = inr items ->
    d = {| uploaded_file :=
             Some (mark_failed written (Thrown message) (row_with_text t));
           assignments := items |} ->
    tr = EQuery (InsertFile processing) true
           :: A ++ EQuery (UpdateExtractedText t text_extracted) true
           :: C t ++ map insert_event items
           ++ [EQuery (UpdateStatus completed) false;
               EQuery (UpdateStatusError failed (Thrown message)) written] ->
    upload_end A text C answer d tr
| EndDone t items d tr :
    text = inr t -> answer t = inr items ->
    d = {| uploaded_file :=
             Some {| processing_status := completed;
                     processing_error := None;
                     extracted_text := Some t |};
           assignments := items |} ->
    tr = EQuery (InsertFile processing) true
           :: A ++ EQuery (UpdateExtractedText t text_extracted) true
           :: C t ++ map insert_event items
           ++ [EQuery (UpdateStatus completed) true] ->
    upload_end A text C answer d tr.

(** ** routes/upload: the filter of uploads *)

(** What [fileFilter] passes to its callback: acceptance, or the error
    with the type and the supported types that its message names. *)
Inductive filter_result :=
| Accept
| Reject (mimetype : jsstring) (supported : list jsstring).

(** [fileFilter(req, file, cb)], on [file.mimetype]. *)
Definition fileFilter (mimetype : jsstring) : filter_result :=
  let supported := getSupportedTypes in
  if existsb (fun k => string_eqb k mimetype) supported then Accept
  else Reject mimetype supported.

(** ** routes/calendar *)

(** A query text with its placeholders: the pieces of the template
    literal and the numbers it interpolates after a dollar sign. *)
Inductive sqltoken :=
| Sql (text : jsstring)
| Param (n : nat).

(** A parameter of [req.query]: absent, or a string; [if (startDate)]
    holds of a string that is not empty. *)
Definition given (v : option jsstring) : bool :=
  match v with
  | Some (_ :: _) => true
  | _ => false
  end.

Definition param_text (v : option jsstring) : jsstring :=
  match v with Some s => s | None => [] end.

Record built_query := {
  whereClause : list sqltoken;
  queryParams : list jsstring;
  paramCount : nat
}.

(** One of the two blocks [if (startDate) { ... }] of the calendar
    route. *)
Definition add_filter (comparison : jsstring) (v : option jsstring)
  (b : built_query) : built_query :=
  if given v then
    let paramCount' := S (paramCount b) in
    {| whereClause := whereClause b ++ [Sql comparison; Param paramCount'];
       queryParams := queryParams b ++ [param_text v];
       paramCount := paramCount' |}
  else b.

(** The filter that [GET /:userId] builds from the user and the two
    dates. *)
Definition calendar_filter (userId : jsstring)
  (startDate endDate : option jsstring) : built_query :=
  add_filter (js " AND a.due_date <= ") endDate
    (add_filter (js " AND a.due_date >= ") startDate
       {| whereClause := [Sql (js "WHERE a.user_id = "); Param 1];
          queryParams := [userId];
          paramCount := 1 |}).

(** The placeholders of a query text, in order. *)
Fixpoint placeholders (q : list sqltoken) : list nat :=
  match q with
  | [] => []
  | Param n :: r => n :: placeholders r
  | Sql _ :: r => placeholders r
  end.

(** The placeholder that follows a piece of text. *)
Fixpoint placeholder_after (text : jsstring) (q : list sqltoken)
  : option nat :=
  match q with
  | [] => None
  | Sql t :: r =>
      match r with
      | Param n :: _ =>
          if string_eqb t text then Some n else placeholder_after text r
      | _ => placeholder_after text r
      end
  | Param _ :: r => placeholder_after text r
  end.

(** The parameter that the database binds to the placeholder after a
    piece of text. *)
Definition bound_after (text : jsstring) (b : built_query)
  : option jsstring :=
  match placeholder_after text (whereClause b) with
  | Some n => nth_error (queryParams b) (n - 1)
  | None => None
  end.

(** A row of the calendar query, as [generateICalendar] reads it:
    [due_date] is the time value of the date, never null in this query. *)
Record calendar_event := {
  event_id : jsstring;
  event_title : jsstring;
  event_due_date : Z;
  event_location : option jsstring;
  event_source : jsstring;
  event_file_name : option jsstring
}.

Definition COLON : char := 58%N.
Definition DOT : char := 46%N.

(** [s.replace(/-/g, '')] and [s.replace(/[-:]/g, '')] *)
Definition remove_chars (cs : list char) (s : jsstring) : jsstring :=
  filter (fun c => negb (existsb (N.eqb c) cs)) s.

(** [s.split('.')[0]] *)
Fixpoint before_first (c : char) (s : jsstring) : jsstring :=
  match s with
  | [] => []
  | x :: r => if (x =? c)%N then [] else x :: before_first c r
  end.

(** The eleven lines that [events.forEach] pushes for an event. *)
Definition event_lines (timestamp : jsstring) (event : calendar_event)
  : list jsstring :=
  let dateStr :=
    remove_chars [HYPHEN] (toISOString_date (event_due_date event)) in
  [ js "BEGIN:VEVENT";
    js "UID:" ++ event_id event ++ js "@schedule-backend";
    js "DTSTART;VALUE=DATE:" ++ dateStr;
    js "DTEND;VALUE=DATE:" ++ dateStr;
    js "DTSTAMP:" ++ timestamp;
    js "SUMMARY:" ++ event_title event;
    (if given (event_location event)
     then js "LOCATION:" ++ param_text (event_location event) else []);
    js "DESCRIPTION:Source: " ++ event_source event
      ++ (if given (event_file_name event)
          then js " (" ++ param_text (event_file_name event) ++ js ")"
          else []);
    js "STATUS:CONFIRMED";
    js "TRANSP:TRANSPARENT";
    js "END:VEVENT" ].

(** The array [ical] after [filter(line => line !== '')].  [now] is
    [now.toISOString()] and [first_name] the text of
    [user.first_name]. *)
Definition calendar_lines (now first_name : jsstring)
  (events : list calendar_event) : list jsstring :=
  let timestamp :=
    before_first DOT (remove_chars [HYPHEN; COLON] now) ++ js "Z" in
  let ical :=
    [ js "BEGIN:VCALENDAR";
      js "VERSION:2.0";
      js "PRODID:-//Schedule Backend//Student Schedule//EN";
      js "CALSCALE:GREGORIAN";
      js "METHOD:PUBLISH";
      js "X-WR-CALNAME:" ++ first_name ++ js "'s Schedule";
      js "X-WR-TIMEZONE:UTC" ]
    ++ flat_map (event_lines timestamp) events
    ++ [js "END:VCALENDAR"] in
  filter (fun line => negb (string_eqb line [])) ical.

(** [lines.join(sep)] on an array of strings. *)
Fixpoint join_lines (sep : jsstring) (lines : list jsstring) : jsstring :=
  match lines with
  | [] => []
  | [l] => l
  | l :: r => l ++ sep ++ join_lines sep r
  end.

(** [generateICalendar(events, user)] *)
Definition generateICalendar (now first_name : jsstring)
  (events : list calendar_event) : jsstring :=
  join_lines [CR; LF] (calendar_lines now first_name events).

(** The number of lines equal to a given one. *)
Definition count_line (l : jsstring) (lines : list jsstring) : nat :=
  List.length (filter (string_eqb l) lines).

(** ** models/Assignment *)

Module Assignment.

Definition allowedFields : list jsstring :=
  [js "assignment"; js "due_date"; js "location"; js "source"].

(** [updates[key]] for an own key of [updates]: the object is the list
    of its own properties in the order of [Object.keys], and [None] is
    [undefined]. *)
Fixpoint get (updates : list (jsstring * option json)) (key : jsstring)
  : option json :=
  match updates with
  | [] => None
  | (k, v) :: r => if string_eqb k key then v else get r key
  end.

(** The three variables that the loop of [update] changes.  A field is
    the column and the number of its placeholder. *)
Record statement := {
  fields : list (jsstring * nat);
  values : list json;
  paramCount : nat
}.

(** The body of [Object.keys(updates).forEach(key => ...)]. *)
Definition each (updates : list (jsstring * option json))
  (st : statement) (key : jsstring) : statement :=
  if existsb (string_eqb key) allowedFields then
    match get updates key with
    | Some v =>
        let paramCount' := S (paramCount st) in
        {| fields := fields st ++ [(key, paramCount')];
           values := values st ++ [v];
           paramCount := paramCount' |}
    | None => st
    end
  else st.

(** The statement that [update] sends: the columns it sets, the
    placeholders of [id] and [user_id] in its [WHERE], and the
    parameters. *)
Record update_query := {
  set_fields : list (jsstring * nat);
  where_id : nat;
  where_user_id : nat;
  parameters : list json
}.

(** [Assignment.update(id, userId, updates)], up to the query. *)
Definition update (id userId : jsstring)
  (updates : list (jsstring * option json)) : result update_query :=
  let st :=
    fold_left (each updates) (map fst updates)
      {| fields := []; values := []; paramCount := 0 |} in
  if List.length (fields st) =? 0
  then inl (Thrown (js "No valid fields to update"))
  else inr {| set_fields := fields st;
              where_id := paramCount st + 1;
              where_user_id := paramCount st + 2;
              parameters := values st ++ [JString id; JString userId] |}.

(** What the loop keeps true of its variables. *)
Definition numbered (updates : list (jsstring * option json))
  (st : statement) : Prop :=
  Forall (fun f => In (fst f) allowedFields) (fields st)
  /\ map snd (fields st) = seq 1 (paramCount st)
  /\ List.length (values st) = paramCount st
  /\ forall key n,
       In (key, n) (fields st) ->
       exists v, get updates key = Some v
                 /\ nth_error (values st) (n - 1) = Some v.

End Assignment.

(** * Properties *)

(** ** Runs of a character *)

Section Runs.

Variable c : char.

Lemma repeat_shift k (s : jsstring) :
  repeat c k ++ c :: s = repeat c (S k) ++ s.
Proof. induction k; simpl; [reflexivity | now rewrite IHk]. Qed.

Lemma run_length_same s : run_length c (c :: s) = S (run_length c s).
Proof. simpl. now rewrite N.eqb_refl. Qed.

Lemma run_length_other x s : x <> c -> run_length c (x :: s) = 0.
Proof. intros H. simpl. now destruct (N.eqb_spec x c). Qed.

Lemma run_length_repeat k s :
  run_length c (repeat c k ++ s) = k + run_length c s.
Proof.
  induction k; [reflexivity |].
  cbn [repeat app]. rewrite run_length_same, IHk. reflexivity.
Qed.

Lemma run_length_app_le a b : run_length c a <= run_length c (a ++ b).
Proof.
  induction a as [| x a IH]; simpl; [lia |].
  destruct (x =? c)%N; lia.
Qed.

Lemma no_run_tail n x s : no_run c n (x :: s) = true -> no_run c n s = true.
Proof. cbn [no_run]. intros H. now apply andb_true_iff in H. Qed.

Lemma no_run_other n x s :
  1 <= n -> x <> c -> no_run c n (x :: s) = no_run c n s.
Proof.
  intros Hn Hx. cbn [no_run]. rewrite (run_length_other x s Hx).
  destruct n; [lia | reflexivity].
Qed.

Lemma no_run_suffix n a b : no_run c n (a ++ b) = true -> no_run c n b = true.
Proof.
  induction a as [| x a IH]; [trivial |].
  intros H. apply IH. exact (no_run_tail _ _ _ H).
Qed.

Lemma no_run_prefix n a b : no_run c n (a ++ b) = true -> no_run c n a = true.
Proof.
  induction a as [| x a IH]; [reflexivity |].
  change ((x :: a) ++ b) with (x :: (a ++ b)). cbn [no_run].
  intros H. apply andb_true_iff in H. destruct H as [H1 H2].
  apply andb_true_iff. split; [| now apply IH].
  apply Nat.ltb_lt in H1. apply Nat.ltb_lt.
  pose proof (run_length_app_le (x :: a) b) as Hle.
  change ((x :: a) ++ b) with (x :: (a ++ b)) in Hle. lia.
Qed.

Lemma no_run_repeat n k s :
  k + run_length c s < n -> no_run c n s = true ->
  no_run c n (repeat c k ++ s) = true.
Proof.
  induction k; intros Hk Hs; [exact Hs |].
  cbn [repeat app no_run]. apply andb_true_iff. split.
  - apply Nat.ltb_lt.
    change (c :: repeat c k ++ s) with (repeat c (S k) ++ s).
    rewrite run_length_repeat. exact Hk.
  - apply IHk; [lia | exact Hs].
Qed.

Lemma no_run_repeat_inv n k s :
  no_run c n (repeat c k ++ s) = true ->
  (k = 0 \/ k + run_length c s < n) /\ no_run c n s = true.
Proof.
  intros H. split; [| exact (no_run_suffix _ _ _ H)].
  destruct k; [now left | right].
  cbn [repeat app no_run] in H. apply andb_true_iff in H. destruct H as [H _].
  apply Nat.ltb_lt in H.
  change (c :: repeat c k ++ s) with (repeat c (S k) ++ s) in H.
  now rewrite run_length_repeat in H.
Qed.

Lemma no_run_free n (l s : jsstring) :
  1 <= n -> Forall (fun x => x <> c) l ->
  no_run c n (l ++ s) = no_run c n s.
Proof.
  intros Hn Hl. induction Hl as [| x l Hx Hl IH]; [reflexivity |].
  change ((x :: l) ++ s) with (x :: (l ++ s)).
  rewrite (no_run_other n x (l ++ s) Hn Hx). exact IH.
Qed.

Lemma run_length_free (l s : jsstring) :
  l <> [] -> Forall (fun x => x <> c) l -> run_length c (l ++ s) = 0.
Proof.
  intros Hne Hl. destruct Hl as [| x l Hx _]; [congruence |].
  apply (run_length_other x (l ++ s) Hx).
Qed.

Lemma no_run_one s : no_run c 1 s = true <-> ~ In c s.
Proof.
  induction s as [| x s IH]; [simpl; tauto |].
  cbn [no_run run_length In]. destruct (N.eqb_spec x c) as [-> | Hx].
  - simpl. split; [discriminate | intros H; exfalso; apply H; now left].
  - simpl. rewrite IH. split; [intros H [E | E]; auto | intros H E; apply H; now right].
Qed.

End Runs.

(** ** The replacements of [cleanText] *)

Section Replace.

Variables (c : char) (min : nat) (rep : jsstring).
Hypothesis min_pos : 1 <= min.

Lemma flush_run_zero : flush_run c min rep 0 = [].
Proof.
  unfold flush_run. destruct (Nat.leb_spec min 0); [lia | reflexivity].
Qed.

(** A text without a run of [min] is left as it is. *)
Lemma scan_runs_fixed s : forall k,
  no_run c min (repeat c k ++ s) = true ->
  scan_runs c min rep k s = repeat c k ++ s.
Proof.
  induction s as [| x s IH]; intros k H.
  - apply no_run_repeat_inv in H. destruct H as [[-> | H] _].
    + simpl. apply flush_run_zero.
    + simpl in H |- *. rewrite app_nil_r. unfold flush_run.
      destruct (Nat.leb_spec min k); [lia | reflexivity].
  - cbn [scan_runs]. destruct (N.eqb_spec x c) as [-> | Hx].
    + rewrite repeat_shift in H |- *. now apply IH.
    + apply no_run_repeat_inv in H. destruct H as [Hk Hs].
      rewrite (run_length_other c x s Hx) in Hk.
      rewrite (IH 0) by exact (no_run_tail c min x s Hs).
      unfold flush_run. destruct (Nat.leb_spec min k); [| reflexivity].
      destruct Hk as [-> | Hk]; lia.
Qed.

Lemma replace_runs_fixed s :
  no_run c min s = true -> replace_runs c min rep s = s.
Proof. intros H. apply (scan_runs_fixed s 0 H). Qed.

(** The result has no run of [min], when the replacement can stand before
    any text that does not start with [c]. *)
Lemma scan_runs_no_run :
  (forall l, no_run c min l = true -> run_length c l = 0 ->
             no_run c min (rep ++ l) = true) ->
  forall s k, no_run c min (scan_runs c min rep k s) = true.
Proof.
  intros Hrep.
  assert (Hflush : forall k l, no_run c min l = true -> run_length c l = 0 ->
                     no_run c min (flush_run c min rep k ++ l) = true).
  { intros k l Hl H0. unfold flush_run.
    destruct (Nat.leb_spec min k); [now apply Hrep |].
    apply no_run_repeat; [lia | exact Hl]. }
  induction s as [| x s IH]; intros k.
  - cbn [scan_runs]. rewrite <- (app_nil_r (flush_run c min rep k)).
    now apply Hflush.
  - cbn [scan_runs]. destruct (N.eqb_spec x c) as [-> | Hx]; [apply IH |].
    apply Hflush; [| apply (run_length_other c x _ Hx)].
    rewrite (no_run_other c min x _ min_pos Hx). apply IH.
Qed.

(** Runs of another character are kept as short as they were. *)
Section Other.

Variables (d : char) (m : nat).
Hypothesis m_pos : 1 <= m.
Hypothesis d_c : c <> d.
Hypothesis rep_free : Forall (fun x => x <> d) rep.
Hypothesis rep_cons : rep <> [].

Lemma flush_run_free k : Forall (fun x => x <> d) (flush_run c min rep k).
Proof.
  unfold flush_run. destruct (min <=? k); [exact rep_free |].
  apply Forall_forall. intros x Hx. apply repeat_spec in Hx. congruence.
Qed.

Lemma flush_run_cons k : 1 <= k -> flush_run c min rep k <> [].
Proof.
  intros Hk. unfold flush_run. destruct (min <=? k); [exact rep_cons |].
  destruct k; [lia | discriminate].
Qed.

Lemma run_length_scan_pending s : forall k,
  1 <= k -> run_length d (scan_runs c min rep k s) = 0.
Proof.
  induction s as [| x s IH]; intros k Hk; cbn [scan_runs].
  - rewrite <- (app_nil_r (flush_run c min rep k)).
    apply run_length_free; [now apply flush_run_cons | apply flush_run_free].
  - destruct (x =? c)%N; [apply IH; lia |].
    apply run_length_free; [now apply flush_run_cons | apply flush_run_free].
Qed.

Lemma run_length_scan_le s :
  run_length d (scan_runs c min rep 0 s) <= run_length d s.
Proof.
  induction s as [| x s IH]; cbn [scan_runs].
  - rewrite flush_run_zero. simpl. lia.
  - destruct (N.eqb_spec x c) as [-> | Hx].
    + rewrite run_length_scan_pending by lia. lia.
    + rewrite flush_run_zero. simpl. destruct (x =? d)%N; lia.
Qed.

Lemma scan_runs_keeps s : forall k,
  no_run d m s = true -> no_run d m (scan_runs c min rep k s) = true.
Proof.
  induction s as [| x s IH]; intros k H; cbn [scan_runs].
  - rewrite <- (app_nil_r (flush_run c min rep k)).
    rewrite (no_run_free d m _ [] m_pos (flush_run_free k)). reflexivity.
  - pose proof (no_run_tail d m x s H) as Hs.
    destruct (N.eqb_spec x c) as [-> | Hx]; [now apply IH |].
    rewrite (no_run_free d m _ _ m_pos (flush_run_free k)).
    cbn [no_run] in H |- *. apply andb_true_iff in H. destruct H as [H _].
    apply andb_true_iff. split; [| now apply IH].
    apply Nat.ltb_lt in H. apply Nat.ltb_lt.
    pose proof (run_length_scan_le s) as Hle.
    simpl in H |- *. destruct (x =? d)%N; lia.
Qed.

End Other.

End Replace.

(** ** Trimming *)

Section Trim.

Variable p : char -> bool.

Lemma dropWhile_suffix s : exists l, s = l ++ dropWhile p s.
Proof.
  induction s as [| x s [l IH]]; [now exists [] |].
  simpl. destruct (p x); [| now exists []].
  exists (x :: l). simpl. now f_equal.
Qed.

Lemma dropWhile_head s x r : dropWhile p s = x :: r -> p x = false.
Proof.
  induction s as [| y s IH]; [discriminate |].
  simpl. destruct (p y) eqn:E; [exact IH |].
  intros H. now injection H as -> _.
Qed.

Lemma dropWhile_fixed s x r : s = x :: r -> p x = false -> dropWhile p s = s.
Proof. intros -> H. simpl. now rewrite H. Qed.

Lemma dropWhileEnd_prefix s : exists l, s = dropWhileEnd p s ++ l.
Proof.
  induction s as [| x s [l IH]]; [now exists [] |].
  cbn [dropWhileEnd]. destruct (dropWhileEnd p s) as [| y r'].
  - destruct (p x); [now exists (x :: s) |].
    exists l. simpl in IH |- *. now f_equal.
  - exists l. simpl in IH |- *. now f_equal.
Qed.

Lemma dropWhileEnd_head s x r :
  dropWhileEnd p s = x :: r -> exists r', s = x :: r'.
Proof.
  destruct s as [| y s]; [discriminate |].
  cbn [dropWhileEnd]. destruct (dropWhileEnd p s).
  - destruct (p y); [discriminate |]. intros H. injection H as -> _. eauto.
  - intros H. injection H as -> _. eauto.
Qed.

Lemma dropWhileEnd_last s d :
  dropWhileEnd p s <> [] -> p (last (dropWhileEnd p s) d) = false.
Proof.
  induction s as [| x s IH]; [simpl; congruence |].
  cbn [dropWhileEnd]. destruct (dropWhileEnd p s) as [| y r'] eqn:E.
  - destruct (p x) eqn:Ex; [congruence | intros _; exact Ex].
  - intros _. change (last (x :: y :: r') d) with (last (y :: r') d).
    apply IH. discriminate.
Qed.

Lemma dropWhileEnd_fixed s d :
  s <> [] -> p (last s d) = false -> dropWhileEnd p s = s.
Proof.
  induction s as [| x s IH]; [congruence |].
  intros _ H. cbn [dropWhileEnd]. destruct s as [| y s].
  - simpl in H |- *. now rewrite H.
  - change (last (x :: y :: s) d) with (last (y :: s) d) in H.
    rewrite IH; [reflexivity | discriminate | exact H].
Qed.

End Trim.

Lemma last_default (s : jsstring) (d e : char) :
  s <> [] -> last s d = last s e.
Proof.
  induction s as [| x s IH]; [congruence |].
  intros _. destruct s as [| y s]; [reflexivity |].
  change (last (y :: s) d = last (y :: s) e). apply IH. discriminate.
Qed.

Lemma trim_trimmed s : trimmed (trim s) = true.
Proof.
  unfold trim, trimmed.
  destruct (dropWhileEnd is_white (dropWhile is_white s)) as [| x r] eqn:E;
    [reflexivity |].
  apply andb_true_iff. split.
  - destruct (dropWhileEnd_head _ _ _ _ E) as [r' E'].
    now rewrite (dropWhile_head _ _ _ _ E').
  - rewrite <- E. rewrite dropWhileEnd_last; [reflexivity |].
    rewrite E. discriminate.
Qed.

Lemma trim_fixed s : trimmed s = true -> trim s = s.
Proof.
  unfold trim, trimmed. destruct s as [| x r]; [reflexivity |].
  intros H. apply andb_true_iff in H. destruct H as [H1 H2].
  apply negb_true_iff in H1. apply negb_true_iff in H2.
  rewrite (dropWhile_fixed is_white (x :: r) x r eq_refl H1).
  apply (dropWhileEnd_fixed is_white (x :: r) x); [discriminate | exact H2].
Qed.

Lemma trim_keeps c n s : no_run c n s = true -> no_run c n (trim s) = true.
Proof.
  intros H. unfold trim.
  destruct (dropWhile_suffix is_white s) as [a Ha].
  destruct (dropWhileEnd_prefix is_white (dropWhile is_white s)) as [b Hb].
  rewrite Ha in H. apply no_run_suffix in H.
  rewrite Hb in H. now apply no_run_prefix in H.
Qed.

(** ** Line endings *)

Lemma replace_char_free c d s :
  c <> d -> no_run c 1 (replace_char c d s) = true.
Proof.
  intros Hcd. apply no_run_one. unfold replace_char. intros H.
  apply in_map_iff in H. destruct H as [x [Hx _]].
  destruct (N.eqb_spec x c); congruence.
Qed.

Lemma replace_char_fixed c d s :
  no_run c 1 s = true -> replace_char c d s = s.
Proof.
  intros H. apply no_run_one in H. unfold replace_char.
  rewrite <- (map_id s) at 2. apply map_ext_in. intros x Hx.
  destruct (N.eqb_spec x c); [subst; contradiction | reflexivity].
Qed.

Lemma replace_crlf_fixed s : no_run CR 1 s = true -> replace_crlf s = s.
Proof.
  intros H. apply no_run_one in H.
  induction s as [| x s IH]; [reflexivity |].
  cbn [replace_crlf]. destruct (N.eqb_spec x CR) as [-> | Hx].
  - exfalso. apply H. now left.
  - f_equal. apply IH. intros Hin. apply H. now right.
Qed.

(** ** [cleanText] *)

Lemma two_line_feeds_fit l :
  no_run LF 3 l = true -> run_length LF l = 0 ->
  no_run LF 3 ([LF; LF] ++ l) = true.
Proof.
  intros Hl H0. apply (no_run_repeat LF 3 2 l); [lia | exact Hl].
Qed.

Lemma one_space_fits l :
  no_run SP 2 l = true -> run_length SP l = 0 ->
  no_run SP 2 ([SP] ++ l) = true.
Proof.
  intros Hl H0. apply (no_run_repeat SP 2 1 l); [lia | exact Hl].
Qed.

Lemma space_for_tabs_fits l :
  no_run TAB 1 l = true -> run_length TAB l = 0 ->
  no_run TAB 1 ([SP] ++ l) = true.
Proof. intros Hl _. exact Hl. Qed.

Ltac other_char :=
  first [ lia | discriminate
        | repeat constructor; discriminate ].

(** The output of [cleanText] is in clean form. *)
Lemma cleanText_clean t : clean (cleanText t) = true.
Proof.
  unfold cleanText. destruct t as [| x t]; [reflexivity |].
  set (t1 := replace_char CR LF (replace_crlf (x :: t))).
  assert (H1 : no_run CR 1 t1 = true) by (apply replace_char_free; discriminate).
  set (t2 := replace_runs LF 3 [LF; LF] t1).
  assert (H2 : no_run CR 1 t2 = true /\ no_run LF 3 t2 = true).
  { split.
    - apply scan_runs_keeps; other_char || exact H1.
    - apply scan_runs_no_run; [lia | exact two_line_feeds_fit]. }
  destruct H2 as [H2 H2'].
  set (t3 := replace_runs TAB 1 [SP] t2).
  assert (H3 : no_run CR 1 t3 = true /\ no_run LF 3 t3 = true
               /\ no_run TAB 1 t3 = true).
  { repeat split.
    - apply scan_runs_keeps; other_char || exact H2.
    - apply scan_runs_keeps; other_char || exact H2'.
    - apply scan_runs_no_run; [lia | exact space_for_tabs_fits]. }
  destruct H3 as [H3 [H3' H3'']].
  set (t4 := replace_runs SP 2 [SP] t3).
  assert (H4 : no_run CR 1 t4 = true /\ no_run LF 3 t4 = true
               /\ no_run TAB 1 t4 = true /\ no_run SP 2 t4 = true).
  { repeat split.
    - apply scan_runs_keeps; other_char || exact H3.
    - apply scan_runs_keeps; other_char || exact H3'.
    - apply scan_runs_keeps; other_char || exact H3''.
    - apply scan_runs_no_run; [lia | exact one_space_fits]. }
  destruct H4 as [H4 [H4' [H4'' H4''']]].
  unfold clean. rewrite !trim_keeps by assumption. rewrite trim_trimmed.
  reflexivity.
Qed.

(** A text in clean form is returned as it is. *)
Lemma cleanText_fixed t : clean t = true -> cleanText t = t.
Proof.
  unfold clean. intros H.
  repeat (apply andb_true_iff in H; destruct H as [H ?]).
  unfold cleanText. destruct t as [| x t]; [reflexivity |].
  rewrite replace_crlf_fixed by assumption.
  rewrite replace_char_fixed by assumption.
  rewrite (replace_runs_fixed LF 3 [LF; LF]) by (assumption || lia).
  rewrite (replace_runs_fixed TAB 1 [SP]) by (assumption || lia).
  rewrite (replace_runs_fixed SP 2 [SP]) by (assumption || lia).
  now apply trim_fixed.
Qed.

(** C7.  [cleanText] is idempotent: cleaning a cleaned text returns the
    identical text. *)
Theorem cleanText_idempotent (t : jsstring) :
  cleanText (cleanText t) = cleanText t.
Proof. apply cleanText_fixed. apply cleanText_clean. Qed.

Lemma scan_runs_repeat c min rep k s : forall j,
  scan_runs c min rep j (repeat c k ++ s) = scan_runs c min rep (j + k) s.
Proof.
  induction k as [| k IH]; intros j; [now rewrite Nat.add_0_r |].
  cbn [repeat app scan_runs]. rewrite N.eqb_refl, IH. f_equal. lia.
Qed.

Lemma white_chars x :
  is_white x = false -> x <> CR /\ x <> LF /\ x <> TAB /\ x <> SP.
Proof.
  intros H. repeat split; intros ->; discriminate.
Qed.

(** A run of [k] line feeds between two characters that are not white
    space comes out as a run of at most two. *)
Lemma cleanText_line_feeds x y k :
  is_white x = false -> is_white y = false ->
  cleanText (x :: repeat LF k ++ [y]) = x :: repeat LF (Nat.min k 2) ++ [y].
Proof.
  intros Hx Hy.
  destruct (white_chars x Hx) as [xCR [xLF [xTAB xSP]]].
  destruct (white_chars y Hy) as [yCR [yLF [yTAB ySP]]].
  assert (Hfree : forall c j, x <> c -> y <> c -> c <> LF ->
            no_run c 1 (x :: repeat LF j ++ [y]) = true).
  { intros c j Hxc Hyc Hc. apply no_run_one. intros [E | E]; [congruence |].
    apply in_app_or in E. destruct E as [E | [E | []]]; [| congruence].
    apply repeat_spec in E. congruence. }
  assert (Hout : clean (x :: repeat LF (Nat.min k 2) ++ [y]) = true).
  { unfold clean. rewrite !Hfree by (assumption || discriminate).
    assert (E : no_run SP 2 (x :: repeat LF (Nat.min k 2) ++ [y]) = true).
    { apply (no_run_prefix SP 2 _ []). rewrite app_nil_r.
      generalize (Hfree SP (Nat.min k 2) xSP ySP ltac:(discriminate)).
      generalize (x :: repeat LF (Nat.min k 2) ++ [y]). intros l.
      induction l as [| a l IH]; [reflexivity |].
      cbn [no_run]. intros H. apply andb_true_iff in H. destruct H as [H1 H2].
      apply Nat.ltb_lt in H1. rewrite IH by exact H2.
      rewrite andb_true_r. apply Nat.ltb_lt. lia. }
    rewrite E.
    assert (E3 : no_run LF 3 (x :: repeat LF (Nat.min k 2) ++ [y]) = true).
    { rewrite (no_run_other LF 3 x _ ltac:(lia) xLF).
      apply no_run_repeat.
      - rewrite (run_length_other LF y [] yLF). lia.
      - now rewrite (no_run_other LF 3 y [] ltac:(lia) yLF). }
    rewrite E3. cbn [andb trimmed]. rewrite Hx. cbn [negb andb].
    change (x :: repeat LF (Nat.min k 2) ++ [y])
      with ((x :: repeat LF (Nat.min k 2)) ++ [y]).
    rewrite last_last. now rewrite Hy. }
  rewrite <- (cleanText_fixed _ Hout) at 1.
  unfold cleanText at 1 2. cbn [app].
  do 3 f_equal.
  rewrite !replace_crlf_fixed by (apply Hfree; assumption || discriminate).
  rewrite !replace_char_fixed by (apply Hfree; assumption || discriminate).
  unfold replace_runs. cbn [scan_runs].
  destruct (N.eqb_spec x LF) as [| _]; [contradiction |].
  rewrite !flush_run_zero by lia. cbn [app]. f_equal.
  rewrite !scan_runs_repeat. cbn [scan_runs Nat.add].
  destruct (N.eqb_spec y LF) as [| _]; [contradiction |].
  rewrite !flush_run_zero by lia.
  unfold flush_run.
  destruct (Nat.leb_spec 3 k), (Nat.leb_spec 3 (Nat.min k 2)); try lia.
  - replace (Nat.min k 2) with 2 by lia. reflexivity.
  - replace (Nat.min k 2) with k by lia. reflexivity.
Qed.

Lemma no_run_absent c n s : 1 <= n -> ~ In c s -> no_run c n s = true.
Proof.
  intros Hn. induction s as [| x s IH]; [reflexivity |].
  intros H. rewrite (no_run_other c n x s Hn).
  - apply IH. intros Hin. apply H. now right.
  - intros ->. apply H. now left.
Qed.

(** Tabs and spaces in a row come out of the tab replacement as spaces,
    one at least. *)
Lemma scan_tabs_blank h : forall k z rest,
  Forall (fun c => c = TAB \/ c = SP) h -> z <> TAB ->
  exists j,
    scan_runs TAB 1 [SP] k (h ++ z :: rest)
    = repeat SP j ++ z :: scan_runs TAB 1 [SP] 0 rest
    /\ (1 <= k \/ h <> [] -> 1 <= j).
Proof.
  induction h as [| c h IH]; intros k z rest Hh Hz.
  - cbn [app scan_runs]. destruct (N.eqb_spec z TAB); [contradiction |].
    unfold flush_run. destruct (Nat.leb_spec 1 k).
    + exists 1. split; [reflexivity | lia].
    + exists 0. replace k with 0 by lia. split; [reflexivity |].
      intros [H' | H']; [lia | congruence].
  - inversion Hh as [| c' h' [-> | ->] Hrest]; subst; cbn [app scan_runs].
    + rewrite N.eqb_refl.
      destruct (IH (S k) z rest Hrest Hz) as (j & -> & Hj).
      exists j. split; [reflexivity |]. intros _. apply Hj. left. lia.
    + change (SP =? TAB)%N with false. cbn iota.
      destruct (IH 0 z rest Hrest Hz) as (j & -> & _).
      unfold flush_run. destruct (Nat.leb_spec 1 k).
      * exists (S (S j)). split; [reflexivity | lia].
      * replace k with 0 by lia. exists (S j). split; [reflexivity | lia].
Qed.

(** Tabs and spaces between two characters that are not white space come
    out as one space. *)
Lemma cleanText_blanks x y h :
  is_white x = false -> is_white y = false ->
  h <> [] -> Forall (fun c => c = TAB \/ c = SP) h ->
  cleanText (x :: h ++ [y]) = [x; SP; y].
Proof.
  intros Hx Hy Hne Hh.
  destruct (white_chars x Hx) as [xCR [xLF [xTAB xSP]]].
  destruct (white_chars y Hy) as [yCR [yLF [yTAB ySP]]].
  assert (Hfree : forall c, x <> c -> y <> c -> c <> TAB -> c <> SP ->
            ~ In c (x :: h ++ [y])).
  { intros c Hxc Hyc Ht Hs [E | E]; [congruence |].
    apply in_app_or in E. destruct E as [E | [E | []]]; [| congruence].
    rewrite Forall_forall in Hh. destruct (Hh c E); congruence. }
  unfold cleanText.
  rewrite replace_crlf_fixed
    by (apply no_run_one, Hfree; assumption || discriminate).
  rewrite replace_char_fixed
    by (apply no_run_one, Hfree; assumption || discriminate).
  rewrite (replace_runs_fixed LF 3 [LF; LF] ltac:(lia))
    by (apply no_run_absent;
        [lia | apply Hfree; assumption || discriminate]).
  unfold replace_runs at 2. cbn [scan_runs].
  destruct (N.eqb_spec x TAB); [contradiction |].
  rewrite flush_run_zero by lia. cbn [app].
  destruct (scan_tabs_blank h 0 y [] Hh yTAB) as (j & -> & Hj).
  cbn [scan_runs]. rewrite flush_run_zero by lia.
  unfold replace_runs. cbn [scan_runs].
  destruct (N.eqb_spec x SP); [contradiction |].
  rewrite flush_run_zero by lia. cbn [app].
  rewrite scan_runs_repeat. cbn [scan_runs Nat.add].
  destruct (N.eqb_spec y SP); [contradiction |].
  rewrite flush_run_zero by lia.
  assert (E : flush_run SP 2 [SP] j = [SP]).
  { unfold flush_run. destruct (Nat.leb_spec 2 j); [reflexivity |].
    replace j with 1 by (specialize (Hj (or_intror Hne)); lia).
    reflexivity. }
  rewrite E. apply trim_fixed. cbn. now rewrite Hx, Hy.
Qed.

(** What unifying does to each carriage return, wherever it stands: with
    the line feed that follows it, it becomes one line feed; without one,
    it becomes a line feed; and a text without carriage returns is left
    as written. *)
Lemma unify_line_endings_crlf a b :
  unify_line_endings (a ++ CR :: LF :: b)
  = unify_line_endings a ++ LF :: unify_line_endings b.
Proof.
  induction a as [| c a IH].
  - cbn [app unify_line_endings].
    rewrite !N.eqb_refl. change (LF =? CR)%N with false. reflexivity.
  - change ((c :: a) ++ CR :: LF :: b) with (c :: a ++ CR :: LF :: b).
    destruct a as [| d a].
    + cbn [app] in *. cbn [unify_line_endings] in *.
      rewrite N.eqb_refl in *. change (CR =? LF)%N with false.
      destruct (c =? CR)%N; now rewrite IH.
    + change ((d :: a) ++ CR :: LF :: b) with (d :: a ++ CR :: LF :: b) in *.
      set (r := a ++ CR :: LF :: b) in *.
      change (unify_line_endings (c :: d :: r))
        with (if (c =? CR)%N
              then if (d =? LF)%N then unify_line_endings (d :: r)
                   else LF :: unify_line_endings (d :: r)
              else c :: unify_line_endings (d :: r)).
      change (unify_line_endings (c :: d :: a))
        with (if (c =? CR)%N
              then if (d =? LF)%N then unify_line_endings (d :: a)
                   else LF :: unify_line_endings (d :: a)
              else c :: unify_line_endings (d :: a)).
      rewrite IH. destruct (c =? CR)%N, (d =? LF)%N; reflexivity.
Qed.

Lemma unify_line_endings_cr a b :
  run_length LF b = 0 ->
  unify_line_endings (a ++ CR :: b)
  = unify_line_endings a ++ LF :: unify_line_endings b.
Proof.
  intros Hb. induction a as [| c a IH].
  - cbn [app unify_line_endings]. rewrite N.eqb_refl.
    destruct b as [| d b]; [reflexivity |].
    cbn [run_length] in Hb. destruct (d =? LF)%N; [discriminate |].
    reflexivity.
  - change ((c :: a) ++ CR :: b) with (c :: a ++ CR :: b).
    destruct a as [| d a].
    + cbn [app] in *. cbn [unify_line_endings] in *.
      rewrite N.eqb_refl in *. change (CR =? LF)%N with false.
      destruct (c =? CR)%N; now rewrite IH.
    + change ((d :: a) ++ CR :: b) with (d :: a ++ CR :: b) in *.
      set (r := a ++ CR :: b) in *.
      change (unify_line_endings (c :: d :: r))
        with (if (c =? CR)%N
              then if (d =? LF)%N then unify_line_endings (d :: r)
                   else LF :: unify_line_endings (d :: r)
              else c :: unify_line_endings (d :: r)).
      change (unify_line_endings (c :: d :: a))
        with (if (c =? CR)%N
              then if (d =? LF)%N then unify_line_endings (d :: a)
                   else LF :: unify_line_endings (d :: a)
              else c :: unify_line_endings (d :: a)).
      rewrite IH. destruct (c =? CR)%N, (d =? LF)%N; reflexivity.
Qed.

Lemma unify_line_endings_free s :
  ~ In CR s -> unify_line_endings s = s.
Proof.
  induction s as [| c s IH]; [reflexivity |].
  intros H. cbn [unify_line_endings].
  destruct (N.eqb_spec c CR) as [-> | _].
  - exfalso. apply H. now left.
  - rewrite IH; [reflexivity |]. intros Hin. apply H. now right.
Qed.

(** The two replacements of carriage returns, one after the other, unify
    the line endings. *)
Lemma replace_cr_unify s :
  replace_char CR LF (replace_crlf s) = unify_line_endings s.
Proof.
  enough (H : forall n s, List.length s <= n ->
              replace_char CR LF (replace_crlf s) = unify_line_endings s)
    by (apply (H (List.length s)); lia).
  clear s. induction n as [| n IH]; intros s Hn.
  - destruct s; [reflexivity | cbn in Hn; lia].
  - destruct s as [| c r]; [reflexivity |].
    cbn [List.length] in Hn.
    cbn [replace_crlf unify_line_endings].
    destruct (N.eqb_spec c CR) as [-> | Hc].
    + destruct r as [| d r']; [reflexivity |].
      cbn [List.length] in Hn.
      destruct (N.eqb_spec d LF) as [-> | Hd].
      * unfold replace_char. cbn [map].
        change (LF =? CR)%N with false. cbv iota.
        fold (replace_char CR LF (replace_crlf r')).
        rewrite (IH r') by lia.
        cbn [unify_line_endings]. change (LF =? CR)%N with false.
        reflexivity.
      * unfold replace_char. cbn [map]. rewrite N.eqb_refl.
        fold (replace_char CR LF (replace_crlf (d :: r'))).
        rewrite (IH (d :: r')) by (cbn [List.length]; lia). reflexivity.
    + unfold replace_char. cbn [map].
      destruct (N.eqb_spec c CR); [contradiction |].
      fold (replace_char CR LF (replace_crlf r)).
      rewrite (IH r) by lia. reflexivity.
Qed.

Lemma add_char_as_written c rs :
  flat_map as_written (add_char c rs) = c :: flat_map as_written rs.
Proof.
  unfold add_char. destruct (N.eqb_spec c LF) as [-> | Hc].
  - destruct rs as [| [n | h | x] rest]; reflexivity.
  - destruct (horizontal c); [| reflexivity].
    destruct rs as [| [n | h | x] rest]; reflexivity.
Qed.

Lemma add_char_maximal c rs :
  maximal rs = true -> maximal (add_char c rs) = true.
Proof.
  intros H. unfold add_char. destruct (N.eqb_spec c LF) as [-> | Hc].
  - destruct rs as [| [n | h | x] rest];
      [reflexivity | | cbn [maximal well_formed apart] in *; now rewrite H
       | cbn [maximal well_formed apart] in *; now rewrite H].
    cbn [maximal well_formed apart] in *.
    apply andb_true_iff in H. destruct H as [H1 H2].
    apply andb_true_iff in H1. destruct H1 as [_ H1].
    now rewrite H1, H2.
  - destruct (horizontal c) eqn:Hh.
    + destruct rs as [| [n | h | x] rest];
        cbn [maximal well_formed apart forallb] in *;
        rewrite ?Hh; cbn [andb]; try exact H.
      apply andb_true_iff in H. destruct H as [H1 H2].
      apply andb_true_iff in H1. destruct H1 as [H0 H1].
      destruct h as [| y h]; [discriminate |].
      now rewrite H0, H1, H2.
    + cbn [maximal well_formed apart]. rewrite Hh.
      destruct (N.eqb_spec c LF); [contradiction |]. exact H.
Qed.

(** The runs of a text, written one after the other, are the text. *)
Lemma runs_as_written s : flat_map as_written (runs s) = s.
Proof.
  induction s as [| c s IH]; [reflexivity |].
  change (runs (c :: s)) with (add_char c (runs s)).
  now rewrite add_char_as_written, IH.
Qed.

Lemma runs_maximal s : maximal (runs s) = true.
Proof.
  induction s as [| c s IH]; [reflexivity |].
  change (runs (c :: s)) with (add_char c (runs s)).
  now apply add_char_maximal.
Qed.

(** A replacement of runs of [c] goes through a text piece by piece,
    where no run of [c] lies across two pieces. *)
Lemma scan_runs_app c min rep a : forall k b,
  1 <= min -> run_length c b = 0 ->
  scan_runs c min rep k (a ++ b)
  = scan_runs c min rep k a ++ scan_runs c min rep 0 b.
Proof.
  induction a as [| x a IH]; intros k b Hmin Hb.
  - cbn [app scan_runs]. destruct b as [| y b].
    + cbn [scan_runs]. rewrite (flush_run_zero c min rep Hmin).
      now rewrite app_nil_r.
    + cbn [scan_runs]. cbn [run_length] in Hb.
      destruct (y =? c)%N; [discriminate |].
      now rewrite (flush_run_zero c min rep Hmin).
  - cbn [app scan_runs]. destruct (x =? c)%N.
    + now apply IH.
    + rewrite (IH 0 b Hmin Hb). now rewrite <- app_assoc.
Qed.

Lemma replace_runs_app c min rep a b :
  1 <= min -> run_length c b = 0 ->
  replace_runs c min rep (a ++ b)
  = replace_runs c min rep a ++ replace_runs c min rep b.
Proof. intros Hmin Hb. now apply scan_runs_app. Qed.

Lemma replace_runs_free c min rep a b :
  1 <= min -> ~ In c a ->
  replace_runs c min rep (a ++ b) = a ++ replace_runs c min rep b.
Proof.
  intros Hmin. unfold replace_runs.
  induction a as [| x a IH]; intros Ha; [reflexivity |].
  cbn [app scan_runs]. destruct (N.eqb_spec x c) as [-> | Hx].
  - exfalso. apply Ha. now left.
  - rewrite (flush_run_zero c min rep Hmin). cbn [app]. f_equal.
    apply IH. intros H. apply Ha. now right.
Qed.

Lemma replace_runs_repeat c min rep k :
  replace_runs c min rep (repeat c k) = flush_run c min rep k.
Proof.
  unfold replace_runs. rewrite <- (app_nil_r (repeat c k)).
  now rewrite scan_runs_repeat.
Qed.

Lemma horizontal_chars c :
  horizontal c = true <-> c = TAB \/ c = SP.
Proof.
  unfold horizontal. rewrite orb_true_iff, !N.eqb_eq. tauto.
Qed.

(** Tabs and spaces in a row come out of the replacement of tabs as
    spaces, one at least. *)
Lemma scan_tabs_spaces h : forall k,
  forallb horizontal h = true ->
  exists j, scan_runs TAB 1 [SP] k h = repeat SP j
            /\ (1 <= k \/ h <> [] -> 1 <= j).
Proof.
  induction h as [| c h IH]; intros k Hh.
  - cbn [scan_runs]. unfold flush_run. destruct (Nat.leb_spec 1 k).
    + exists 1. split; [reflexivity | lia].
    + exists 0. replace k with 0 by lia. split; [reflexivity |].
      intros [H' | H']; [lia | congruence].
  - cbn [forallb] in Hh. apply andb_true_iff in Hh.
    destruct Hh as [Hc Hh]. apply horizontal_chars in Hc.
    destruct Hc as [-> | ->]; cbn [scan_runs].
    + rewrite N.eqb_refl. destruct (IH (S k) Hh) as (j & -> & Hj).
      exists j. split; [reflexivity |]. intros _. apply Hj. left. lia.
    + change (SP =? TAB)%N with false. cbv iota.
      destruct (IH 0 Hh) as (j & -> & _).
      unfold flush_run. destruct (Nat.leb_spec 1 k).
      * exists (S (S j)). split; [reflexivity | lia].
      * replace k with 0 by lia. exists (S j). split; [reflexivity | lia].
Qed.

Lemma maximal_tail r rs : maximal (r :: rs) = true -> maximal rs = true.
Proof.
  cbn [maximal]. intros H. apply andb_true_iff in H. now destruct H.
Qed.

Lemma maximal_line_feeds n rs :
  maximal (LineFeeds n :: rs) = true -> 1 <= n.
Proof.
  cbn [maximal well_formed]. intros H.
  destruct (Nat.leb_spec 1 n); [assumption | discriminate].
Qed.

Lemma maximal_blanks h rs :
  maximal (Blanks h :: rs) = true ->
  h <> [] /\ forallb horizontal h = true.
Proof.
  cbn [maximal well_formed]. destruct h as [| y h]; [discriminate |].
  intros H. split; [discriminate |].
  destruct (forallb horizontal (y :: h)); [reflexivity | discriminate].
Qed.

Lemma maximal_char c rs :
  maximal (Char c :: rs) = true -> c <> LF /\ c <> TAB /\ c <> SP.
Proof.
  cbn [maximal well_formed]. unfold horizontal. intros H.
  destruct (N.eqb_spec c LF); [discriminate |].
  destruct (N.eqb_spec c TAB); [discriminate |].
  destruct (N.eqb_spec c SP); [discriminate |]. auto.
Qed.

Lemma collapsed_line_feeds n :
  1 <= n ->
  exists m, collapsed (LineFeeds n) = LF :: repeat LF m.
Proof.
  intros Hn. cbn [collapsed]. destruct (3 <=? n).
  - now exists 1.
  - destruct n as [| n]; [lia |]. now exists n.
Qed.

Lemma in_collapsed_line_feeds n c :
  In c (collapsed (LineFeeds n)) -> c = LF.
Proof.
  cbn [collapsed]. destruct (3 <=? n).
  - intros [H | [H | []]]; congruence.
  - intros H. apply repeat_spec in H. exact H.
Qed.

Lemma in_blanks h c :
  forallb horizontal h = true -> In c h -> c = TAB \/ c = SP.
Proof.
  intros Hh Hin. rewrite forallb_forall in Hh.
  apply horizontal_chars. now apply Hh.
Qed.

(** What the text after a run starts with, at each of the three stages:
    not with a character that would lengthen the run. *)
Lemma after_line_feeds n rs :
  maximal (LineFeeds n :: rs) = true ->
  run_length LF (flat_map as_written rs) = 0.
Proof.
  intros H. destruct rs as [| [m | h | c] rs]; [reflexivity | | |].
  - cbn [maximal apart] in H. rewrite andb_false_r in H. discriminate.
  - apply maximal_tail in H. destruct (maximal_blanks h rs H) as [Hne Hh].
    destruct h as [| y h]; [contradiction |].
    cbn [flat_map as_written app]. apply run_length_other.
    destruct (in_blanks _ y Hh (or_introl eq_refl)); subst; discriminate.
  - apply maximal_tail in H. destruct (maximal_char c rs H) as [Hc _].
    cbn [flat_map as_written app]. now apply run_length_other.
Qed.

Lemma after_blanks (g : run -> jsstring) x h rs :
  (forall r, match r with Blanks _ => True | _ => g r = with_lines r end) ->
  x = TAB \/ x = SP ->
  maximal (Blanks h :: rs) = true ->
  run_length x (flat_map g rs) = 0.
Proof.
  intros Hg Hx H.
  destruct rs as [| [m | k | c] rs]; [reflexivity | | |].
  - apply maximal_tail in H. apply maximal_line_feeds in H.
    cbn [flat_map]. rewrite (Hg (LineFeeds m)). cbn [with_lines].
    destruct (collapsed_line_feeds m H) as (j & ->).
    cbn [app]. apply run_length_other.
    destruct Hx; subst; discriminate.
  - cbn [maximal apart] in H. rewrite andb_false_r in H. discriminate.
  - apply maximal_tail in H. destruct (maximal_char c rs H) as (_ & Ht & Hs).
    cbn [flat_map]. rewrite (Hg (Char c)). cbn [with_lines as_written app].
    apply run_length_other. destruct Hx; subst; assumption.
Qed.

(** The three replacements of runs, stage by stage. *)
Lemma line_feeds_collapsed rs :
  maximal rs = true ->
  replace_runs LF 3 [LF; LF] (flat_map as_written rs)
  = flat_map with_lines rs.
Proof.
  induction rs as [| r rs IH]; intros H; [reflexivity |].
  pose proof (maximal_tail r rs H) as Hrs. specialize (IH Hrs).
  cbn [flat_map]. destruct r as [n | h | c].
  - cbn [as_written with_lines collapsed].
    rewrite replace_runs_app
      by (lia || exact (after_line_feeds n rs H)).
    rewrite IH, replace_runs_repeat. reflexivity.
  - cbn [as_written with_lines].
    rewrite replace_runs_free; [now rewrite IH | lia |].
    intros Hin. destruct (maximal_blanks h rs H) as [_ Hh].
    destruct (in_blanks _ _ Hh Hin); discriminate.
  - cbn [as_written with_lines].
    rewrite replace_runs_free; [now rewrite IH | lia |].
    intros [-> | []]. now destruct (maximal_char LF rs H).
Qed.

Lemma tabs_replaced rs :
  maximal rs = true ->
  replace_runs TAB 1 [SP] (flat_map with_lines rs) = flat_map with_tabs rs.
Proof.
  induction rs as [| r rs IH]; intros H; [reflexivity |].
  pose proof (maximal_tail r rs H) as Hrs. specialize (IH Hrs).
  cbn [flat_map]. destruct r as [n | h | c].
  - cbn [with_tabs].
    rewrite replace_runs_free; [now rewrite IH | lia |].
    intros Hin. apply in_collapsed_line_feeds in Hin. discriminate.
  - cbn [with_lines with_tabs as_written].
    rewrite replace_runs_app; [now rewrite IH | lia |].
    apply (after_blanks with_lines TAB h rs); [| now left | exact H].
    now intros [].
  - cbn [with_lines with_tabs as_written].
    rewrite replace_runs_free; [now rewrite IH | lia |].
    intros [-> | []]. now destruct (maximal_char TAB rs H) as (_ & ? & _).
Qed.

Lemma spaces_collapsed rs :
  maximal rs = true ->
  replace_runs SP 2 [SP] (flat_map with_tabs rs) = flat_map collapsed rs.
Proof.
  induction rs as [| r rs IH]; intros H; [reflexivity |].
  pose proof (maximal_tail r rs H) as Hrs. specialize (IH Hrs).
  cbn [flat_map]. destruct r as [n | h | c].
  - cbn [with_tabs with_lines].
    rewrite replace_runs_free; [now rewrite IH | lia |].
    intros Hin. apply in_collapsed_line_feeds in Hin. discriminate.
  - rewrite replace_runs_app;
      [| lia
       | apply (after_blanks with_tabs SP h rs);
         [now intros [] | now right | exact H] ].
    rewrite IH. f_equal. cbn [with_tabs collapsed].
    destruct (maximal_blanks h rs H) as [Hne Hh].
    destruct (scan_tabs_spaces h 0 Hh) as (j & Ej & Hj).
    unfold replace_runs at 2. rewrite Ej, replace_runs_repeat.
    assert (1 <= j) by (apply Hj; now right).
    unfold flush_run. destruct (Nat.leb_spec 2 j); [reflexivity |].
    replace j with 1 by lia. reflexivity.
  - cbn [with_tabs with_lines as_written collapsed].
    rewrite replace_runs_free; [now rewrite IH | lia |].
    intros [-> | []]. now destruct (maximal_char SP rs H) as (_ & _ & ?).
Qed.

(** [cleanText] is the normalizer said by runs, on every text. *)
Lemma cleanText_normalize t : cleanText t = normalize t.
Proof.
  unfold normalize. destruct t as [| x t]; [reflexivity |].
  unfold cleanText. rewrite replace_cr_unify.
  set (u := unify_line_endings (x :: t)).
  rewrite <- (runs_as_written u) at 1.
  rewrite line_feeds_collapsed, tabs_replaced, spaces_collapsed
    by apply runs_maximal.
  reflexivity.
Qed.

(** C8, as the code has it.  On every text [cleanText] is the
    normalizer said by runs: each carriage return with the line feed after
    it, and each carriage return alone, becomes a line feed; then, the
    text being cut into its runs (which are whole, and are the text when
    written one after the other), three line feeds or more in a row become
    two, one or two stay as written, tabs and spaces in a row become one
    space, every other character stays; and the white space at both ends
    goes.  So the output has no carriage return, no three line feeds in a
    row (two blank lines or more have become one), no tab, no two spaces
    in a row and no white space at either end; a text that is already so
    is returned as written.  Between two characters that are not white
    space, a run of line feeds is cut to two line feeds when it has three
    or more and kept when it has one or two, and tabs and spaces in a row
    become one space. *)
Theorem cleanText_normal_form (t : jsstring) :
  (cleanText t = normalize t
   /\ flat_map as_written (runs (unify_line_endings t))
      = unify_line_endings t
   /\ maximal (runs (unify_line_endings t)) = true)
  /\ (no_run CR 1 (cleanText t) = true
      /\ no_run LF 3 (cleanText t) = true
      /\ no_run TAB 1 (cleanText t) = true
      /\ no_run SP 2 (cleanText t) = true
      /\ trimmed (cleanText t) = true)
  /\ (clean t = true -> cleanText t = t)
  /\ (forall x y k, is_white x = false -> is_white y = false ->
        cleanText (x :: repeat LF k ++ [y])
        = x :: repeat LF (Nat.min k 2) ++ [y])
  /\ (forall x y h, is_white x = false -> is_white y = false ->
        h <> [] -> Forall (fun c => c = TAB \/ c = SP) h ->
        cleanText (x :: h ++ [y]) = [x; SP; y]).
Proof.
  split;
    [split; [apply cleanText_normalize
            | split; [apply runs_as_written | apply runs_maximal]] |].
  split;
    [| split; [apply cleanText_fixed
              | split; [apply cleanText_line_feeds | apply cleanText_blanks]]].
  pose proof (cleanText_clean t) as H. unfold clean in H.
  repeat (apply andb_true_iff in H; destruct H as [H ?]).
  repeat split; assumption.
Qed.

Lemma cleanText_normal_form_witness :
  cleanText (js "a b") = js "a b"
  /\ cleanText (97 :: repeat LF 5 ++ [98])%N = (97 :: repeat LF 2 ++ [98])%N
  /\ cleanText (97 :: [TAB; SP; SP; TAB] ++ [98])%N = [97; SP; 98]%N
  /\ cleanText [SP; 97; CR; LF; 98; CR; CR; LF; CR; 99; TAB]%N
     = trim (flat_map collapsed
               [Blanks [SP]; Char 97; LineFeeds 1; Char 98; LineFeeds 3;
                Char 99; Blanks [TAB]])%N.
Proof.
  split; [| split; [| split]].
  - apply (proj1 (proj2 (proj2 (cleanText_normal_form (js "a b"))))).
    reflexivity.
  - apply (proj1 (proj2 (proj2 (proj2 (cleanText_normal_form [])))));
      reflexivity.
  - apply (proj2 (proj2 (proj2 (proj2 (cleanText_normal_form []))))).
    + reflexivity.
    + reflexivity.
    + discriminate.
    + repeat (constructor;
              [first [left; reflexivity | right; reflexivity] |]).
      constructor.
  - exact (proj1 (proj1 (cleanText_normal_form
                           [SP; 97; CR; LF; 98; CR; CR; LF; CR; 99; TAB]%N))).
Defined.

(** The same text, evaluated: the line endings are line feeds, three of
    them in a row are two, and the ends are trimmed. *)
Example cleanText_line_endings :
  cleanText [SP; 97; CR; LF; 98; CR; CR; LF; CR; 99; TAB]%N
  = [97; LF; 98; LF; LF; 99]%N.
Proof. reflexivity. Qed.

(** C8, as stated, fails: a text with two blank lines between two words,
    which the claim leaves as written, loses one of them; what is left is
    one blank line, two line feeds, and not one line feed. *)
Lemma cleanText_two_blank_lines :
  let t := js "a" ++ [LF; LF; LF] ++ js "b" in
  clean_as_specified t = true
  /\ cleanText t = js "a" ++ [LF; LF] ++ js "b"
  /\ cleanText t <> t
  /\ cleanText t <> js "a" ++ [LF] ++ js "b".
Proof. repeat split; discriminate. Qed.

(** The test of the repository for [cleanText], evaluated: the space
    before the blank line stays. *)
Example cleanText_test :
  cleanText (js "Line 1" ++ [CR; LF; CR; LF] ++ js "Line 2" ++ [TAB; TAB]
             ++ js "Extra spaces   " ++ [LF; LF; LF] ++ js "Line 3")
  = js "Line 1" ++ [LF; LF] ++ js "Line 2 Extra spaces " ++ [LF; LF]
    ++ js "Line 3".
Proof. reflexivity. Qed.

(** ** The spreadsheet strategy *)

Lemma excel_rows_lines rows : forall acc,
  excel_rows acc rows = acc ++ flat_map row_line rows.
Proof.
  unfold excel_rows.
  induction rows as [| r rows IH]; intros acc; [now rewrite app_nil_r |].
  cbn [fold_left flat_map]. rewrite IH. destruct r as [| c r].
  - reflexivity.
  - cbn [List.length Nat.ltb Nat.leb row_line]. now rewrite <- !app_assoc.
Qed.

(** The two loops of [processExcel] build the text of the workbook. *)
Lemma excel_text_workbook wb : excel_text wb = workbook_text wb.
Proof.
  unfold excel_text, workbook_text.
  enough (H : forall acc,
    fold_left
      (fun extractedText (sh : sheet) =>
         let (sheetName, jsonData) := sh in
         excel_rows (extractedText ++ js "Sheet: " ++ sheetName ++ [LF])
           jsonData ++ [LF]) wb acc = acc ++ flat_map sheet_text wb)
    by apply (H []).
  induction wb as [| [name rows] wb IH]; intros acc; [now rewrite app_nil_r |].
  cbn [fold_left flat_map]. rewrite IH, excel_rows_lines.
  unfold sheet_text. cbn [fst snd]. now rewrite <- !app_assoc.
Qed.

(** C9, as the code has it.  For a workbook that the library reads, the
    spreadsheet strategy returns the cleaned form of the text that has,
    for each sheet, a line with its name, a tab-joined line for each row
    with cells, and a blank line; being cleaned, what is returned has no
    tab left in it. *)
Theorem processExcel_text (w : world) (filePath : jsstring) (wb : workbook)
  (s : state) :
  xlsx_readFile w filePath = inr wb ->
  processExcel w filePath s
  = (observe s [EStrategy excel], inr (cleanText (workbook_text wb)))
  /\ no_run TAB 1 (cleanText (workbook_text wb)) = true.
Proof.
  intros H. split.
  - unfold processExcel, bind, emit, lift, wrap, observe.
    now rewrite H, excel_text_workbook.
  - pose proof (cleanText_clean (workbook_text wb)) as Hc.
    unfold clean in Hc.
    repeat (apply andb_true_iff in Hc; destruct Hc as [Hc ?]).
    assumption.
Qed.

Lemma processExcel_text_witness :
  processExcel sample_world (js "book.xlsx") start
  = (observe start [EStrategy excel],
     inr (cleanText (workbook_text
                       [(js "S", [[Some (js "a"); Some (js "b")]])])))
  /\ no_run TAB 1 (cleanText (workbook_text
                       [(js "S", [[Some (js "a"); Some (js "b")]])])) = true.
Proof.
  apply (processExcel_text sample_world (js "book.xlsx")
           [(js "S", [[Some (js "a"); Some (js "b")]])] start).
  reflexivity.
Defined.

(** C9, as stated, fails: for a sheet with one row of two cells the text
    returned is not the tab-joined text of the workbook; the cells come
    back with a space between them, and the closing blank line is gone. *)
Lemma processExcel_not_tab_joined :
  let wb := [(js "S", [[Some (js "a"); Some (js "b")]])] in
  xlsx_readFile sample_world (js "book.xlsx") = inr wb
  /\ workbook_text wb = js "Sheet: S" ++ [LF] ++ js "a" ++ [TAB] ++ js "b"
                        ++ [LF; LF]
  /\ snd (processExcel sample_world (js "book.xlsx") start)
     = inr (js "Sheet: S" ++ [LF] ++ js "a b")
  /\ snd (processExcel sample_world (js "book.xlsx") start)
     <> inr (workbook_text wb).
Proof. repeat split. discriminate. Qed.

(** ** The router *)

Lemma string_eqb_eq a b : string_eqb a b = true <-> a = b.
Proof.
  unfold string_eqb. destruct (list_eq_dec N.eq_dec a b); split;
    congruence.
Qed.

Lemma own_property_in props key v :
  own_property props key = Some v -> In (key, v) props.
Proof.
  induction props as [| [k x] props IH]; [discriminate |].
  cbn [own_property]. destruct (string_eqb k key) eqn:E.
  - apply string_eqb_eq in E. intros H. injection H as ->. subst. now left.
  - intros H. right. now apply IH.
Qed.

(** A type that is neither an own key of the table nor a name on the
    prototype is refused by the guard of [processFile]. *)
Lemma processFile_unknown w filePath mimeType s :
  isSupported mimeType = false ->
  existsb (string_eqb mimeType) Object_prototype_names = false ->
  processFile w filePath mimeType s = (s, inl (UnsupportedFileType mimeType)).
Proof.
  unfold isSupported, hasOwnProperty, processFile, get_property.
  destruct (own_property supportedTypes mimeType); [discriminate |].
  intros _ ->. reflexivity.
Qed.

(** A type of the table goes to one strategy, and to no other. *)
Lemma processFile_supported w filePath mimeType s :
  isSupported mimeType = true ->
  exists f, trace (fst (processFile w filePath mimeType s))
            = trace s ++ [EStrategy f].
Proof.
  unfold isSupported, hasOwnProperty.
  destruct (own_property supportedTypes mimeType) as [v |] eqn:E;
    [intros _ | discriminate].
  pose proof (own_property_in _ _ _ E) as Hin. clear E.
  unfold supportedTypes in Hin. cbn [In] in Hin.
  repeat (destruct Hin as [Hin | Hin];
          [injection Hin as <- <-; eexists; reflexivity |]).
  contradiction.
Qed.

(** C10.  For a content type that [isSupported] denies, be it the name
    of a member that the table inherits from [Object.prototype],
    [processFile] throws without entering any strategy: the state, and
    the trace with it, is as before. *)
Theorem processFile_not_own_key (w : world) (filePath mimeType : jsstring)
  (s : state) :
  isSupported mimeType = false ->
  (exists e, processFile w filePath mimeType s = (s, inl e))
  /\ trace (fst (processFile w filePath mimeType s)) = trace s.
Proof.
  unfold isSupported, hasOwnProperty, processFile, get_property.
  destruct (own_property supportedTypes mimeType); [discriminate |].
  intros _.
  destruct (existsb (string_eqb mimeType) Object_prototype_names);
    (split; [eexists; reflexivity | reflexivity]).
Qed.

Lemma processFile_not_own_key_witness :
  (exists e, processFile sample_world (js "upload.bin") (js "constructor")
               start = (start, inl e))
  /\ trace (fst (processFile sample_world (js "upload.bin")
                   (js "constructor") start)) = trace start.
Proof.
  apply (processFile_not_own_key sample_world (js "upload.bin")
           (js "constructor") start).
  reflexivity.
Defined.

(** The own keys of the table, by the exact string. *)
Lemma hasOwnProperty_keys props key :
  hasOwnProperty props key = true <-> In key (map fst props).
Proof.
  unfold hasOwnProperty.
  induction props as [| [k v] props IH]; [cbn; split; [discriminate | tauto] |].
  cbn [own_property map fst In]. destruct (string_eqb k key) eqn:E.
  - apply string_eqb_eq in E. split; [now left | reflexivity].
  - rewrite IH. split; [now right |]. intros [H | H]; [| exact H].
    apply string_eqb_eq in H. congruence.
Qed.

(** C5.  The table is looked up by the exact string.  For a content type
    that is not one of its keys [processFile] fails at once, whatever the
    file, the libraries and the state: it returns an error of its own with
    the state and the trace as they were, so that no strategy is entered
    and nothing is requested; the error is the one of the guard, or, for
    the name of a member of [Object.prototype], the one of the [default]
    arm of the switch.  For a key of the table it enters one strategy and
    no other, the one of the family that the table names. *)
Theorem processFile_routes (mimeType : jsstring) :
  (isSupported mimeType = true <-> In mimeType (map fst supportedTypes))
  /\ (isSupported mimeType = false ->
      exists e,
        refused mimeType e
        /\ forall w filePath s,
             processFile w filePath mimeType s = (s, inl e))
  /\ (isSupported mimeType = true ->
      exists f,
        own_property supportedTypes mimeType = Some (family_name f)
        /\ forall w filePath s,
             fst (processFile w filePath mimeType s)
             = observe s [EStrategy f]).
Proof.
  split; [apply hasOwnProperty_keys |]. split.
  - unfold isSupported, hasOwnProperty, processFile, get_property, refused.
    destruct (own_property supportedTypes mimeType); [discriminate |].
    intros _.
    destruct (existsb (string_eqb mimeType) Object_prototype_names);
      eexists; (split; [| intros w filePath s; reflexivity]);
      [now right | now left].
  - unfold isSupported, hasOwnProperty.
    destruct (own_property supportedTypes mimeType) as [v |] eqn:E;
      [intros _ | discriminate].
    pose proof (own_property_in _ _ _ E) as Hin. clear E.
    unfold supportedTypes in Hin. cbn [In] in Hin.
    repeat (destruct Hin as [Hin | Hin];
            [injection Hin as <- <-; eexists;
             (split; [| intros w filePath s; reflexivity]); reflexivity
            |]).
    contradiction.
Qed.

Lemma processFile_routes_witness :
  (exists e,
      refused (js "application/zip") e
      /\ forall w filePath s,
           processFile w filePath (js "application/zip") s = (s, inl e))
  /\ (exists e,
        refused (js "constructor") e
        /\ forall w filePath s,
             processFile w filePath (js "constructor") s = (s, inl e))
  /\ (exists f,
        own_property supportedTypes (js "text/plain")
        = Some (family_name f)
        /\ forall w filePath s,
             fst (processFile w filePath (js "text/plain") s)
             = observe s [EStrategy f]).
Proof.
  split; [| split].
  - apply (proj1 (proj2 (processFile_routes (js "application/zip")))).
    reflexivity.
  - apply (proj1 (proj2 (processFile_routes (js "constructor")))).
    reflexivity.
  - apply (proj2 (proj2 (processFile_routes (js "text/plain")))).
    reflexivity.
Defined.

(** The lookup tells upper case from lower case. *)
Example isSupported_case :
  isSupported (js "text/plain") = true
  /\ isSupported (js "Text/Plain") = false.
Proof. split; reflexivity. Qed.

(** At the content type [constructor] the guard of [processFile] lets the
    type through, the lookup finding the member that the table inherits:
    what is thrown is the error of the [default] arm of the switch, whose
    message differs from the one of the guard. *)
Lemma processFile_constructor (w : world) (filePath : jsstring) (s : state) :
  isSupported (js "constructor") = false
  /\ processFile w filePath (js "constructor") s
     = (s, inl (NoProcessorFound (PInherited (js "constructor"))))
  /\ processFile w filePath (js "constructor") s
     <> (s, inl (UnsupportedFileType (js "constructor"))).
Proof. repeat split. discriminate. Qed.

(** ** Dates *)

Section Dates.

Local Open Scope Z_scope.

Ltac split_ifs :=
  repeat match goal with
         | |- context [if ?b then _ else _] => destruct b
         end.

Lemma DaysInYear_range y : 365 <= DaysInYear y <= 366.
Proof. unfold DaysInYear. split_ifs; lia. Qed.

Lemma DayFromYear_succ y : DayFromYear (y + 1) = DayFromYear y + DaysInYear y.
Proof.
  unfold DayFromYear, DaysInYear.
  destruct (Z.eqb_spec (y mod 4) 0), (Z.eqb_spec (y mod 100) 0),
    (Z.eqb_spec (y mod 400) 0); cbn [negb];
    Z.div_mod_to_equations; lia.
Qed.

(** The year of a day number is the year in which the day lies. *)
Lemma YearFromDay_unique y n :
  DayFromYear y <= n < DayFromYear (y + 1) -> YearFromDay n = y.
Proof.
  intros H. pose proof (DayFromYear_succ y) as Hs.
  pose proof (DayFromYear_succ (y - 1)) as Hp.
  replace (y - 1 + 1) with y in Hp by lia.
  pose proof (DayFromYear_succ (y + 1)) as Hn.
  pose proof (DaysInYear_range y). pose proof (DaysInYear_range (y - 1)).
  pose proof (DaysInYear_range (y + 1)).
  assert (He : y - 1 <= 1970 + 400 * n / 146097 <= y + 1).
  { unfold DayFromYear in *. Z.div_mod_to_equations; lia. }
  unfold YearFromDay.
  assert (E : 1970 + 400 * n / 146097 = y - 1
              \/ 1970 + 400 * n / 146097 = y
              \/ 1970 + 400 * n / 146097 = y + 1) by lia.
  destruct E as [-> | [-> | ->]].
  - replace (y - 1 + 1) with y by lia.
    destruct (Z.ltb_spec n (DayFromYear (y - 1))); [lia |].
    destruct (Z.leb_spec (DayFromYear y) n); lia.
  - destruct (Z.ltb_spec n (DayFromYear y)); [lia |].
    destruct (Z.leb_spec (DayFromYear (y + 1)) n); lia.
  - destruct (Z.ltb_spec n (DayFromYear (y + 1))); lia.
Qed.

Lemma InLeapYear_leap y : InLeapYear y = if leap_year y then 1 else 0.
Proof.
  unfold InLeapYear, DaysInYear, leap_year.
  destruct (y mod 4 =? 0), (y mod 100 =? 0), (y mod 400 =? 0); reflexivity.
Qed.

Lemma DaysInYear_leap y : DaysInYear y = if leap_year y then 366 else 365.
Proof.
  unfold DaysInYear, leap_year.
  destruct (y mod 4 =? 0), (y mod 100 =? 0), (y mod 400 =? 0); reflexivity.
Qed.

Lemma MonthStart_values l :
  MonthStart l 0 = 0 /\ MonthStart l 1 = 31 /\ MonthStart l 2 = 59 + l
  /\ MonthStart l 3 = 90 + l /\ MonthStart l 4 = 120 + l
  /\ MonthStart l 5 = 151 + l /\ MonthStart l 6 = 181 + l
  /\ MonthStart l 7 = 212 + l /\ MonthStart l 8 = 243 + l
  /\ MonthStart l 9 = 273 + l /\ MonthStart l 10 = 304 + l
  /\ MonthStart l 11 = 334 + l.
Proof. repeat split. Qed.

Lemma MakeDay_in_year y m d :
  1 <= m <= 12 ->
  MakeDay y (m - 1) d
  = DayFromYear y + MonthStart (InLeapYear y) (m - 1) + d - 1.
Proof.
  intros Hm. unfold MakeDay.
  replace ((m - 1) / 12) with 0 by (Z.div_mod_to_equations; lia).
  replace ((m - 1) mod 12) with (m - 1) by (Z.div_mod_to_equations; lia).
  now rewrite Z.add_0_r.
Qed.

Ltac months m :=
  let E := fresh "E" in
  assert (E : m = 1 \/ m = 2 \/ m = 3 \/ m = 4 \/ m = 5 \/ m = 6 \/ m = 7
              \/ m = 8 \/ m = 9 \/ m = 10 \/ m = 11 \/ m = 12) by lia;
  repeat (destruct E as [-> | E]); [.. | subst m].

Ltac month_values :=
  repeat match goal with
         | |- context [Z.pos ?p - 1] =>
             let v := eval vm_compute in (Z.pos p - 1) in
             change (Z.pos p - 1) with v
         end;
  cbv beta iota delta [MonthStart days_in_month Z.eqb Pos.eqb orb].

(** The day that [MakeDay] makes of a month and a day of at most 31: the
    day itself when the month has it, a day of the next month when not. *)
Lemma civil_of_MakeDay y m d :
  1 <= m <= 12 -> 1 <= d <= 31 ->
  let n := MakeDay y (m - 1) d in
  YearFromDay n = y
  /\ if d <=? days_in_month y m
     then MonthFromDay n = m - 1 /\ DateFromDay n = d
     else MonthFromDay n = m.
Proof.
  intros Hm Hd n.
  assert (Hn : n = DayFromYear y + MonthStart (InLeapYear y) (m - 1) + d - 1)
    by (apply MakeDay_in_year; exact Hm).
  clearbody n.
  pose proof (DayFromYear_succ y) as Hs. rewrite DaysInYear_leap in Hs.
  assert (Hy : YearFromDay n = y).
  { apply YearFromDay_unique. rewrite Hs, Hn, InLeapYear_leap.
    destruct (leap_year y); months m; month_values; lia. }
  split; [exact Hy |].
  assert (Hmonth : MonthFromDay n
                   = if d <=? days_in_month y m then m - 1 else m).
  { unfold MonthFromDay, days_in_month. rewrite Hy.
    replace (n - DayFromYear y)
      with (MonthStart (InLeapYear y) (m - 1) + d - 1) by lia.
    rewrite InLeapYear_leap.
    destruct (leap_year y); months m; month_values;
      match goal with
      | |- context [?a <=? ?b] => destruct (Z.leb_spec a b)
      end;
      repeat match goal with
             | |- context [?a <? ?b] =>
                 first [ replace (a <? b) with true
                           by (symmetry; apply Z.ltb_lt; lia)
                       | replace (a <? b) with false
                           by (symmetry; apply Z.ltb_ge; lia) ]
             end; try reflexivity; lia. }
  destruct (d <=? days_in_month y m); [| exact Hmonth].
  split; [exact Hmonth |].
  unfold DateFromDay. rewrite Hy, Hmonth. lia.
Qed.

Lemma digit_range c :
  is_digit c = true -> 0 <= digit c <= 9 /\ c = Z.to_N (48 + digit c).
Proof.
  unfold is_digit, digit. intros H. apply andb_true_iff in H.
  destruct H as [H1 H2]. apply N.leb_le in H1. apply N.leb_le in H2. lia.
Qed.

Lemma pad_step n q d :
  0 <= d <= 9 -> pad (S n) (10 * q + d) = pad n q ++ [Z.to_N (48 + d)].
Proof.
  intros Hd. cbn [pad].
  replace ((10 * q + d) / 10) with q by (Z.div_mod_to_equations; lia).
  replace ((10 * q + d) mod 10) with d by (Z.div_mod_to_equations; lia).
  reflexivity.
Qed.

Lemma pad_two a b :
  is_digit a = true -> is_digit b = true -> pad 2 (number [a; b]) = [a; b].
Proof.
  intros Ha Hb. destruct (digit_range a Ha) as [Ra Ea].
  destruct (digit_range b Hb) as [Rb Eb].
  unfold number. cbn [fold_left].
  rewrite !pad_step by lia. cbn [pad app]. now rewrite <- Ea, <- Eb.
Qed.

Lemma pad_four a b c d :
  is_digit a = true -> is_digit b = true -> is_digit c = true ->
  is_digit d = true -> pad 4 (number [a; b; c; d]) = [a; b; c; d].
Proof.
  intros Ha Hb Hc Hd. destruct (digit_range a Ha) as [Ra Ea].
  destruct (digit_range b Hb) as [Rb Eb].
  destruct (digit_range c Hc) as [Rc Ec].
  destruct (digit_range d Hd) as [Rd Ed].
  unfold number. cbn [fold_left].
  rewrite !pad_step by lia. cbn [pad app].
  now rewrite <- Ea, <- Eb, <- Ec, <- Ed.
Qed.

Lemma pad_two_injective u v :
  0 <= u < 100 -> 0 <= v < 100 -> pad 2 u = pad 2 v -> u = v.
Proof.
  intros Hu Hv. cbn [pad app]. intros H.
  pose proof (f_equal (fun l => Z.of_N (nth 0 l 0%N)) H) as H1.
  pose proof (f_equal (fun l => Z.of_N (nth 1 l 0%N)) H) as H2.
  cbn [nth] in H1, H2.
  rewrite !Z2N.id in H1, H2 by (Z.div_mod_to_equations; lia).
  Z.div_mod_to_equations. lia.
Qed.

Lemma number_two_range a b :
  is_digit a = true -> is_digit b = true -> 0 <= number [a; b] < 100.
Proof.
  intros Ha Hb. destruct (digit_range a Ha). destruct (digit_range b Hb).
  unfold number. cbn [fold_left]. lia.
Qed.

Lemma number_four_range a b c d :
  is_digit a = true -> is_digit b = true -> is_digit c = true ->
  is_digit d = true -> 0 <= number [a; b; c; d] <= 9999.
Proof.
  intros Ha Hb Hc Hd. destruct (digit_range a Ha). destruct (digit_range b Hb).
  destruct (digit_range c Hc). destruct (digit_range d Hd).
  unfold number. cbn [fold_left]. lia.
Qed.

End Dates.

Section CalendarDates.

Local Open Scope Z_scope.

Lemma dateRegex_shape s :
  dateRegex s = true ->
  exists y1 y2 y3 y4 m1 m2 d1 d2,
    s = [y1; y2; y3; y4; HYPHEN; m1; m2; HYPHEN; d1; d2]
    /\ is_digit y1 = true /\ is_digit y2 = true /\ is_digit y3 = true
    /\ is_digit y4 = true /\ is_digit m1 = true /\ is_digit m2 = true
    /\ is_digit d1 = true /\ is_digit d2 = true.
Proof.
  do 10 (destruct s as [| ? s]; [discriminate |]).
  destruct s; [| discriminate].
  unfold dateRegex. intros H.
  repeat (apply andb_true_iff in H; destruct H as [H ?]).
  repeat match goal with
         | E : (_ =? _)%N = true |- _ => apply N.eqb_eq in E; subst
         end.
  do 8 eexists. split; [reflexivity | repeat split; try assumption].
  match goal with
  | A : (48 <=? ?c)%N = true, B : (?c <=? 57)%N = true |- _ =>
      unfold is_digit; now rewrite A, B
  end.
Qed.

Lemma toISOString_date_MakeDay y m d :
  0 <= y <= 9999 -> 1 <= m <= 12 -> 1 <= d <= 31 ->
  toISOString_date (MakeDay y (m - 1) d * msPerDay)
  = pad 4 y ++ [HYPHEN]
    ++ pad 2 (if d <=? days_in_month y m then m else m + 1) ++ [HYPHEN]
    ++ pad 2 (DateFromDay (MakeDay y (m - 1) d)).
Proof.
  intros Hy Hm Hd. unfold toISOString_date.
  rewrite Z.div_mul by discriminate.
  destruct (civil_of_MakeDay y m d Hm Hd) as [Hyear Hrest].
  rewrite Hyear.
  destruct (Z.leb_spec 0 y); [| lia].
  destruct (Z.leb_spec y 9999); [| lia]. cbn [andb].
  destruct (d <=? days_in_month y m).
  - destruct Hrest as [-> _]. now replace (m - 1 + 1) with m by lia.
  - now rewrite Hrest.
Qed.

(** [validateDate] keeps a string exactly when it names a day of the
    calendar. *)
Lemma validateDate_calendar s :
  validateDate (Some (JString s)) = if calendar_date s then Some s else None.
Proof.
  unfold validateDate, calendar_date.
  destruct (dateRegex s) eqn:R; [| reflexivity]. cbn [negb andb].
  destruct (dateRegex_shape s R)
    as (y1 & y2 & y3 & y4 & m1 & m2 & d1 & d2 & -> & Y1 & Y2 & Y3 & Y4
        & M1 & M2 & D1 & D2).
  unfold Date_new.
  pose proof (number_four_range y1 y2 y3 y4 Y1 Y2 Y3 Y4) as Ry.
  pose proof (number_two_range m1 m2 M1 M2) as Rm.
  pose proof (number_two_range d1 d2 D1 D2) as Rd.
  pose proof (pad_four y1 y2 y3 y4 Y1 Y2 Y3 Y4) as Py.
  pose proof (pad_two m1 m2 M1 M2) as Pm.
  pose proof (pad_two d1 d2 D1 D2) as Pd.
  set (year := number [y1; y2; y3; y4]) in *.
  set (month := number [m1; m2]) in *.
  set (day := number [d1; d2]) in *.
  assert (Hdim : days_in_month year month <= 31).
  { unfold days_in_month.
    repeat match goal with
           | |- context [if ?b then _ else _] => destruct b
           end; lia. }
  destruct (Z.leb_spec 1 month); [| reflexivity].
  destruct (Z.leb_spec month 12); [| reflexivity].
  destruct (Z.leb_spec 1 day); [| reflexivity]. cbn [andb].
  destruct (Z.leb_spec day 31).
  2: { destruct (Z.leb_spec day (days_in_month year month)); [lia |].
       reflexivity. }
  rewrite toISOString_date_MakeDay by lia. rewrite Py.
  destruct (civil_of_MakeDay year month day ltac:(lia) ltac:(lia))
    as [_ Hrest].
  destruct (day <=? days_in_month year month).
  - destruct Hrest as [_ ->]. rewrite Pm, Pd. cbn [app].
    unfold string_eqb.
    destruct (list_eq_dec N.eq_dec _ _); [reflexivity | congruence].
  - unfold string_eqb.
    destruct (list_eq_dec N.eq_dec _ _) as [E | _]; [| reflexivity].
    exfalso.
    apply (f_equal (fun l => firstn 2 (skipn 5 l))) in E.
    cbn [pad app firstn skipn] in E.
    assert (E' : pad 2 (month + 1) = pad 2 month)
      by (rewrite Pm; exact E).
    apply pad_two_injective in E'; lia.
Qed.

End CalendarDates.

(** ** Validation of a response *)

Lemma trim_empty s :
  (List.length (trim s) =? 0)%nat = string_eqb (trim s) [].
Proof. destruct (trim s); reflexivity. Qed.

Lemma validateString_nonempty value fieldName :
  nonempty_string value = true ->
  validateString value fieldName = inr (trim (string_of value)).
Proof.
  unfold nonempty_string, validateString, string_of.
  destruct value as [[| | | s | |] |]; try discriminate.
  rewrite trim_empty. now destruct (string_eqb (trim s) []).
Qed.

Lemma validateString_empty value fieldName :
  nonempty_string value = false ->
  validateString value fieldName = inl (MustBeNonEmptyString fieldName).
Proof.
  unfold nonempty_string, validateString.
  destruct value as [[| | | s | |] |]; try reflexivity.
  rewrite trim_empty. now destruct (string_eqb (trim s) []).
Qed.

(** A valid element gives its item, whatever its date and location. *)
Lemma validateItem_valid item index :
  valid_element item = true -> validateItem item index = inr (item_of item).
Proof.
  unfold valid_element. intros H.
  apply andb_true_iff in H. destruct H as [H Hs].
  apply andb_true_iff in H. destruct H as [Ho Ha].
  unfold validateItem, item_of.
  destruct item; try discriminate. cbn [not_an_object].
  now rewrite (validateString_nonempty _ _ Ha),
    (validateString_nonempty _ _ Hs).
Qed.

(** Any other element throws. *)
Lemma validateItem_invalid item index :
  valid_element item = false -> exists e, validateItem item index = inl e.
Proof.
  unfold valid_element, validateItem. intros H.
  destruct item; cbn [not_an_object is_object property andb] in *;
    try (eexists; reflexivity).
  destruct (nonempty_string (own_value props (js "assignment"))) eqn:Ha.
  - rewrite (validateString_nonempty _ _ Ha).
    cbn [andb] in H. rewrite (validateString_empty _ _ H). eauto.
  - rewrite (validateString_empty _ _ Ha). eauto.
Qed.

Lemma map_indexed_valid items : forall index,
  forallb valid_element items = true ->
  map_indexed validateItem index items = inr (map item_of items).
Proof.
  induction items as [| item items IH]; intros index H; [reflexivity |].
  cbn [forallb] in H. apply andb_true_iff in H. destruct H as [H1 H2].
  cbn [map_indexed map]. now rewrite (validateItem_valid _ _ H1), (IH _ H2).
Qed.

Lemma map_indexed_invalid items : forall index,
  forallb valid_element items = false ->
  exists e, map_indexed validateItem index items = inl e.
Proof.
  induction items as [| item items IH]; intros index H; [discriminate |].
  cbn [forallb] in H. cbn [map_indexed].
  destruct (valid_element item) eqn:E.
  - rewrite (validateItem_valid _ _ E). cbn [andb] in H.
    destruct (IH (S index) H) as [e ->]. eauto.
  - destruct (validateItem_invalid _ index E) as [e ->]. eauto.
Qed.

(** What [parseAndValidateResponse] returns, by what was parsed. *)
Lemma parseAndValidateResponse_cases w content :
  match JSON_parse w (jsonString content) with
  | None =>
      parseAndValidateResponse w content = inl (InvalidJSONResponse SyntaxError)
  | Some (JArray items) =>
      if forallb valid_element items
      then parseAndValidateResponse w content = inr (map item_of items)
      else exists e,
          parseAndValidateResponse w content = inl (InvalidJSONResponse e)
  | Some _ =>
      parseAndValidateResponse w content
      = inl (InvalidJSONResponse ResponseNotArray)
  end.
Proof.
  unfold parseAndValidateResponse.
  destruct (JSON_parse w (jsonString content)) as [[| | | | items |] |];
    try reflexivity.
  destruct (forallb valid_element items) eqn:E.
  - now rewrite (map_indexed_valid _ 0 E).
  - destruct (map_indexed_invalid _ 0 E) as [e ->]. eauto.
Qed.

(** ** The retry loop *)

Lemma observe_observe s a b : observe (observe s a) b = observe s (a ++ b).
Proof. unfold observe. cbn. now rewrite app_assoc. Qed.

Lemma request_outcome w prompt attempt s :
  request w prompt attempt s
  = (observe s [ERequest attempt], outcome w prompt attempt).
Proof.
  unfold outcome, request, bind, emit, lift, throw. cbn.
  destruct (completions_create w attempt prompt) as [e | [[| c content] |]];
    reflexivity.
Qed.

(** One turn of [makeRequestWithRetry]. *)
Lemma makeRequestWithRetry_step w this prompt attempt s :
  makeRequestWithRetry w this prompt attempt s
  = match outcome w prompt attempt with
    | inr items => (observe s [ERequest attempt], inr items)
    | inl e =>
        if attempt <? maxRetries this
        then makeRequestWithRetry w this prompt (attempt + 1)
               (observe s [ERequest attempt;
                           ESleep (retryDelay this * attempt)])
        else (observe s [ERequest attempt],
              inl (RequestFailedAfter (maxRetries this) e))
    end.
Proof.
  rewrite makeRequestWithRetry_equation_1. unfold try_catch.
  rewrite request_outcome.
  destruct (outcome w prompt attempt) as [e | items]; [| reflexivity].
  destruct (lt_dec attempt (maxRetries this)) as [Hlt | Hge].
  - destruct (Nat.ltb_spec attempt (maxRetries this)); [| lia].
    unfold bind, emit, observe. cbn. now rewrite <- app_assoc.
  - destruct (Nat.ltb_spec attempt (maxRetries this)); [lia |].
    reflexivity.
Qed.

(** C2.  A call of [makeRequestWithRetry] for a prompt makes [k]
    requests, [k] at most 3: the attempts before the [k]-th fail and each
    is followed by a wait of its number times the base delay of 1000
    milliseconds; the [k]-th succeeds and its items are returned, or it is
    the third and fails, and the call throws one error that names the
    three attempts and the cause of the last.  Nothing else is done. *)
Theorem makeRequestWithRetry_three_attempts (w : world) (prompt : jsstring)
  (s : state) :
  exists k,
    1 <= k <= 3
    /\ fst (makeRequestWithRetry w openaiService prompt 1 s)
       = observe s (retry_trace 1000 1 k)
    /\ requests (retry_trace 1000 1 k) = k
    /\ (forall j, 1 <= j < k -> exists e, outcome w prompt j = inl e)
    /\ match outcome w prompt k with
       | inr items =>
           snd (makeRequestWithRetry w openaiService prompt 1 s) = inr items
       | inl cause =>
           k = 3
           /\ snd (makeRequestWithRetry w openaiService prompt 1 s)
              = inl (RequestFailedAfter 3 cause)
       end.
Proof.
  rewrite makeRequestWithRetry_step.
  destruct (outcome w prompt 1) as [e1 | items1] eqn:O1.
  2: { exists 1. rewrite O1. repeat split; try lia; reflexivity. }
  cbn [openaiService maxRetries retryDelay Nat.ltb Nat.leb Nat.add].
  rewrite makeRequestWithRetry_step.
  destruct (outcome w prompt 2) as [e2 | items2] eqn:O2.
  2: { exists 2. rewrite O2, observe_observe.
       repeat split; try lia; try reflexivity.
       intros j Hj. assert (j = 1) as -> by lia. eauto. }
  cbn [openaiService maxRetries retryDelay Nat.ltb Nat.leb Nat.add].
  rewrite makeRequestWithRetry_step, observe_observe.
  exists 3.
  assert (Hfail : forall j, 1 <= j < 3 -> exists e, outcome w prompt j = inl e).
  { intros j Hj. assert (j = 1 \/ j = 2) as [-> | ->] by lia; eauto. }
  destruct (outcome w prompt 3) as [e3 | items3] eqn:O3;
    cbn [openaiService maxRetries retryDelay Nat.ltb Nat.leb Nat.add];
    rewrite ?observe_observe; repeat split; try lia; try reflexivity;
    exact Hfail.
Qed.

Lemma makeRequestWithRetry_three_attempts_witness :
  exists k,
    1 <= k <= 3
    /\ fst (makeRequestWithRetry sample_world openaiService (js "p") 1 start)
       = observe start (retry_trace 1000 1 k)
    /\ requests (retry_trace 1000 1 k) = k
    /\ (forall j, 1 <= j < k ->
        exists e, outcome sample_world (js "p") j = inl e)
    /\ match outcome sample_world (js "p") k with
       | inr items =>
           snd (makeRequestWithRetry sample_world openaiService (js "p") 1
                  start) = inr items
       | inl cause =>
           k = 3
           /\ snd (makeRequestWithRetry sample_world openaiService (js "p") 1
                     start) = inl (RequestFailedAfter 3 cause)
       end.
Proof.
  exact (makeRequestWithRetry_three_attempts sample_world (js "p") start).
Defined.

(** Three answers that are not JSON: three requests, two waits, one
    error. *)
Example makeRequestWithRetry_not_json :
  makeRequestWithRetry (with_JSON_parse (fun _ => None) sample_world)
    openaiService (js "p") 1 start
  = (observe start [ERequest 1; ESleep 1000; ERequest 2; ESleep 2000;
                    ERequest 3],
     inl (RequestFailedAfter 3 (InvalidJSONResponse SyntaxError))).
Proof. reflexivity. Qed.

(** C4.  Validation fails the whole response at the first fault.  When
    what was parsed is not an array, or one of its elements is not an
    object, or has a description or a source that is not a string with
    something left after trimming, [parseAndValidateResponse] throws; an
    empty array is returned as no items.  An attempt whose answer is thrown
    out is used up: below the third the loop waits and goes on with the
    next attempt, and at the third it throws for good. *)
Theorem parseAndValidateResponse_fail_fast (w : world) (content : jsstring)
  (parsed : json) :
  JSON_parse w (jsonString content) = Some parsed ->
  ((forall items, parsed <> JArray items) ->
   parseAndValidateResponse w content
   = inl (InvalidJSONResponse ResponseNotArray))
  /\ (forall items item,
        parsed = JArray items -> In item items ->
        is_object item = false
        \/ nonempty_string (property item (js "assignment")) = false
        \/ nonempty_string (property item (js "source")) = false ->
        exists e,
          parseAndValidateResponse w content = inl (InvalidJSONResponse e))
  /\ (parsed = JArray [] -> parseAndValidateResponse w content = inr [])
  /\ (forall prompt attempt s e,
        completions_create w attempt prompt = inr (Some content) ->
        content <> [] ->
        parseAndValidateResponse w content = inl e ->
        makeRequestWithRetry w openaiService prompt attempt s
        = if attempt <? 3
          then makeRequestWithRetry w openaiService prompt (attempt + 1)
                 (observe s [ERequest attempt; ESleep (1000 * attempt)])
          else (observe s [ERequest attempt],
                inl (RequestFailedAfter 3 e))).
Proof.
  intros Hparse. pose proof (parseAndValidateResponse_cases w content) as H.
  rewrite Hparse in H. repeat split.
  - intros Hna. destruct parsed; try exact H. now elim (Hna items).
  - intros items item -> Hin Hbad.
    assert (E : forallb valid_element items = false).
    { apply not_true_is_false. intros Hall.
      rewrite forallb_forall in Hall. specialize (Hall item Hin).
      unfold valid_element in Hall.
      apply andb_true_iff in Hall. destruct Hall as [Hall Hs].
      apply andb_true_iff in Hall. destruct Hall as [Ho Ha].
      destruct Hbad as [Hbad | [Hbad | Hbad]]; congruence. }
    now rewrite E in H.
  - intros ->. exact H.
  - intros prompt attempt s e Hc Hne Hv.
    rewrite makeRequestWithRetry_step.
    assert (O : outcome w prompt attempt = inl e).
    { unfold outcome, request, bind, emit, lift. cbn. rewrite Hc.
      destruct content; [congruence | exact Hv]. }
    rewrite O. reflexivity.
Qed.

Lemma parseAndValidateResponse_fail_fast_witness :
  (exists e,
      parseAndValidateResponse
        (with_JSON_parse (fun _ => Some (JArray [JArray []])) sample_world)
        (js "[[]]") = inl (InvalidJSONResponse e))
  /\ parseAndValidateResponse
       (with_JSON_parse (fun _ => Some (JArray [])) sample_world) (js "[]")
     = inr [].
Proof.
  split.
  - apply (proj1 (proj2 (parseAndValidateResponse_fail_fast
             (with_JSON_parse (fun _ => Some (JArray [JArray []]))
                sample_world)
             (js "[[]]") (JArray [JArray []]) eq_refl))
             [JArray []] (JArray []) eq_refl).
    + now left.
    + now left.
  - apply (proj1 (proj2 (proj2 (parseAndValidateResponse_fail_fast
             (with_JSON_parse (fun _ => Some (JArray [])) sample_world)
             (js "[]") (JArray []) eq_refl)))).
    reflexivity.
Defined.

(** ** Dates of the returned items *)

Lemma validateDate_round_trips value :
  date_round_trips (validateDate value).
Proof.
  unfold date_round_trips, validateDate.
  destruct value as [[| | | s | |] |]; try now left.
  destruct (dateRegex s) eqn:R; [| now left]. cbn [negb].
  destruct (Date_new s) as [t |] eqn:D; [| now left].
  destruct (string_eqb (toISOString_date t) s) eqn:E; [| now left].
  apply string_eqb_eq in E. right. exists s, t. auto.
Qed.

(** C3.  In a response that [parseAndValidateResponse] accepts every
    item has a date that is [null] or a string of the form [YYYY-MM-DD]
    that [new Date] and [toISOString] give back the same.  A response is
    accepted as soon as all its elements are objects with a description
    and a source, whatever their dates: the date of an element is kept
    when it names a day of the calendar and is [null] for any other
    value, as for the 30th of February 2024. *)
Theorem validated_dates (w : world) (content : jsstring) :
  (forall items,
      parseAndValidateResponse w content = inr items ->
      Forall (fun item => date_round_trips (due_date item)) items)
  /\ (forall elements,
        JSON_parse w (jsonString content) = Some (JArray elements) ->
        forallb valid_element elements = true ->
        parseAndValidateResponse w content = inr (map item_of elements))
  /\ (forall element,
        due_date (item_of element)
        = match property element (js "due_date") with
          | Some (JString s) => if calendar_date s then Some s else None
          | _ => None
          end)
  /\ validateDate (Some (JString (js "2024-02-30"))) = None.
Proof.
  pose proof (parseAndValidateResponse_cases w content) as H.
  repeat split.
  - intros items Hok. rewrite Hok in H.
    destruct (JSON_parse w (jsonString content)) as [[| | | | elements |] |];
      try discriminate.
    destruct (forallb valid_element elements); [| now destruct H].
    injection H as ->. apply Forall_forall. intros item Hin.
    apply in_map_iff in Hin. destruct Hin as [element [<- _]].
    apply validateDate_round_trips.
  - intros elements Hparse Hvalid. now rewrite Hparse, Hvalid in H.
  - intros element. unfold item_of. cbn [due_date].
    destruct (property element (js "due_date")) as [[| | | s | |] |];
      try reflexivity.
    apply validateDate_calendar.
Qed.

Lemma validated_dates_witness :
  Forall (fun item => date_round_trips (due_date item))
    [item_of (sample_item (JString (js "2024-02-30")))]
  /\ parseAndValidateResponse sample_world (js "[ ... ]")
     = inr [ {| assignment := js "X"; due_date := None; location := None;
                source := js "f" |} ].
Proof.
  split.
  - apply (proj1 (validated_dates sample_world (js "[ ... ]"))).
    reflexivity.
  - apply (proj1 (proj2 (validated_dates sample_world (js "[ ... ]")))
             [sample_item (JString (js "2024-02-30"))]); reflexivity.
Defined.

(** ** The run of one file *)

Lemma observe_nil s : observe s [] = s.
Proof. destruct s. unfold observe. cbn. now rewrite app_nil_r. Qed.

Lemma strategy_events {A} f (r : result A) k s :
  (emit (EStrategy f) ;;; lift (wrap f r k)) s
  = (observe s [EStrategy f], wrap f r k).
Proof. reflexivity. Qed.

(** [processFile] sends no query. *)
Lemma processFile_quiet w filePath mimeType s :
  exists A r, processFile w filePath mimeType s = (observe s A, r)
              /\ quiet A = true.
Proof.
  unfold processFile.
  destruct (negb (truthy (get_property supportedTypes mimeType))).
  { exists [], (inl (UnsupportedFileType mimeType)).
    now rewrite observe_nil. }
  destruct (get_property supportedTypes mimeType) as [| t | name];
    try (eexists [], _; rewrite observe_nil; split; reflexivity).
  unfold processExcel, processWord, processPDF, processText, processImage.
  repeat match goal with
         | |- context [if ?b then _ else _] => destruct b
         end;
    try (eexists [_], _; rewrite strategy_events; split; reflexivity).
  eexists [], _. rewrite observe_nil. split; reflexivity.
Qed.

Lemma quiet_app a b : quiet (a ++ b) = quiet a && quiet b.
Proof. apply forallb_app. Qed.

(** The retry loop sends no query. *)
Lemma makeRequestWithRetry_quiet w this prompt : forall n attempt s,
  maxRetries this - attempt <= n ->
  exists C r, makeRequestWithRetry w this prompt attempt s = (observe s C, r)
              /\ quiet C = true.
Proof.
  induction n as [| n IH]; intros attempt s Hn;
    rewrite makeRequestWithRetry_step;
    destruct (outcome w prompt attempt) as [e | items];
    try (eexists [_], _; split; reflexivity);
    destruct (Nat.ltb_spec attempt (maxRetries this));
    try (eexists [_], _; split; reflexivity); try lia.
  destruct (IH (attempt + 1)
              (observe s [ERequest attempt;
                          ESleep (retryDelay this * attempt)])
              ltac:(lia)) as (C & r & -> & HC).
  rewrite observe_observe. eexists _, _. split; [reflexivity |].
  rewrite quiet_app, HC. reflexivity.
Qed.

(** The loop over the items sends inserts until one throws; the row of
    the file is not touched. *)
Lemma for_of_inserts w items : forall s,
  exists I tail,
    trace (fst (for_of items (fun item => query w (InsertAssignment item)) s))
    = trace s ++ I ++ tail
    /\ forallb is_insert I = true
    /\ uploaded_file
         (store (fst (for_of items
                        (fun item => query w (InsertAssignment item)) s)))
       = uploaded_file (store s)
    /\ ((snd (for_of items (fun item => query w (InsertAssignment item)) s)
         = inr tt /\ tail = [])
        \/ exists item message,
            snd (for_of items (fun item => query w (InsertAssignment item)) s)
            = inl (Thrown message)
            /\ tail = [EQuery (InsertAssignment item) false]).
Proof.
  induction items as [| item items IH]; intros s.
  - exists [], []. cbn. rewrite app_nil_r.
    repeat (split; [reflexivity |]). left. now split.
  - cbn [for_of]. unfold bind at 1 2 3 4. unfold query at 1 3 5 7.
    destruct (query_throws w (sent s)) as [message |].
    + exists [], [EQuery (InsertAssignment item) false]. cbn.
      repeat (split; [reflexivity |]). right. now exists item, message.
    + match goal with
      | |- context [for_of items _ ?s1] =>
          destruct (IH s1) as (I & tail & Htr & HI & Hrow & Hres)
      end.
      exists (EQuery (InsertAssignment item) true :: I), tail.
      rewrite Htr, Hrow. cbn. rewrite <- app_assoc. cbn.
      rewrite HI. repeat (split; [reflexivity |]). exact Hres.
Qed.

Lemma status_history_app a b :
  status_history (a ++ b) = status_history a ++ status_history b.
Proof.
  induction a as [| e a IH]; [reflexivity |].
  cbn. destruct (status_written e); cbn; now rewrite IH.
Qed.

Lemma status_history_quiet A : quiet A = true -> status_history A = [].
Proof.
  induction A as [| e A IH]; [reflexivity |].
  cbn. intros H. apply andb_true_iff in H. destruct H as [He HA].
  destruct e; try discriminate; cbn; auto.
Qed.

Lemma status_history_inserts I :
  forallb is_insert I = true -> status_history I = [].
Proof.
  induction I as [| e I IH]; [reflexivity |].
  cbn. intros H. apply andb_true_iff in H. destruct H as [He HI].
  destruct e as [| | | [] []]; try discriminate; cbn; auto.
Qed.

Lemma after_failure_quiet A tr :
  quiet A = true -> after_failure (A ++ tr) = after_failure tr.
Proof.
  induction A as [| e A IH]; [reflexivity |].
  cbn. intros H. apply andb_true_iff in H. destruct H as [He HA].
  destruct e; try discriminate; cbn; auto.
Qed.

Lemma after_failure_inserts I tr :
  forallb is_insert I = true -> after_failure (I ++ tr) = after_failure tr.
Proof.
  induction I as [| e I IH]; [reflexivity |].
  cbn. intros H. apply andb_true_iff in H. destruct H as [He HI].
  destruct e as [| | | [] []]; try discriminate; cbn; auto.
Qed.

Lemma before_failure_quiet A tr :
  quiet A = true -> before_failure (A ++ tr) = A ++ before_failure tr.
Proof.
  induction A as [| e A IH]; [reflexivity |].
  cbn. intros H. apply andb_true_iff in H. destruct H as [He HA].
  destruct e; try discriminate; cbn; now rewrite IH.
Qed.

Lemma before_failure_inserts I tr :
  forallb is_insert I = true ->
  before_failure (I ++ tr) = I ++ before_failure tr.
Proof.
  induction I as [| e I IH]; [reflexivity |].
  cbn. intros H. apply andb_true_iff in H. destruct H as [He HI].
  destruct e as [| | | [] []]; try discriminate; cbn; now rewrite IH.
Qed.

Lemma run_done_eq main tr :
  try_trace main true ->
  tr = EQuery (InsertFile processing) true :: main ->
  run_trace tr.
Proof. intros H ->. now constructor. Qed.

Lemma run_failed_eq main e ok tr :
  try_trace main false ->
  tr = EQuery (InsertFile processing) true
         :: main ++ [EQuery (UpdateStatusError failed e) ok] ->
  run_trace tr.
Proof. intros H ->. now constructor. Qed.

Ltac list_eq :=
  repeat first [rewrite <- app_assoc | rewrite app_nil_r | progress cbn];
  reflexivity.

Ltac histories :=
  cbn;
  rewrite ?status_history_app;
  repeat match goal with
         | H : quiet _ = true |- _ => rewrite (status_history_quiet _ H)
         | H : forallb is_insert _ = true |- _ =>
             rewrite (status_history_inserts _ H)
         end;
  cbn; try reflexivity.

(** The trace of an upload has one of the shapes of [run_trace], and the
    status in the row is the last one that the trace wrote. *)
Lemma upload_run w filePath mimeType originalName :
  let s' := fst (upload w filePath mimeType originalName start) in
  run_trace (trace s')
  /\ option_map processing_status (uploaded_file (store s'))
     = last_status (status_history (trace s')).
Proof.
  set (post := fun x : state * result unit =>
    run_trace (trace (fst x))
    /\ option_map processing_status (uploaded_file (store (fst x)))
       = last_status (status_history (trace (fst x)))).
  change (post (upload w filePath mimeType originalName start)).
  unfold upload, bind at 1, try_catch at 1, bind at 1.
  unfold query at 1. cbn [sent start].
  destruct (query_throws w 0) as [m0 |].
  { unfold post. cbn. split; [apply RunNoRow | reflexivity]. }
  cbn [ret]. unfold processFileAsync, try_catch, bind at 1.
  match goal with
  | |- context [processFile w filePath mimeType ?s1] =>
      destruct (processFile_quiet w filePath mimeType s1)
        as (A & rA & -> & QA)
  end.
  destruct rA as [e | extractedText].
  { (* the strategy threw *)
    unfold query. cbn [sent observe].
    destruct (query_throws w 1); unfold post; cbn [fst]; split;
      try (eapply (run_failed_eq (A));
           [now constructor | list_eq]);
      histories. }
  unfold bind at 1. unfold query at 1. cbn [sent observe].
  destruct (query_throws w 1) as [m1 |].
  { (* the update of the text threw *)
    unfold query. cbn [sent].
    destruct (query_throws w 2); unfold post; cbn [fst]; split;
      try (eapply (run_failed_eq
                     (A ++ [EQuery (UpdateExtractedText extractedText
                                              text_extracted) false]));
           [now constructor | list_eq]);
      histories. }
  unfold bind at 1. unfold extractScheduleData.
  match goal with
  | |- context [makeRequestWithRetry w openaiService ?p 1 ?s2] =>
      destruct (makeRequestWithRetry_quiet w openaiService p 3 1 s2
                  ltac:(cbn; lia)) as (C & rC & -> & QC)
  end.
  destruct rC as [e | scheduleData].
  { (* the extractor threw *)
    unfold query. cbn [sent observe].
    destruct (query_throws w 2); unfold post; cbn [fst]; split;
      try (eapply (run_failed_eq
                     (A ++ EQuery (UpdateExtractedText extractedText
                                             text_extracted) true :: C));
           [now constructor | list_eq]);
      histories. }
  unfold bind at 1.
  match goal with
  | |- context [for_of scheduleData _ ?s3] =>
      destruct (for_of_inserts w scheduleData s3)
        as (I & tail & Htr & HI & Hrow & Hres);
      destruct (for_of scheduleData
                  (fun item => query w (InsertAssignment item)) s3)
        as [s4 r4]
  end.
  cbn [fst snd] in Htr, Hrow, Hres. cbn in Htr, Hrow.
  destruct Hres as [[-> ->] | (item & message & -> & ->)].
  - (* every insert returned *)
    unfold query at 1.
    destruct (query_throws w (sent s4)) as [m4 |].
    + unfold query. cbn [sent].
      destruct (query_throws w (S (sent s4))); unfold post;
        cbn [fst trace store];
        rewrite Htr; split;
        try (eapply (run_failed_eq
               (A ++ EQuery (UpdateExtractedText extractedText
                                       text_extracted) true
                          :: C ++ I ++ [EQuery (UpdateStatus completed)
                                          false]));
             [now constructor | list_eq]);
        cbn [exec update_file uploaded_file]; rewrite ?Hrow;
        histories.
    + unfold post. cbn [fst trace store]. rewrite Htr. split.
      * eapply (run_done_eq
               (A ++ EQuery (UpdateExtractedText extractedText
                                       text_extracted) true
                          :: C ++ I ++ [EQuery (UpdateStatus completed)
                                          true]));
          [now constructor | list_eq].
      * cbn [exec update_file uploaded_file]. rewrite Hrow.
        histories.
  - (* an insert threw *)
    unfold query.
    destruct (query_throws w (sent s4)); unfold post;
      cbn [fst trace store]; rewrite Htr; split;
      try (eapply (run_failed_eq
             (A ++ EQuery (UpdateExtractedText extractedText
                                     text_extracted) true
                        :: C ++ I ++ [EQuery (InsertAssignment item)
                                        false]));
           [now constructor | list_eq]);
      cbn [exec update_file uploaded_file]; rewrite ?Hrow;
      histories.
Qed.

Ltac traces :=
  cbn;
  repeat first
    [ rewrite status_history_app
    | rewrite after_failure_quiet by assumption
    | rewrite after_failure_inserts by assumption
    | rewrite before_failure_quiet by assumption
    | rewrite before_failure_inserts by assumption
    | match goal with
      | H : quiet _ = true |- _ => rewrite (status_history_quiet _ H)
      | H : forallb is_insert _ = true |- _ =>
          rewrite (status_history_inserts _ H)
      end
    | rewrite <- app_assoc
    | rewrite app_nil_r
    | progress cbn ].

(** The statuses that a run can write, in order. *)
Lemma run_trace_history tr :
  run_trace tr ->
  In (status_history tr)
     [ []; [processing]; [processing; failed];
       [processing; text_extracted];
       [processing; text_extracted; failed];
       [processing; text_extracted; completed] ].
Proof.
  intros H. destruct H as [| main Hm | main e ok Hm].
  - cbn. auto.
  - inversion Hm; subst. traces. auto 10.
  - inversion Hm; subst; destruct ok; traces; auto 10.
Qed.

(** C1.  In the run of a file the status moves only from one that is
    not terminal: nothing follows [completed] or [failed]; [failed] is
    entered from [processing] or from [text_extracted] only; and any other
    move goes up in the order pending, processing, text_extracted,
    completed. *)
Theorem status_never_regresses (w : world)
  (filePath mimeType originalName : jsstring) (a b : status) :
  In (a, b)
     (transitions
        (status_history
           (trace (fst (upload w filePath mimeType originalName start))))) ->
  terminal a = false
  /\ (b = failed -> a = processing \/ a = text_extracted)
  /\ (b <> failed -> rank a <= rank b).
Proof.
  destruct (upload_run w filePath mimeType originalName) as [Hshape _].
  apply run_trace_history in Hshape.
  cbn [In] in Hshape.
  repeat (destruct Hshape as [<- | Hshape]); try contradiction;
    cbn [transitions In]; intros H;
    repeat (destruct H as [H | H]); try contradiction;
    injection H as <- <-; cbn; repeat split; auto; try congruence; lia.
Qed.

Lemma status_never_regresses_witness :
  terminal text_extracted = false
  /\ (completed = failed -> text_extracted = processing
                            \/ text_extracted = text_extracted)
  /\ (completed <> failed -> rank text_extracted <= rank completed).
Proof.
  apply (status_never_regresses sample_world (js "uploads/notes.txt")
           (js "text/plain") (js "notes.txt")).
  vm_compute. right. left. reflexivity.
Defined.

Lemma last_status_last h st : last_status (h ++ [st]) = Some st.
Proof.
  induction h as [| x h IH]; [reflexivity |].
  cbn [app last_status]. destruct (h ++ [st]) eqn:E; [| exact IH].
  destruct h; discriminate.
Qed.

(** What a run does after the first query that threw. *)
Lemma run_trace_failure tr q post :
  run_trace tr -> after_failure tr = Some (q, post) ->
  match q with
  | InsertFile _ | UpdateStatusError _ _ =>
      post = [] /\ status_history tr = status_history (before_failure tr)
  | _ =>
      exists e ok,
        post = [EQuery (UpdateStatusError failed e) ok]
        /\ status_history tr
           = status_history (before_failure tr)
             ++ (if ok then [failed] else [])
  end.
Proof.
  intros H. destruct H as [| main Hm | main e ok Hm].
  - cbn. intros E. injection E as <- <-. now split.
  - inversion Hm; subst. traces. discriminate.
  - inversion Hm; subst; try destruct ok; traces; intros E;
      try discriminate; injection E as <- <-;
      first [ now split | eexists _, _; split; reflexivity ].
Qed.

(** C6, as the code has it.  When a query of the run throws, no further
    stage runs.  After a write of the [try] block that threw, the run
    sends one more write, the one of the [catch] block that sets the
    status to [failed] with the error: if this write returns, the status
    in the row is [failed]; if it throws as well, nothing more is sent and
    the status in the row is the last one written before.  After the
    insert of the row or the write of the [catch] block itself nothing
    more is sent, and the status written last stands. *)
Theorem failed_write_marks_failed (w : world)
  (filePath mimeType originalName : jsstring) (q : sql) (post : list event) :
  let s' := fst (upload w filePath mimeType originalName start) in
  let row_status :=
    option_map processing_status (uploaded_file (store s')) in
  let durable := last_status (status_history (before_failure (trace s'))) in
  after_failure (trace s') = Some (q, post) ->
  match q with
  | InsertFile _ | UpdateStatusError _ _ =>
      post = [] /\ row_status = durable
  | _ =>
      exists e ok,
        post = [EQuery (UpdateStatusError failed e) ok]
        /\ row_status = if ok then Some failed else durable
  end.
Proof.
  intros s' row_status durable Hfail.
  destruct (upload_run w filePath mimeType originalName)
    as [Hshape Hstatus].
  fold s' in Hshape, Hstatus. fold row_status in Hstatus.
  pose proof (run_trace_failure (trace s') q post Hshape Hfail) as H.
  subst durable. rewrite Hstatus.
  destruct q; try (destruct H as [-> ->]; now split);
    destruct H as (e & ok & -> & ->); exists e, ok;
    (split; [reflexivity |]); destruct ok;
    [apply last_status_last | now rewrite app_nil_r
    | apply last_status_last | now rewrite app_nil_r
    | apply last_status_last | now rewrite app_nil_r ].
Qed.

Lemma failed_write_marks_failed_witness :
  exists e ok,
    [EQuery (UpdateStatusError failed (Thrown (js "connection terminated")))
       true]
    = [EQuery (UpdateStatusError failed e) ok]
    /\ option_map processing_status
         (uploaded_file
            (store (fst (upload failing_database (js "uploads/notes.txt")
                           (js "text/plain") (js "notes.txt") start))))
       = if ok then Some failed
         else last_status
                (status_history
                   (before_failure
                      (trace (fst (upload failing_database
                                     (js "uploads/notes.txt")
                                     (js "text/plain") (js "notes.txt")
                                     start))))).
Proof.
  apply (failed_write_marks_failed failing_database (js "uploads/notes.txt")
           (js "text/plain") (js "notes.txt")
           (UpdateExtractedText (js "Math HW due 2024-03-05 in Room 12")
              text_extracted)
           [EQuery (UpdateStatusError failed
                      (Thrown (js "connection terminated"))) true]).
  reflexivity.
Defined.

(** C6, as stated, fails: when the update that stores the text throws,
    the run does write a status after it, and the row ends with the status
    [failed], not with [processing], the status written last before the
    write that threw. *)
Lemma failed_write_followed_by_status_write :
  let s' := fst (upload failing_database (js "uploads/notes.txt")
                   (js "text/plain") (js "notes.txt") start) in
  after_failure (trace s')
  = Some (UpdateExtractedText (js "Math HW due 2024-03-05 in Room 12")
            text_extracted,
          [EQuery (UpdateStatusError failed
                     (Thrown (js "connection terminated"))) true])
  /\ last_status (status_history (before_failure (trace s')))
     = Some processing
  /\ option_map processing_status (uploaded_file (store s')) = Some failed.
Proof. repeat split. Qed.

(** ** The scenarios of the specification *)

(** A content type outside the table: the file fails at once, no strategy
    is entered and the model is not called. *)
Example upload_zip :
  fst (upload sample_world (js "uploads/a.zip") (js "application/zip")
         (js "a.zip") start)
  = {| store :=
         {| uploaded_file :=
              Some {| processing_status := failed;
                      processing_error :=
                        Some (UnsupportedFileType (js "application/zip"));
                      extracted_text := None |};
            assignments := [] |};
       sent := 2;
       trace :=
         [EQuery (InsertFile processing) true;
          EQuery (UpdateStatusError failed
                    (UnsupportedFileType (js "application/zip"))) true] |}.
Proof. reflexivity. Qed.

(** An item dated the 30th of February is stored without a date, and the
    file is completed. *)
Example upload_invalid_date :
  store (fst (upload sample_world (js "uploads/notes.txt") (js "text/plain")
                (js "notes.txt") start))
  = {| uploaded_file :=
         Some {| processing_status := completed;
                 processing_error := None;
                 extracted_text :=
                   Some (js "Math HW due 2024-03-05 in Room 12") |};
       assignments :=
         [ {| assignment := js "X"; due_date := None; location := None;
              source := js "f" |} ] |}.
Proof. reflexivity. Qed.

(** Three answers that do not parse: the file fails with the error of the
    third attempt. *)
Example upload_not_json :
  uploaded_file
    (store (fst (upload (with_JSON_parse (fun _ => None) sample_world)
                   (js "uploads/notes.txt") (js "text/plain")
                   (js "notes.txt") start)))
  = Some {| processing_status := failed;
            processing_error :=
              Some (RequestFailedAfter 3 (InvalidJSONResponse SyntaxError));
            extracted_text :=
              Some (js "Math HW due 2024-03-05 in Room 12") |}.
Proof. reflexivity. Qed.

(** A document without text and an empty array as answer: the file is
    completed with no assignment. *)
Example upload_empty_pdf :
  store (fst (upload (with_JSON_parse (fun _ => Some (JArray []))
                        sample_world)
                (js "uploads/scan.pdf") (js "application/pdf")
                (js "scan.pdf") start))
  = {| uploaded_file :=
         Some {| processing_status := completed;
                 processing_error := None;
                 extracted_text := Some [] |};
       assignments := [] |}.
Proof. reflexivity. Qed.

(** A transport error on the first attempt and an answer on the second:
    one wait of a second, and the file is completed. *)
Example upload_retry :
  trace (fst (upload
                (with_completions
                   (fun attempt _ =>
                      if attempt =? 1 then inl (Thrown (js "ECONNRESET"))
                      else inr (Some (js "[ ... ]")))
                   sample_world)
                (js "uploads/notes.txt") (js "text/plain") (js "notes.txt")
                start))
  = [ EQuery (InsertFile processing) true;
      EStrategy text;
      EQuery (UpdateExtractedText (js "Math HW due 2024-03-05 in Room 12")
                text_extracted) true;
      ERequest 1; ESleep 1000; ERequest 2;
      EQuery (InsertAssignment
                {| assignment := js "X"; due_date := None; location := None;
                   source := js "f" |}) true;
      EQuery (UpdateStatus completed) true ].
Proof. reflexivity. Qed.

(** * Further properties *)

(** ** What [cleanText] keeps *)

Lemma visible_app a b : visible (a ++ b) = visible a ++ visible b.
Proof. apply filter_app. Qed.

Lemma visible_cons x s : visible (x :: s) = visible [x] ++ visible s.
Proof. apply (visible_app [x] s). Qed.

Lemma visible_white s : forallb is_white s = true -> visible s = [].
Proof.
  induction s as [| x s IH]; [reflexivity |].
  cbn. intros H. apply andb_true_iff in H. destruct H as [Hx Hs].
  rewrite Hx. cbn. now apply IH.
Qed.

Lemma replace_crlf_visible s : visible (replace_crlf s) = visible s.
Proof.
  enough (H : forall n s, List.length s <= n ->
                          visible (replace_crlf s) = visible s)
    by (apply (H (List.length s)); lia).
  clear s. induction n as [| n IH]; intros s Hn.
  - destruct s; [reflexivity | cbn in Hn; lia].
  - destruct s as [| c r]; [reflexivity |].
    cbn [replace_crlf]. cbn [List.length] in Hn.
    destruct (N.eqb_spec c CR) as [-> | Hc].
    + destruct r as [| d r']; [reflexivity |].
      cbn [List.length] in Hn.
      destruct (N.eqb_spec d LF) as [-> | Hd].
      * rewrite (visible_cons LF), (visible_cons CR), (visible_cons LF r').
        rewrite (IH r') by lia. reflexivity.
      * rewrite (visible_cons CR), (visible_cons CR (d :: r')).
        rewrite (IH (d :: r')) by (cbn; lia). reflexivity.
    + rewrite (visible_cons c), (visible_cons c r).
      rewrite (IH r) by lia. reflexivity.
Qed.

Lemma replace_char_visible c d s :
  is_white c = true -> is_white d = true ->
  visible (replace_char c d s) = visible s.
Proof.
  intros Hc Hd. induction s as [| x s IH]; [reflexivity |].
  change (replace_char c d (x :: s))
    with ((if (x =? c)%N then d else x) :: replace_char c d s).
  rewrite visible_cons, (visible_cons x s), IH. f_equal.
  destruct (N.eqb_spec x c) as [-> | Hx]; [| reflexivity].
  cbn. now rewrite Hc, Hd.
Qed.

Lemma flush_run_white c min rep k :
  is_white c = true -> forallb is_white rep = true ->
  forallb is_white (flush_run c min rep k) = true.
Proof.
  intros Hc Hrep. unfold flush_run. destruct (min <=? k); [exact Hrep |].
  induction k; [reflexivity | cbn; now rewrite Hc].
Qed.

Lemma scan_runs_visible c min rep s : forall k,
  is_white c = true -> forallb is_white rep = true ->
  visible (scan_runs c min rep k s) = visible s.
Proof.
  induction s as [| x s IH]; intros k Hc Hrep; cbn [scan_runs].
  - apply visible_white. now apply flush_run_white.
  - destruct (N.eqb_spec x c) as [-> | Hx].
    + rewrite IH by assumption. rewrite (visible_cons c s).
      replace (visible [c]) with (@nil char); [reflexivity |].
      cbn. now rewrite Hc.
    + rewrite visible_app,
        (visible_white _ (flush_run_white c min rep k Hc Hrep)).
      cbn [app]. rewrite visible_cons, (visible_cons x s).
      now rewrite IH.
Qed.

Lemma dropWhile_visible s : visible (dropWhile is_white s) = visible s.
Proof.
  induction s as [| x s IH]; [reflexivity |].
  cbn [dropWhile]. destruct (is_white x) eqn:E; [| reflexivity].
  rewrite IH, (visible_cons x s).
  replace (visible [x]) with (@nil char); [reflexivity |].
  cbn. now rewrite E.
Qed.

Lemma dropWhileEnd_visible s : visible (dropWhileEnd is_white s) = visible s.
Proof.
  induction s as [| x s IH]; [reflexivity |].
  cbn [dropWhileEnd]. rewrite (visible_cons x s), <- IH.
  destruct (dropWhileEnd is_white s) as [| y r].
  - destruct (is_white x) eqn:Ex.
    + cbn. now rewrite Ex.
    + now rewrite app_nil_r.
  - apply visible_cons.
Qed.

(** The six steps of [cleanText], each of which keeps the characters
    that are not white space. *)
Lemma cleanText_steps_visible t :
  visible (cleanText t) = visible t.
Proof.
  unfold cleanText. destruct t as [| x t]; [reflexivity |].
  unfold trim, replace_runs.
  rewrite dropWhileEnd_visible, dropWhile_visible.
  rewrite !scan_runs_visible by reflexivity.
  rewrite replace_char_visible by reflexivity.
  apply replace_crlf_visible.
Qed.

(** X1.  [cleanText] touches white space only: the characters of the
    text that are not white space come out all, and in the same order. *)
Theorem cleanText_visible (t : jsstring) :
  visible (cleanText t) = visible t.
Proof. apply cleanText_steps_visible. Qed.

(** X2.  A text of white space only is cleaned to the empty text. *)
Theorem cleanText_blank (t : jsstring) :
  forallb is_white t = true -> cleanText t = [].
Proof.
  intros H. pose proof (cleanText_steps_visible t) as Hv.
  rewrite (visible_white t H) in Hv.
  pose proof (cleanText_clean t) as Hc. unfold clean in Hc.
  apply andb_true_iff in Hc. destruct Hc as [_ Ht].
  destruct (cleanText t) as [| x r]; [reflexivity |].
  cbn in Ht. apply andb_true_iff in Ht. destruct Ht as [Hx _].
  cbn in Hv. apply negb_true_iff in Hx. rewrite Hx in Hv. discriminate.
Qed.

Lemma cleanText_blank_witness :
  cleanText [SP; TAB; CR; LF; LF; SP] = [].
Proof. apply cleanText_blank. reflexivity. Defined.

Lemma replace_crlf_length s :
  List.length (replace_crlf s) <= List.length s.
Proof.
  enough (H : forall n s, List.length s <= n ->
                          List.length (replace_crlf s) <= List.length s)
    by (apply (H (List.length s)); lia).
  clear s. induction n as [| n IH]; intros s Hn.
  - destruct s; [cbn; lia | cbn in Hn; lia].
  - destruct s as [| c r]; [cbn; lia |].
    cbn [replace_crlf]. cbn [List.length] in Hn.
    destruct (c =? CR)%N.
    + destruct r as [| d r']; [cbn; lia |].
      cbn [List.length] in Hn.
      destruct (d =? LF)%N.
      * cbn [List.length]. specialize (IH r' ltac:(lia)). lia.
      * cbn [List.length]. specialize (IH (d :: r') ltac:(cbn; lia)).
        cbn [List.length] in IH. lia.
    + cbn [List.length]. specialize (IH r ltac:(lia)). lia.
Qed.

Lemma scan_runs_length c min rep s : forall k,
  List.length rep <= min ->
  List.length (scan_runs c min rep k s) <= k + List.length s.
Proof.
  intros k Hrep.
  assert (Hf : forall j, List.length (flush_run c min rep j) <= j).
  { intros j. unfold flush_run. destruct (Nat.leb_spec min j); [lia |].
    now rewrite repeat_length. }
  revert k. induction s as [| x s IH]; intros k; cbn [scan_runs].
  - specialize (Hf k). cbn. lia.
  - destruct (x =? c)%N.
    + specialize (IH (S k)). cbn [List.length]. lia.
    + rewrite length_app. cbn [List.length].
      specialize (IH 0). specialize (Hf k). lia.
Qed.

Lemma trim_length s : List.length (trim s) <= List.length s.
Proof.
  unfold trim.
  destruct (dropWhile_suffix is_white s) as [a Ha].
  destruct (dropWhileEnd_prefix is_white (dropWhile is_white s)) as [b Hb].
  rewrite Ha at 2. rewrite Hb at 2. rewrite !length_app. lia.
Qed.

(** X3.  [cleanText] never makes a text longer. *)
Theorem cleanText_length (t : jsstring) :
  List.length (cleanText t) <= List.length t.
Proof.
  unfold cleanText. destruct t as [| x t]; [cbn; lia |].
  etransitivity; [apply trim_length |].
  unfold replace_runs.
  etransitivity; [apply scan_runs_length; cbn; lia |].
  etransitivity; [apply scan_runs_length; cbn; lia |].
  etransitivity; [apply scan_runs_length; cbn; lia |].
  unfold replace_char. rewrite length_map. apply replace_crlf_length.
Qed.

(** ** The retry loop for any number of retries *)

Lemma retry_trace_cons delay attempt k :
  1 <= k ->
  ERequest attempt :: ESleep (delay * attempt)
    :: retry_trace delay (attempt + 1) k
  = retry_trace delay attempt (S k).
Proof.
  intros Hk. destruct k; [lia |]. cbn [retry_trace].
  now rewrite Nat.add_1_r.
Qed.

(** The loop unfolded: [k] attempts, the same in every state. *)
Lemma makeRequestWithRetry_attempts w this prompt : forall n attempt,
  maxRetries this - attempt <= n ->
  exists k,
    1 <= k
    /\ attempt + k <= Nat.max (attempt + 1) (maxRetries this + 1)
    /\ (forall j, attempt <= j < attempt + k - 1 ->
        exists e, outcome w prompt j = inl e)
    /\ (forall c, outcome w prompt (attempt + k - 1) = inl c ->
        maxRetries this <= attempt + k - 1)
    /\ forall s,
        makeRequestWithRetry w this prompt attempt s
        = (observe s (retry_trace (retryDelay this) attempt k),
           match outcome w prompt (attempt + k - 1) with
           | inr items => inr items
           | inl c => inl (RequestFailedAfter (maxRetries this) c)
           end).
Proof.
  induction n as [| n IH]; intros attempt Hn.
  - exists 1. replace (attempt + 1 - 1) with attempt by lia.
    repeat split; try lia.
    intros s. rewrite makeRequestWithRetry_step.
    destruct (outcome w prompt attempt); [| reflexivity].
    destruct (Nat.ltb_spec attempt (maxRetries this)); [lia | reflexivity].
  - destruct (outcome w prompt attempt) as [e | items] eqn:O.
    2: { exists 1. replace (attempt + 1 - 1) with attempt by lia.
         repeat split; try lia.
         - intros c Hc. congruence.
         - intros s. rewrite makeRequestWithRetry_step, O. reflexivity. }
    destruct (Nat.ltb_spec attempt (maxRetries this)) as [Hlt | Hge].
    2: { exists 1. replace (attempt + 1 - 1) with attempt by lia.
         repeat split; try lia.
         intros s. rewrite makeRequestWithRetry_step, O.
         destruct (Nat.ltb_spec attempt (maxRetries this)); [lia |].
         reflexivity. }
    destruct (IH (attempt + 1) ltac:(lia))
      as (k & Hk & Hbound & Hfail & Hlast & Hrun).
    exists (S k).
    replace (attempt + S k - 1) with (attempt + 1 + k - 1) by lia.
    repeat split; try lia.
    + intros j Hj. destruct (Nat.eq_dec j attempt) as [-> | Hne]; [eauto |].
      apply Hfail. lia.
    + exact Hlast.
    + intros s. rewrite makeRequestWithRetry_step, O.
      destruct (Nat.ltb_spec attempt (maxRetries this)); [| lia].
      rewrite Hrun, observe_observe. cbn [app].
      now rewrite retry_trace_cons.
Qed.

Lemma retry_trace_requests delay k : forall attempt,
  requests (retry_trace delay attempt k) = k.
Proof.
  induction k as [| k IH]; intros attempt; [reflexivity |].
  cbn [retry_trace requests]. destruct k; [reflexivity |].
  cbn [requests]. now rewrite IH.
Qed.

Lemma retry_trace_waited delay k : forall attempt,
  2 * waited (retry_trace delay attempt (S k)) + delay * k
  = delay * k * (2 * attempt + k).
Proof.
  induction k as [| k IH]; intros attempt.
  - cbn [retry_trace waited]. nia.
  - change (retry_trace delay attempt (S (S k)))
      with (ERequest attempt :: ESleep (delay * attempt)
              :: retry_trace delay (S attempt) (S k)).
    cbn [waited]. specialize (IH (S attempt)). nia.
Qed.

(** X4.  With any number of retries and any first attempt,
    [makeRequestWithRetry] makes [k] requests, one at least and, from an
    attempt within the retries, no more than the retries still open; each
    attempt before the [k]-th fails and is followed by a wait of the delay
    times its number; the call returns the items of the [k]-th attempt, or
    throws one error with its cause, and then the retries are used up.  An
    attempt beyond the retries is still made, once. *)
Theorem makeRequestWithRetry_bounded (w : world) (this : OpenAIService)
  (prompt : jsstring) (attempt : nat) (s : state) :
  exists k,
    1 <= k
    /\ attempt + k <= Nat.max (attempt + 1) (maxRetries this + 1)
    /\ fst (makeRequestWithRetry w this prompt attempt s)
       = observe s (retry_trace (retryDelay this) attempt k)
    /\ requests (retry_trace (retryDelay this) attempt k) = k
    /\ (forall j, attempt <= j < attempt + k - 1 ->
        exists e, outcome w prompt j = inl e)
    /\ match outcome w prompt (attempt + k - 1) with
       | inr items =>
           snd (makeRequestWithRetry w this prompt attempt s) = inr items
       | inl c =>
           maxRetries this <= attempt + k - 1
           /\ snd (makeRequestWithRetry w this prompt attempt s)
              = inl (RequestFailedAfter (maxRetries this) c)
       end.
Proof.
  destruct (makeRequestWithRetry_attempts w this prompt
              (maxRetries this - attempt) attempt (le_n _))
    as (k & Hk & Hbound & Hfail & Hlast & Hrun).
  exists k. rewrite Hrun. cbn [fst snd].
  repeat split; try assumption; try lia.
  - apply retry_trace_requests.
  - destruct (outcome w prompt (attempt + k - 1)) as [c | items];
      [split; [now apply (Hlast c) | reflexivity] | reflexivity].
Qed.

Lemma makeRequestWithRetry_bounded_witness :
  exists k,
    1 <= k
    /\ 1 + k <= Nat.max (1 + 1) (5 + 1)
    /\ fst (makeRequestWithRetry sample_world
              {| maxRetries := 5; retryDelay := 200 |} (js "p") 1 start)
       = observe start (retry_trace 200 1 k)
    /\ requests (retry_trace 200 1 k) = k
    /\ (forall j, 1 <= j < 1 + k - 1 ->
        exists e, outcome sample_world (js "p") j = inl e)
    /\ match outcome sample_world (js "p") (1 + k - 1) with
       | inr items =>
           snd (makeRequestWithRetry sample_world
                  {| maxRetries := 5; retryDelay := 200 |} (js "p") 1 start)
           = inr items
       | inl c =>
           5 <= 1 + k - 1
           /\ snd (makeRequestWithRetry sample_world
                     {| maxRetries := 5; retryDelay := 200 |} (js "p") 1
                     start)
              = inl (RequestFailedAfter 5 c)
       end.
Proof.
  exact (makeRequestWithRetry_bounded sample_world
           {| maxRetries := 5; retryDelay := 200 |} (js "p") 1 start).
Defined.

(** X5.  The waits of a call from the first attempt add up to at most
    the delay times [n (n - 1) / 2], where [n] is the limit of attempts:
    the backoff is linear and the total is bounded by the configuration
    alone, whatever the model answers. *)
Theorem makeRequestWithRetry_waits (w : world) (this : OpenAIService)
  (prompt : jsstring) :
  exists tr,
    (forall s, fst (makeRequestWithRetry w this prompt 1 s) = observe s tr)
    /\ 2 * waited tr
       <= retryDelay this * maxRetries this * (maxRetries this - 1).
Proof.
  destruct (makeRequestWithRetry_attempts w this prompt
              (maxRetries this - 1) 1 (le_n _))
    as (k & Hk & Hbound & _ & _ & Hrun).
  exists (retry_trace (retryDelay this) 1 k). split.
  - intros s. now rewrite Hrun.
  - destruct k as [| m]; [lia |].
    pose proof (retry_trace_waited (retryDelay this) m 1) as Hw.
    assert (Hm : m <= maxRetries this - 1) by lia.
    destruct (maxRetries this) as [| n].
    + replace m with 0 in * by lia. cbn [retry_trace waited]. lia.
    + replace (S n - 1) with n in * by lia.
      assert (Hmn : m * (m + 1) <= n * (n + 1)) by nia.
      assert (H2 : 2 * waited (retry_trace (retryDelay this) 1 (S m))
                   = retryDelay this * (m * (m + 1))) by nia.
      rewrite H2.
      replace (retryDelay this * S n * n)
        with (retryDelay this * (n * (n + 1))) by nia.
      now apply Nat.mul_le_mono_l.
Qed.

(** ** The items of an accepted response *)

Lemma nonempty_string_trim value :
  nonempty_string value = true ->
  trim (string_of value) <> [] /\ trimmed (trim (string_of value)) = true.
Proof.
  unfold nonempty_string, string_of.
  destruct value as [[| | | s | |] |]; try discriminate.
  intros H. apply negb_true_iff in H. split; [| apply trim_trimmed].
  intros E. rewrite E in H. discriminate.
Qed.

Lemma validateOptionalString_trimmed value l :
  validateOptionalString value = Some l -> l <> [] /\ trimmed l = true.
Proof.
  unfold validateOptionalString.
  destruct value as [[| | | s | |] |]; try discriminate.
  destruct (trim s) as [| x r] eqn:E; [discriminate |].
  cbn. intros H. injection H as <-. split; [discriminate |].
  rewrite <- E. apply trim_trimmed.
Qed.

(** X6.  An accepted response gives one item for each element of the
    parsed array, in the order of the array; the description and the
    source of every item are not empty and have no white space at either
    end, and so has its location unless it is [null]. *)
Theorem accepted_items_trimmed (w : world) (content : jsstring)
  (items : list schedule_item) :
  parseAndValidateResponse w content = inr items ->
  (exists elements,
      JSON_parse w (jsonString content) = Some (JArray elements)
      /\ items = map item_of elements)
  /\ Forall
       (fun item =>
          assignment item <> [] /\ trimmed (assignment item) = true
          /\ source item <> [] /\ trimmed (source item) = true
          /\ forall l, location item = Some l ->
                       l <> [] /\ trimmed l = true)
       items.
Proof.
  intros Hok. pose proof (parseAndValidateResponse_cases w content) as H.
  rewrite Hok in H.
  destruct (JSON_parse w (jsonString content)) as [[| | | | elements |] |];
    try discriminate.
  destruct (forallb valid_element elements) eqn:Hall; [| now destruct H].
  injection H as ->. split; [now exists elements |].
  apply Forall_forall. intros item Hin.
  apply in_map_iff in Hin. destruct Hin as [element [<- Hin]].
  rewrite forallb_forall in Hall. specialize (Hall element Hin).
  unfold valid_element in Hall.
  apply andb_true_iff in Hall. destruct Hall as [Hall Hs].
  apply andb_true_iff in Hall. destruct Hall as [_ Ha].
  destruct (nonempty_string_trim _ Ha) as [Ha1 Ha2].
  destruct (nonempty_string_trim _ Hs) as [Hs1 Hs2].
  unfold item_of. cbn [assignment source location].
  repeat split; try assumption;
    now apply (validateOptionalString_trimmed
                 (property element (js "location"))).
Qed.

Lemma accepted_items_trimmed_witness :
  (exists elements,
      JSON_parse sample_world (jsonString (js "[ ... ]"))
      = Some (JArray elements)
      /\ [item_of (sample_item JNull)] = map item_of elements)
  /\ Forall
       (fun item =>
          assignment item <> [] /\ trimmed (assignment item) = true
          /\ source item <> [] /\ trimmed (source item) = true
          /\ forall l, location item = Some l ->
                       l <> [] /\ trimmed l = true)
       [item_of (sample_item JNull)].
Proof.
  apply (accepted_items_trimmed sample_world (js "[ ... ]")).
  reflexivity.
Defined.

(** ** The array cut out of an answer *)

Lemma from_first_absent c s : ~ In c s -> from_first c s = [].
Proof.
  induction s as [| x s IH]; [reflexivity |].
  intros H. cbn [from_first]. destruct (N.eqb_spec x c) as [-> | _].
  - exfalso. apply H. now left.
  - apply IH. intros Hin. apply H. now right.
Qed.

Lemma from_first_found c pre r :
  ~ In c pre -> from_first c (pre ++ c :: r) = c :: r.
Proof.
  induction pre as [| x pre IH]; intros H.
  - cbn. now rewrite N.eqb_refl.
  - cbn [app from_first]. destruct (N.eqb_spec x c) as [-> | _].
    + exfalso. apply H. now left.
    + apply IH. intros Hin. apply H. now right.
Qed.

(** X7.  [jsonString] is the answer from its first opening bracket to
    its last closing bracket: of prose, an array and more prose, with no
    opening bracket in the prose before and no closing bracket in the
    prose after, the array alone is parsed.  An answer without an opening
    bracket, or without a closing bracket after the first opening one, is
    parsed whole. *)
Theorem jsonString_cut (pre mid post : jsstring) :
  ~ In LBRACKET pre ->
  (~ In RBRACKET post ->
   jsonString (pre ++ LBRACKET :: mid ++ RBRACKET :: post)
   = LBRACKET :: mid ++ [RBRACKET])
  /\ jsonString pre = pre
  /\ (~ In RBRACKET post ->
      jsonString (pre ++ LBRACKET :: post) = pre ++ LBRACKET :: post).
Proof.
  intros Hpre. unfold jsonString, match_array. repeat split.
  - intros Hpost. rewrite from_first_found by exact Hpre.
    change (LBRACKET :: mid ++ RBRACKET :: post)
      with ((LBRACKET :: mid) ++ RBRACKET :: post).
    rewrite rev_app_distr. cbn [rev]. rewrite <- app_assoc. cbn [app].
    rewrite from_first_found by (rewrite <- in_rev; exact Hpost).
    change (RBRACKET :: rev mid ++ [LBRACKET])
      with ([RBRACKET] ++ (rev mid ++ [LBRACKET])).
    rewrite rev_app_distr, rev_app_distr, rev_involutive. reflexivity.
  - now rewrite (from_first_absent LBRACKET pre Hpre).
  - intros Hpost. rewrite from_first_found by exact Hpre.
    rewrite from_first_absent; [reflexivity |].
    rewrite <- in_rev. intros [E | E]; [discriminate | contradiction].
Qed.

Ltac absent :=
  let H := fresh in
  intros H; cbn in H;
  repeat (destruct H as [H | H]; [discriminate |]); exact H.

Lemma jsonString_cut_witness :
  jsonString (js "Here you go: " ++ LBRACKET :: js "1, 2" ++ RBRACKET
              :: js " Done.")
  = LBRACKET :: js "1, 2" ++ [RBRACKET]
  /\ jsonString (js "no items") = js "no items".
Proof.
  split.
  - apply (proj1 (jsonString_cut (js "Here you go: ") (js "1, 2")
                    (js " Done.") ltac:(absent))).
    absent.
  - apply (proj1 (proj2 (jsonString_cut (js "no items") [] []
                           ltac:(absent)))).
Defined.

(** ** The ends of an upload *)

Lemma wrap_clean {A} f (r : result A) k t :
  (forall a, clean (k a) = true) -> wrap f r k = inr t -> clean t = true.
Proof.
  intros Hk. unfold wrap. destruct r as [e | a]; [discriminate |].
  intros H. injection H as <-. apply Hk.
Qed.

(** [processFile] in any state: the same events and the same result, one
    strategy at most, no request, and a text in clean form. *)
Lemma processFile_frame w filePath mimeType :
  exists A r,
    (forall s, processFile w filePath mimeType s = (observe s A, r))
    /\ quiet A = true /\ strategies A <= 1 /\ requests A = 0
    /\ (forall t, r = inr t -> clean t = true).
Proof.
  unfold processFile.
  assert (Hthrow : forall e : error,
    exists A r,
      (forall s, @throw jsstring e s = (observe s A, r))
      /\ quiet A = true /\ strategies A <= 1 /\ requests A = 0
      /\ (forall t, r = inr t -> clean t = true)).
  { intros e. exists [], (inl e).
    split; [intros s; unfold throw; now rewrite observe_nil |].
    repeat split; auto. discriminate. }
  assert (Hrun : forall A0 f (r0 : result A0) k,
    (forall a, clean (k a) = true) ->
    exists A r,
      (forall s, (emit (EStrategy f) ;;; lift (wrap f r0 k)) s
                 = (observe s A, r))
      /\ quiet A = true /\ strategies A <= 1 /\ requests A = 0
      /\ (forall t, r = inr t -> clean t = true)).
  { intros A0 f r0 k Hk. exists [EStrategy f], (wrap f r0 k).
    split; [intros s; apply strategy_events |].
    repeat split; auto. intros t Ht. exact (wrap_clean f r0 k t Hk Ht). }
  destruct (negb (truthy (get_property supportedTypes mimeType)));
    [apply Hthrow |].
  destruct (get_property supportedTypes mimeType) as [| t | name];
    try apply Hthrow.
  unfold processExcel, processWord, processPDF, processText, processImage.
  repeat match goal with
         | |- context [if ?b then _ else _] => destruct b
         end;
    first [apply Hthrow | apply Hrun; intros; apply cleanText_clean].
Qed.

Lemma retry_trace_quiet delay k : forall attempt,
  quiet (retry_trace delay attempt k) = true
  /\ strategies (retry_trace delay attempt k) = 0.
Proof.
  induction k as [| k IH]; intros attempt; [now split |].
  cbn [retry_trace]. destruct k; [now split |].
  destruct (IH (S attempt)) as [H1 H2]. cbn. now split.
Qed.

(** The extractor in any state: between one and three requests. *)
Lemma extractScheduleData_frame w extractedText fileName :
  exists k r,
    1 <= k <= 3
    /\ forall s,
        extractScheduleData w openaiService extractedText fileName s
        = (observe s (retry_trace 1000 1 k), r).
Proof.
  unfold extractScheduleData.
  destruct (makeRequestWithRetry_attempts w openaiService
              (prompt_of extractedText fileName) 2 1 ltac:(cbn; lia))
    as (k & Hk & Hbound & _ & _ & Hrun).
  cbn in Hbound. eexists k, _. split; [lia | exact Hrun].
Qed.

(** The loop over the items: the inserts that returned are a prefix of
    the items, and they are what is added to the table. *)
Lemma for_of_inserts_prefix w items : forall s,
  exists k tail,
    k <= List.length items
    /\ trace (fst (for_of items (fun item => query w (InsertAssignment item))
                     s))
       = trace s ++ map insert_event (firstn k items) ++ tail
    /\ uploaded_file
         (store (fst (for_of items
                        (fun item => query w (InsertAssignment item)) s)))
       = uploaded_file (store s)
    /\ assignments
         (store (fst (for_of items
                        (fun item => query w (InsertAssignment item)) s)))
       = assignments (store s) ++ firstn k items
    /\ ((snd (for_of items (fun item => query w (InsertAssignment item)) s)
         = inr tt /\ k = List.length items /\ tail = [])
        \/ exists item message,
            nth_error items k = Some item
            /\ snd (for_of items
                      (fun item => query w (InsertAssignment item)) s)
               = inl (Thrown message)
            /\ tail = [EQuery (InsertAssignment item) false]).
Proof.
  induction items as [| item items IH]; intros s.
  - exists 0, []. cbn. rewrite !app_nil_r.
    repeat (split; [reflexivity || lia |]). left. now repeat split.
  - cbn [for_of]. unfold bind at 1 2 3 4 5. unfold query at 1 3 5 7 9.
    destruct (query_throws w (sent s)) as [message |].
    + exists 0, [EQuery (InsertAssignment item) false]. cbn.
      rewrite !app_nil_r.
      repeat (split; [reflexivity || lia |]). right.
      now exists item, message.
    + match goal with
      | |- context [for_of items _ ?s1] =>
          destruct (IH s1)
            as (k & tail & Hk & Htr & Hrow & Hasg & Hres)
      end.
      exists (S k), tail.
      rewrite Htr, Hrow, Hasg. cbn. rewrite <- !app_assoc. cbn.
      repeat (split; [reflexivity || lia |]).
      destruct Hres as [(Hr & -> & ->) | (it & m & Hn & Hr & ->)].
      * left. now repeat split.
      * right. now exists it, m.
Qed.

(** An upload ends in one of the ways of [upload_end]. *)
Lemma upload_ends w filePath mimeType originalName :
  upload_end
    (trace (fst (processFile w filePath mimeType start)))
    (snd (processFile w filePath mimeType start))
    (fun t => trace (fst (extractScheduleData w openaiService t
                            originalName start)))
    (fun t => snd (extractScheduleData w openaiService t originalName start))
    (store (fst (upload w filePath mimeType originalName start)))
    (trace (fst (upload w filePath mimeType originalName start))).
Proof.
  destruct (processFile_frame w filePath mimeType)
    as (A & rA & HA & _).
  rewrite (HA start). cbn [fst snd observe trace start app].
  set (C := fun t => trace (fst (extractScheduleData w openaiService t
                                   originalName start))).
  set (answer := fun t => snd (extractScheduleData w openaiService t
                                 originalName start)).
  set (post := fun x : state * result unit =>
    upload_end A rA C answer (store (fst x)) (trace (fst x))).
  change (post (upload w filePath mimeType originalName start)).
  unfold upload, bind at 1, try_catch at 1, bind at 1.
  unfold query at 1. cbn [sent start].
  destruct (query_throws w 0) as [m0 |].
  { unfold post. cbn. now apply EndNoRow. }
  cbn [ret]. unfold processFileAsync, try_catch, bind at 1.
  rewrite HA.
  destruct rA as [e | extractedText].
  { unfold query. cbn [sent observe].
    destruct (query_throws w 1); unfold post; cbn [fst];
      (eapply EndStrategy; [.. | list_eq]; reflexivity). }
  unfold bind at 1. unfold query at 1. cbn [sent observe].
  destruct (query_throws w 1) as [m1 |].
  { unfold query. cbn [sent].
    destruct (query_throws w 2); unfold post; cbn [fst];
      (eapply EndText; [.. | list_eq]; reflexivity). }
  unfold bind at 1.
  destruct (extractScheduleData_frame w extractedText originalName)
    as (k & rC & Hk & HC).
  assert (EC : C extractedText = retry_trace 1000 1 k)
    by (unfold C; now rewrite HC).
  assert (Eanswer : answer extractedText = rC)
    by (unfold answer; now rewrite HC).
  rewrite HC.
  destruct rC as [e | scheduleData].
  { unfold query. cbn [sent observe].
    destruct (query_throws w 2); unfold post; cbn [fst];
      (eapply EndExtract; [.. | rewrite EC; list_eq];
       first [exact Eanswer | reflexivity]). }
  unfold bind at 1.
  match goal with
  | |- context [for_of scheduleData _ ?s3] =>
      destruct (for_of_inserts_prefix w scheduleData s3)
        as (n & tail & Hn & Htr & Hrow & Hasg & Hres);
      destruct (for_of scheduleData
                  (fun item => query w (InsertAssignment item)) s3)
        as [s4 r4]
  end.
  cbn [fst snd] in Htr, Hrow, Hasg, Hres. cbn in Htr, Hrow, Hasg.
  destruct s4 as [[row4 asg4] n4 tr4]. cbn in Htr, Hrow, Hasg. subst.
  destruct Hres as [(-> & -> & ->) | (item & message & Hitem & -> & ->)].
  - rewrite firstn_all.
    unfold query at 1. cbn [sent].
    destruct (query_throws w n4) as [m4 |].
    + unfold query. cbn [sent].
      destruct (query_throws w (S n4)); unfold post; cbn [fst];
        (eapply EndCompleted; [.. | rewrite EC; list_eq];
         first [exact Eanswer | reflexivity]).
    + unfold post. cbn [fst].
      eapply EndDone; [.. | rewrite EC; list_eq];
        first [exact Eanswer | reflexivity].
  - unfold query. cbn [sent].
    destruct (query_throws w n4); unfold post; cbn [fst];
      (eapply EndInsert; [.. | rewrite EC; list_eq];
       first [exact Eanswer | exact Hitem | reflexivity]).
Qed.

Lemma requests_app a b : requests (a ++ b) = requests a + requests b.
Proof.
  induction a as [| e a IH]; [reflexivity |].
  cbn. destruct e; cbn; now rewrite IH.
Qed.

Lemma strategies_app a b : strategies (a ++ b) = strategies a + strategies b.
Proof.
  induction a as [| e a IH]; [reflexivity |].
  cbn. destruct e; cbn; now rewrite IH.
Qed.

Lemma insert_events items :
  requests (map insert_event items) = 0
  /\ strategies (map insert_event items) = 0
  /\ status_history (map insert_event items) = [].
Proof. induction items as [| item items IH]; [now repeat split | exact IH]. Qed.

(** What the stages of an upload leave in the trace, for the counts and
    the statuses. *)
Lemma upload_stages w filePath mimeType originalName :
  let A := trace (fst (processFile w filePath mimeType start)) in
  let C := fun t => trace (fst (extractScheduleData w openaiService t
                                  originalName start)) in
  (quiet A = true /\ strategies A <= 1 /\ requests A = 0)
  /\ (forall t, snd (processFile w filePath mimeType start) = inr t ->
                clean t = true)
  /\ forall t, quiet (C t) = true /\ strategies (C t) = 0
               /\ 1 <= requests (C t) <= 3.
Proof.
  intros A C. subst A C.
  destruct (processFile_frame w filePath mimeType)
    as (A & rA & HA & QA & SA & RA & Hclean).
  rewrite (HA start). cbn [fst snd observe trace start app].
  split; [repeat split; assumption | split; [exact Hclean |]].
  intros t.
  destruct (extractScheduleData_frame w t originalName)
    as (k & rC & Hk & HC).
  rewrite (HC start). cbn [fst observe trace start app].
  rewrite retry_trace_requests.
  destruct (retry_trace_quiet 1000 k 1) as [Q S0].
  repeat split; try assumption; lia.
Qed.

Ltac counts :=
  repeat first
    [ rewrite requests_app | rewrite strategies_app
    | rewrite status_history_app
    | rewrite (proj1 (insert_events _))
    | rewrite (proj1 (proj2 (insert_events _)))
    | rewrite (proj2 (proj2 (insert_events _)))
    | match goal with
      | H : quiet _ = true |- _ => rewrite (status_history_quiet _ H)
      end
    | progress cbn [requests strategies status_history status_written app
                    In] ].

(** X8.  After an upload the row of the file has an error exactly when
    its status is [failed]; its status is never [pending]; and it has an
    extracted text exactly when the status [text_extracted] was written,
    also when the run failed later. *)
Theorem row_after_upload (w : world)
  (filePath mimeType originalName : jsstring) (row : file_row) :
  let s' := fst (upload w filePath mimeType originalName start) in
  uploaded_file (store s') = Some row ->
  (processing_error row <> None <-> processing_status row = failed)
  /\ processing_status row <> pending
  /\ (extracted_text row <> None
      <-> In text_extracted (status_history (trace s'))).
Proof.
  intros s' Hrow. subst s'.
  destruct (upload_stages w filePath mimeType originalName)
    as [[QA _] [_ HC]].
  pose proof (upload_ends w filePath mimeType originalName) as H.
  inversion H as
    [ d tr Ed Etr | e written d tr Et Ed Etr
    | t m written d tr Et Ed Etr | t e written d tr Et Ea Ed Etr
    | t items k item m written d tr Et Ea Hk Ed Etr
    | t items m written d tr Et Ea Ed Etr | t items d tr Et Ea Ed Etr ];
    try destruct (HC t) as [QC _];
    rewrite Ed in Hrow; clear Ed; rewrite Etr; clear Etr H;
    try discriminate; try destruct written;
    cbn in Hrow; injection Hrow as <-; cbn [processing_error
      processing_status extracted_text row_inserted row_with_text];
    counts;
    (split; [split; intros; congruence |]);
    (split; [discriminate |]);
    split; intros Hx; try congruence; try discriminate;
    cbn in Hx; intuition discriminate.
Qed.

Lemma row_after_upload_witness :
  (processing_error
     {| processing_status := completed; processing_error := None;
        extracted_text := Some (js "Math HW due 2024-03-05 in Room 12") |}
   <> None
   <-> completed = failed)
  /\ completed <> pending
  /\ (Some (js "Math HW due 2024-03-05 in Room 12") <> None
      <-> In text_extracted
            (status_history
               (trace (fst (upload sample_world (js "uploads/notes.txt")
                              (js "text/plain") (js "notes.txt") start))))).
Proof.
  apply (row_after_upload sample_world (js "uploads/notes.txt")
           (js "text/plain") (js "notes.txt")
           {| processing_status := completed; processing_error := None;
              extracted_text :=
                Some (js "Math HW due 2024-03-05 in Room 12") |}).
  reflexivity.
Defined.

Ltac upload_cases w filePath mimeType originalName :=
  let H := fresh "H" in
  pose proof (upload_ends w filePath mimeType originalName) as H;
  inversion H as
    [ d tr Ed Etr | e written d tr Et Ed Etr
    | t m written d tr Et Ed Etr | t e written d tr Et Ea Ed Etr
    | t items k item m written d tr Et Ea Hk Ed Etr
    | t items m written d tr Et Ea Ed Etr | t items d tr Et Ea Ed Etr ];
  clear H.

(** X9.  The text stored in the row is the text that the strategy
    returned for the file, and it is in clean form. *)
Theorem stored_text_is_clean (w : world)
  (filePath mimeType originalName : jsstring) (row : file_row)
  (text : jsstring) :
  uploaded_file (store (fst (upload w filePath mimeType originalName start)))
  = Some row ->
  extracted_text row = Some text ->
  snd (processFile w filePath mimeType start) = inr text
  /\ clean text = true /\ cleanText text = text.
Proof.
  intros Hrow Htext.
  destruct (upload_stages w filePath mimeType originalName)
    as [_ [Hclean _]].
  enough (E : snd (processFile w filePath mimeType start) = inr text).
  { split; [exact E |]. split; [now apply Hclean |].
    apply cleanText_fixed. now apply Hclean. }
  upload_cases w filePath mimeType originalName;
    rewrite Ed in Hrow; try discriminate; try destruct written;
    cbn in Hrow; injection Hrow as <-; cbn in Htext;
    try discriminate; injection Htext as <-; exact Et.
Qed.

Lemma stored_text_is_clean_witness :
  snd (processFile sample_world (js "uploads/notes.txt") (js "text/plain")
         start)
  = inr (js "Math HW due 2024-03-05 in Room 12")
  /\ clean (js "Math HW due 2024-03-05 in Room 12") = true
  /\ cleanText (js "Math HW due 2024-03-05 in Room 12")
     = js "Math HW due 2024-03-05 in Room 12".
Proof.
  apply (stored_text_is_clean sample_world (js "uploads/notes.txt")
           (js "text/plain") (js "notes.txt")
           {| processing_status := completed; processing_error := None;
              extracted_text :=
                Some (js "Math HW due 2024-03-05 in Room 12") |});
    reflexivity.
Defined.

(** X10.  The assignments stored by an upload are the first items that
    the extractor returned for the text of the file, in their order, and
    nothing else; they are all of the items when the file is completed.
    Nothing is stored when the strategy or the extractor threw. *)
Theorem stored_assignments (w : world)
  (filePath mimeType originalName : jsstring) :
  let d := store (fst (upload w filePath mimeType originalName start)) in
  match snd (processFile w filePath mimeType start) with
  | inl _ => assignments d = []
  | inr t =>
      match snd (extractScheduleData w openaiService t originalName start)
      with
      | inl _ => assignments d = []
      | inr items =>
          (exists k, assignments d = firstn k items)
          /\ (forall row,
                uploaded_file d = Some row ->
                processing_status row = completed ->
                assignments d = items)
      end
  end.
Proof.
  intros d. subst d.
  upload_cases w filePath mimeType originalName;
    rewrite Ed; clear Ed Etr; try rewrite Et;
    try rewrite Ea; cbn [assignments uploaded_file].
  - destruct (snd (processFile w filePath mimeType start)) as [| t];
      [reflexivity |].
    destruct (snd (extractScheduleData w openaiService t originalName start));
      [reflexivity |].
    split; [now exists 0 | discriminate].
  - reflexivity.
  - destruct (snd (extractScheduleData w openaiService t originalName start));
      [reflexivity |].
    split; [now exists 0 |].
    intros row Hrow. destruct written; injection Hrow as <-; discriminate.
  - reflexivity.
  - split; [now exists k |].
    intros row Hrow. destruct written; injection Hrow as <-; discriminate.
  - split; [exists (List.length items); now rewrite firstn_all | reflexivity].
  - split; [exists (List.length items); now rewrite firstn_all | reflexivity].
Qed.

Lemma stored_assignments_witness :
  let d :=
    store (fst (upload sample_world (js "uploads/notes.txt")
                  (js "text/plain") (js "notes.txt") start)) in
  (exists k,
      assignments d
      = firstn k [ {| assignment := js "X"; due_date := None;
                      location := None; source := js "f" |} ])
  /\ (forall row,
         uploaded_file d = Some row ->
         processing_status row = completed ->
         assignments d
         = [ {| assignment := js "X"; due_date := None;
                location := None; source := js "f" |} ]).
Proof.
  exact (stored_assignments sample_world (js "uploads/notes.txt")
           (js "text/plain") (js "notes.txt")).
Defined.

(** X11.  An upload enters one strategy at most and calls the model
    three times at most; the model is called in the runs that stored the
    text of the file, whatever the text, and in no other. *)
Theorem upload_calls (w : world) (filePath mimeType originalName : jsstring) :
  let tr := trace (fst (upload w filePath mimeType originalName start)) in
  strategies tr <= 1
  /\ requests tr <= 3
  /\ (1 <= requests tr <-> In text_extracted (status_history tr)).
Proof.
  intros tr. subst tr.
  destruct (upload_stages w filePath mimeType originalName)
    as [[QA [SA RA]] [_ HC]].
  upload_cases w filePath mimeType originalName;
    rewrite Etr; clear Ed Etr;
    try (destruct (HC t) as [QC [SC [RC1 RC3]]]);
    counts; rewrite ?RA, ?SC;
    try destruct written; counts;
    (split; [lia |]); (split; [lia |]);
    (split; [intros Hx; first [lia | cbn; tauto] | intros _; lia])
    || (split; [intros Hx; lia | intros Hx; cbn in Hx; intuition discriminate]).
Qed.

Lemma upload_calls_witness :
  let tr :=
    trace (fst (upload sample_world (js "uploads/notes.txt")
                  (js "text/plain") (js "notes.txt") start)) in
  strategies tr <= 1
  /\ requests tr <= 3
  /\ (1 <= requests tr <-> In text_extracted (status_history tr)).
Proof.
  exact (upload_calls sample_world (js "uploads/notes.txt")
           (js "text/plain") (js "notes.txt")).
Defined.

(** ** The filter of uploads and the router *)

Lemma string_eqb_sym a b : string_eqb a b = string_eqb b a.
Proof.
  unfold string_eqb.
  destruct (list_eq_dec N.eq_dec a b), (list_eq_dec N.eq_dec b a);
    congruence.
Qed.

Lemma own_property_keys props key :
  existsb (fun k => string_eqb k key) (map fst props)
  = match own_property props key with Some _ => true | None => false end.
Proof.
  induction props as [| [k v] props IH]; [reflexivity |].
  cbn [map fst existsb own_property].
  destruct (string_eqb k key); [reflexivity | exact IH].
Qed.

Lemma accepted_own_property mimetype :
  fileFilter mimetype = Accept ->
  match own_property supportedTypes mimetype with
  | Some _ => true
  | None => false
  end = true.
Proof.
  unfold fileFilter, getSupportedTypes. rewrite own_property_keys.
  destruct (own_property supportedTypes mimetype);
    [reflexivity | discriminate].
Qed.

(** X12.  The filter of the upload route and [isSupported] agree: a
    type is accepted for upload exactly when it is an own key of the
    table, though one goes through [Object.keys] and the other through
    [hasOwnProperty]. *)
Theorem fileFilter_isSupported (mimetype : jsstring) :
  fileFilter mimetype = Accept <-> isSupported mimetype = true.
Proof.
  unfold fileFilter, isSupported, hasOwnProperty, getSupportedTypes.
  rewrite own_property_keys.
  destruct (own_property supportedTypes mimetype); split;
    congruence || discriminate.
Qed.

(** X13.  A file that the filter accepted is never refused by
    [processFile]: in any state one strategy is entered, and an error, if
    there is one, is the failure of that strategy with its cause. *)
Theorem accepted_file_is_processed (w : world)
  (filePath mimetype : jsstring) :
  fileFilter mimetype = Accept ->
  exists f,
    forall s,
      fst (processFile w filePath mimetype s) = observe s [EStrategy f]
      /\ forall e, snd (processFile w filePath mimetype s) = inl e ->
                   exists cause, e = ProcessingFailed f cause.
Proof.
  intros H. apply accepted_own_property in H.
  destruct (own_property supportedTypes mimetype) as [v |] eqn:E;
    [| discriminate].
  pose proof (own_property_in _ _ _ E) as Hin. clear E H.
  unfold supportedTypes in Hin. cbn [In] in Hin.
  repeat (destruct Hin as [Hin | Hin];
          [injection Hin as <- <-; eexists; intros s;
           (split; [reflexivity |]); intros e;
           unfold processFile; cbn;
           match goal with
           | |- context [wrap _ ?r _] => destruct r
           end; cbn; intros He; [injection He as <-; eauto | discriminate]
          |]).
  contradiction.
Qed.

Lemma accepted_file_is_processed_witness :
  exists f,
    forall s,
      fst (processFile sample_world (js "uploads/notes.txt")
             (js "text/plain") s)
      = observe s [EStrategy f]
      /\ forall e,
           snd (processFile sample_world (js "uploads/notes.txt")
                  (js "text/plain") s) = inl e ->
           exists cause, e = ProcessingFailed f cause.
Proof.
  apply (accepted_file_is_processed sample_world (js "uploads/notes.txt")
           (js "text/plain")).
  reflexivity.
Defined.

(** ** The calendar *)

Definition well_numbered (b : built_query) : Prop :=
  placeholders (whereClause b) = seq 1 (List.length (queryParams b))
  /\ paramCount b = List.length (queryParams b).

Lemma placeholders_app q r :
  placeholders (q ++ r) = placeholders q ++ placeholders r.
Proof.
  induction q as [| [t | n] q IH]; cbn; [reflexivity | exact IH |].
  now rewrite IH.
Qed.

Lemma add_filter_well_numbered comparison v b :
  well_numbered b -> well_numbered (add_filter comparison v b).
Proof.
  intros [Hq Hn]. unfold add_filter.
  destruct (given v); [| now split].
  split; cbn [whereClause queryParams paramCount].
  - rewrite placeholders_app, Hq, length_app, Nat.add_comm.
    cbn [List.length Nat.add]. rewrite seq_S, Hn. reflexivity.
  - rewrite length_app, Hn, Nat.add_comm. reflexivity.
Qed.

(** X14.  In the filter of the calendar route the placeholders are
    numbered from 1 in the order of the parameters, one for each; the
    user is bound to the first, and each date that was given is bound to
    the placeholder of its own comparison, whether or not the other date
    was given.  A date that is absent or empty adds nothing. *)
Theorem calendar_filter_binds (userId : jsstring)
  (startDate endDate : option jsstring) :
  let b := calendar_filter userId startDate endDate in
  well_numbered b
  /\ bound_after (js "WHERE a.user_id = ") b = Some userId
  /\ bound_after (js " AND a.due_date >= ") b
     = (if given startDate then startDate else None)
  /\ bound_after (js " AND a.due_date <= ") b
     = (if given endDate then endDate else None)
  /\ List.length (queryParams b)
     = 1 + (if given startDate then 1 else 0)
         + (if given endDate then 1 else 0).
Proof.
  intros b. split.
  - subst b. unfold calendar_filter.
    do 2 apply add_filter_well_numbered. now split.
  - subst b.
    destruct startDate as [[| c s] |], endDate as [[| c' s'] |];
      vm_compute; repeat split; reflexivity.
Qed.

Lemma string_eqb_nil c s : string_eqb (c :: s) [] = false.
Proof.
  destruct (string_eqb (c :: s) []) eqn:E; [| reflexivity].
  apply string_eqb_eq in E. discriminate.
Qed.

Lemma string_eqb_head c d s r :
  c <> d -> string_eqb (c :: s) (d :: r) = false.
Proof.
  intros H. destruct (string_eqb (c :: s) (d :: r)) eqn:E; [| reflexivity].
  apply string_eqb_eq in E. congruence.
Qed.

Lemma filter_flat_map {A B} (f : B -> bool) (g : A -> list B) l :
  filter f (flat_map g l) = flat_map (fun x => filter f (g x)) l.
Proof.
  induction l as [| x l IH]; [reflexivity |].
  cbn [flat_map]. now rewrite filter_app, IH.
Qed.

Lemma count_line_app l a b :
  count_line l (a ++ b) = count_line l a + count_line l b.
Proof. unfold count_line. now rewrite filter_app, length_app. Qed.

(** The lines that an event keeps: ten, and the location where there is
    one. *)
Lemma event_lines_kept timestamp event :
  let kept :=
    filter (fun line => negb (string_eqb line []))
      (event_lines timestamp event) in
  count_line (js "BEGIN:VEVENT") kept = 1
  /\ count_line (js "END:VEVENT") kept = 1
  /\ List.length kept = 10 + (if given (event_location event) then 1 else 0).
Proof.
  unfold event_lines, count_line.
  generalize (remove_chars [HYPHEN]
                (toISOString_date (event_due_date event))).
  intros dateStr.
  destruct (event_location event) as [[| c l] |];
    cbn; repeat split; reflexivity.
Qed.

Lemma events_lines_kept timestamp events :
  let kept :=
    flat_map
      (fun event =>
         filter (fun line => negb (string_eqb line []))
           (event_lines timestamp event)) events in
  count_line (js "BEGIN:VEVENT") kept = List.length events
  /\ count_line (js "END:VEVENT") kept = List.length events
  /\ List.length kept
     = 10 * List.length events
       + List.length
           (filter (fun event => given (event_location event)) events).
Proof.
  induction events as [| event events IH]; [now cbn |].
  destruct IH as (B & E & L).
  destruct (event_lines_kept timestamp event) as (B1 & E1 & L1).
  cbn [flat_map filter].
  rewrite !count_line_app, length_app, B, E, L, B1, E1, L1.
  destruct (given (event_location event)); cbn [List.length]; lia.
Qed.

(** X15.  The calendar that is sent has one [BEGIN:VEVENT] line and one
    [END:VEVENT] line for each event; an event takes ten lines, and one
    more when it has a location that is not empty; the calendar opens
    with [BEGIN:VCALENDAR], closes with [END:VCALENDAR], and none of the
    lines that are joined is empty. *)
Theorem calendar_lines_events (now first_name : jsstring)
  (events : list calendar_event) :
  let lines := calendar_lines now first_name events in
  count_line (js "BEGIN:VEVENT") lines = List.length events
  /\ count_line (js "END:VEVENT") lines = List.length events
  /\ List.length lines
     = 8 + 10 * List.length events
       + List.length
           (filter (fun event => given (event_location event)) events)
  /\ hd_error lines = Some (js "BEGIN:VCALENDAR")
  /\ last lines [] = js "END:VCALENDAR"
  /\ Forall (fun line => line <> []) lines.
Proof.
  intros lines.
  assert (Hne : Forall (fun line => line <> []) lines).
  { apply Forall_forall. intros l H. apply filter_In in H.
    destruct H as [_ H]. intros ->. discriminate H. }
  subst lines. unfold calendar_lines in *.
  rewrite !filter_app, filter_flat_map in *.
  match goal with
  | |- context [flat_map ?f events] =>
      destruct (events_lines_kept
                  (before_first DOT (remove_chars [HYPHEN; COLON] now)
                   ++ js "Z") events) as (B & E & L);
      set (body := flat_map f events) in *
  end.
  clearbody body.
  match goal with
  | |- context [filter ?f [?a] ] => set (footer := filter f [a]) in *
  end.
  match goal with
  | |- context [filter ?f (?a :: ?r) ++ _] =>
      set (header := filter f (a :: r)) in *
  end.
  assert (Hf : footer = [js "END:VCALENDAR"]) by reflexivity.
  assert (Hh : count_line (js "BEGIN:VEVENT") header = 0
               /\ count_line (js "END:VEVENT") header = 0
               /\ List.length header = 7
               /\ exists r, header = js "BEGIN:VCALENDAR" :: r).
  { subst header. cbn. repeat split. eexists. reflexivity. }
  destruct Hh as (Bh & Eh & Lh & r & Hh).
  clearbody header footer.
  rewrite !count_line_app, !length_app, B, E, L, Bh, Eh, Lh.
  subst footer.
  repeat split; try (cbn; lia); try exact Hne.
  - subst header. reflexivity.
  - rewrite app_assoc. apply last_last.
Qed.

Lemma digit_not_hyphen c :
  is_digit c = true -> negb (existsb (N.eqb c) [HYPHEN]) = true.
Proof.
  unfold is_digit, HYPHEN. intros H.
  apply andb_true_iff in H. destruct H as [H _].
  apply N.leb_le in H. cbn [existsb].
  destruct (N.eqb_spec c 45); [lia | reflexivity].
Qed.

(** X16.  A date that [validateDate] accepted appears in the calendar as
    its eight digits: an event whose date has the time value of the
    accepted string has the lines [DTSTART] and [DTEND] with the year,
    month and day of the string, without the hyphens. *)
Theorem validated_date_in_calendar (value : option json) (s : jsstring)
  (t : Z) (now first_name : jsstring) (events : list calendar_event)
  (event : calendar_event) :
  validateDate value = Some s ->
  Date_new s = Some t ->
  In event events ->
  event_due_date event = t ->
  let dateStr := remove_chars [HYPHEN] s in
  In (js "DTSTART;VALUE=DATE:" ++ dateStr)
     (calendar_lines now first_name events)
  /\ In (js "DTEND;VALUE=DATE:" ++ dateStr)
        (calendar_lines now first_name events)
  /\ List.length dateStr = 8
  /\ forallb is_digit dateStr = true.
Proof.
  intros Hv Hd Hin Ht dateStr.
  pose proof (validateDate_round_trips value) as H.
  rewrite Hv in H. destruct H as [H | (s0 & t0 & Hs & R & D & I)];
    [discriminate |].
  injection Hs as <-. rewrite Hd in D. injection D as <-.
  assert (Hlines :
            forall line,
              In line (event_lines
                         (before_first DOT
                            (remove_chars [HYPHEN; COLON] now) ++ js "Z")
                         event) ->
              line <> [] ->
              In line (calendar_lines now first_name events)).
  { intros line Hl Hne. unfold calendar_lines. apply filter_In. split.
    - apply in_or_app. right. apply in_or_app. left.
      apply in_flat_map. exists event. now split.
    - destruct line; [contradiction |]. now rewrite string_eqb_nil. }
  split; [| split].
  - apply Hlines; [| discriminate].
    unfold event_lines. rewrite Ht, I. fold dateStr.
    right. right. left. reflexivity.
  - apply Hlines; [| discriminate].
    unfold event_lines. rewrite Ht, I. fold dateStr.
    right. right. right. left. reflexivity.
  - subst dateStr.
    destruct (dateRegex_shape s R)
      as (y1 & y2 & y3 & y4 & m1 & m2 & d1 & d2 & -> & Y1 & Y2 & Y3 & Y4
          & M1 & M2 & D1 & D2).
    unfold remove_chars.
    repeat (cbn [filter];
            first [ rewrite digit_not_hyphen by assumption
                  | change (negb (existsb (N.eqb HYPHEN) [HYPHEN]))
                      with false ];
            cbv beta iota).
    cbn [List.length forallb].
    rewrite Y1, Y2, Y3, Y4, M1, M2, D1, D2. split; reflexivity.
Qed.

Lemma validated_date_in_calendar_witness :
  let event :=
    {| event_id := js "7"; event_title := js "Exam";
       event_due_date := 1709596800000; event_location := None;
       event_source := js "notes.txt"; event_file_name := None |} in
  In (js "DTSTART;VALUE=DATE:20240305")
     (calendar_lines (js "2024-01-01T10:00:00.000Z") (js "Ana") [event])
  /\ In (js "DTEND;VALUE=DATE:20240305")
        (calendar_lines (js "2024-01-01T10:00:00.000Z") (js "Ana") [event])
  /\ List.length (js "20240305") = 8
  /\ forallb is_digit (js "20240305") = true.
Proof.
  intros event.
  apply (validated_date_in_calendar (Some (JString (js "2024-03-05")))
           (js "2024-03-05") 1709596800000
           (js "2024-01-01T10:00:00.000Z") (js "Ana") [event] event).
  - vm_compute. reflexivity.
  - vm_compute. reflexivity.
  - left. reflexivity.
  - reflexivity.
Defined.

(** ** The update of an assignment *)

Lemma each_numbered updates st key :
  Assignment.numbered updates st ->
  Assignment.numbered updates (Assignment.each updates st key).
Proof.
  intros (Ha & Hn & Hl & Hv). unfold Assignment.each.
  destruct (existsb (string_eqb key) Assignment.allowedFields) eqn:A;
    [| now repeat split].
  destruct (Assignment.get updates key) as [v |] eqn:G;
    [| now repeat split].
  assert (Hkey : In key Assignment.allowedFields).
  { apply existsb_exists in A. destruct A as (k & Hk & E).
    apply string_eqb_eq in E. now subst. }
  unfold Assignment.numbered.
  cbn [Assignment.fields Assignment.values Assignment.paramCount].
  split; [| split; [| split]].
  - apply Forall_app. split; [exact Ha |]. now constructor.
  - rewrite map_app, Hn, seq_S. reflexivity.
  - rewrite length_app, Hl, Nat.add_comm. reflexivity.
  - intros k n Hin. apply in_app_or in Hin. destruct Hin as [Hin | Hin].
    + destruct (Hv k n Hin) as (v' & G' & N'). exists v'.
      split; [exact G' |].
      rewrite nth_error_app1; [exact N' |].
      apply nth_error_Some. congruence.
    + destruct Hin as [Hin | []]. injection Hin as <- <-.
      exists v. split; [exact G |].
      rewrite Nat.sub_succ, Nat.sub_0_r, <- Hl.
      rewrite nth_error_app2, Nat.sub_diag by lia. reflexivity.
Qed.

Lemma fold_numbered updates keys st :
  Assignment.numbered updates st ->
  Assignment.numbered updates (fold_left (Assignment.each updates) keys st).
Proof.
  revert st. induction keys as [| key keys IH]; intros st H; [exact H |].
  cbn [fold_left]. apply IH. now apply each_numbered.
Qed.

Lemma numbered_length updates st :
  Assignment.numbered updates st ->
  List.length (Assignment.fields st) = Assignment.paramCount st.
Proof.
  intros (_ & Hn & _).
  rewrite <- (length_map snd), Hn. apply length_seq.
Qed.

(** X17.  The statement that [update] sends sets only columns among the
    four allowed ones, whatever keys the [updates] object has; its
    placeholders are numbered from 1, each bound to the value that
    [updates] has for its column; and the two placeholders of the
    [WHERE] are bound to the [id] and the user, after all the values. *)
Theorem update_whitelist (id userId : jsstring)
  (updates : list (jsstring * option json)) (q : Assignment.update_query) :
  Assignment.update id userId updates = inr q ->
  Forall (fun f => In (fst f) Assignment.allowedFields)
    (Assignment.set_fields q)
  /\ map snd (Assignment.set_fields q)
     = seq 1 (List.length (Assignment.set_fields q))
  /\ (forall key n,
        In (key, n) (Assignment.set_fields q) ->
        exists v, Assignment.get updates key = Some v
                  /\ nth_error (Assignment.parameters q) (n - 1) = Some v)
  /\ nth_error (Assignment.parameters q) (Assignment.where_id q - 1)
     = Some (JString id)
  /\ nth_error (Assignment.parameters q) (Assignment.where_user_id q - 1)
     = Some (JString userId)
  /\ List.length (Assignment.parameters q)
     = List.length (Assignment.set_fields q) + 2.
Proof.
  unfold Assignment.update.
  set (st := fold_left _ _ _).
  assert (H : Assignment.numbered updates st).
  { apply fold_numbered. repeat split; [constructor | intros ? ? []]. }
  pose proof (numbered_length updates st H) as Hlen.
  destruct H as (Ha & Hn & Hl & Hv).
  destruct (List.length (Assignment.fields st) =? 0); [discriminate |].
  intros E. injection E as <-.
  cbn [Assignment.set_fields Assignment.where_id Assignment.where_user_id
       Assignment.parameters].
  split; [exact Ha |]. split; [now rewrite Hlen |].
  split; [| split; [| split]].
  - intros key n Hin. destruct (Hv key n Hin) as (v & G & N).
    exists v. split; [exact G |].
    rewrite nth_error_app1; [exact N |]. apply nth_error_Some. congruence.
  - rewrite nth_error_app2 by lia.
    replace (Assignment.paramCount st + 1 - 1
             - List.length (Assignment.values st)) with 0 by lia.
    reflexivity.
  - rewrite nth_error_app2 by lia.
    replace (Assignment.paramCount st + 2 - 1
             - List.length (Assignment.values st)) with 1 by lia.
    reflexivity.
  - rewrite length_app. cbn [List.length]. lia.
Qed.

Lemma update_whitelist_witness :
  let q :=
    {| Assignment.set_fields := [(js "location", 1)];
       Assignment.where_id := 2;
       Assignment.where_user_id := 3;
       Assignment.parameters :=
         [JString (js "Room 4"); JString (js "a1"); JString (js "u1")] |} in
  Forall (fun f => In (fst f) Assignment.allowedFields)
    (Assignment.set_fields q)
  /\ map snd (Assignment.set_fields q)
     = seq 1 (List.length (Assignment.set_fields q))
  /\ (forall key n,
        In (key, n) (Assignment.set_fields q) ->
        exists v,
          Assignment.get
            [ (js "user_id", Some (JString (js "u2")));
              (js "location", Some (JString (js "Room 4")));
              (js "source", None) ] key = Some v
          /\ nth_error (Assignment.parameters q) (n - 1) = Some v)
  /\ nth_error (Assignment.parameters q) (Assignment.where_id q - 1)
     = Some (JString (js "a1"))
  /\ nth_error (Assignment.parameters q) (Assignment.where_user_id q - 1)
     = Some (JString (js "u1"))
  /\ List.length (Assignment.parameters q)
     = List.length (Assignment.set_fields q) + 2.
Proof.
  intros q.
  apply (update_whitelist (js "a1") (js "u1")
           [ (js "user_id", Some (JString (js "u2")));
             (js "location", Some (JString (js "Room 4")));
             (js "source", None) ] q).
  reflexivity.
Defined.

Lemma get_key updates key v :
  Assignment.get updates key = Some v -> In key (map fst updates).
Proof.
  induction updates as [| [k w] updates IH]; [discriminate |].
  cbn [Assignment.get map fst In].
  destruct (string_eqb k key) eqn:E.
  - apply string_eqb_eq in E. now left.
  - intros H. right. now apply IH.
Qed.

Lemma fold_fields_nil updates keys st :
  Assignment.fields (fold_left (Assignment.each updates) keys st) = []
  <-> Assignment.fields st = []
      /\ forall key,
           In key keys -> In key Assignment.allowedFields ->
           Assignment.get updates key = None.
Proof.
  revert st. induction keys as [| key keys IH]; intros st.
  - cbn [fold_left]. split; [intros H; split; [exact H | intros ? []] |].
    now intros [H _].
  - cbn [fold_left]. rewrite IH. unfold Assignment.each.
    destruct (existsb (string_eqb key) Assignment.allowedFields) eqn:A.
    + assert (Hkey : In key Assignment.allowedFields).
      { apply existsb_exists in A. destruct A as (k & Hk & E).
        apply string_eqb_eq in E. now subst. }
      destruct (Assignment.get updates key) as [v |] eqn:G.
      * cbn [Assignment.fields]. split.
        -- intros [H _]. now destruct (Assignment.fields st).
        -- intros [_ H]. specialize (H key (or_introl eq_refl) Hkey).
           congruence.
      * split; intros [H1 H2]; (split; [exact H1 |]).
        -- intros k [<- | Hin] Hk; [exact G | now apply H2].
        -- intros k Hin Hk. apply H2; [now right | exact Hk].
    + split; intros [H1 H2]; (split; [exact H1 |]).
      * intros k [<- | Hin] Hk; [| now apply H2].
        exfalso. assert (existsb (string_eqb key) Assignment.allowedFields
                         = true); [| congruence].
        apply existsb_exists. exists key. split; [exact Hk |].
        now apply string_eqb_eq.
      * intros k Hin Hk. apply H2; [now right | exact Hk].
Qed.

(** X18.  [update] throws, before any query, exactly when none of the
    four allowed columns has a value in [updates] other than
    [undefined]; keys outside the four never make it succeed, and
    a [null] is a value. *)
Theorem update_throws (id userId : jsstring)
  (updates : list (jsstring * option json)) :
  Assignment.update id userId updates
  = inl (Thrown (js "No valid fields to update"))
  <-> forall key,
        In key Assignment.allowedFields ->
        Assignment.get updates key = None.
Proof.
  unfold Assignment.update.
  set (st := fold_left _ _ _).
  assert (H : Assignment.fields st = []
              <-> forall key,
                    In key Assignment.allowedFields ->
                    Assignment.get updates key = None).
  { subst st. rewrite fold_fields_nil. cbn [Assignment.fields]. split.
    - intros [_ H] key Hk.
      destruct (Assignment.get updates key) as [v |] eqn:G; [| reflexivity].
      rewrite <- G. apply H; [| exact Hk]. now apply (get_key _ _ v).
    - intros H. split; [reflexivity |]. intros key _ Hk. now apply H. }
  rewrite <- H.
  destruct (Assignment.fields st) as [| f fs]; cbn [List.length Nat.eqb].
  - split; reflexivity.
  - split; discriminate.
Qed.
